(** * pgcli_dumpall: connection arguments, tunnel rules and tunnel lifecycle

    A shallow embedding of [pgcli/dumpall.py] and [pgcli/ssh_tunnel.py], and
    of the named queries of [pgcli/namedqueries.py].

    Python [str] values are Rocq strings, one [ascii] per code point, so the
    development covers code points below 256.  Python [int] is [Z].
    Exceptions are values of [exn] carried by the [result] monad.  The
    collaborators the code calls but does not define (the process
    environment, [re], [urlparse], [sshtunnel], [subprocess], the file
    system, ConfigObj) are inputs of the functions that use them. *)

From Stdlib Require Import ZArith Lia Ascii String List Bool.
From stdpp Require Import base tactics option list strings gmap sorting.

Local Open Scope Z_scope.

(* String literals are prefixes of tokens throughout: let [simpl] compute
   through them. *)
#[local] Arguments String.append !s1 s2 : simpl nomatch.

(** ** Exceptions and the error monad *)

Inductive exn :=
| ValueError (literal : string)   (* invalid literal for int() with base 10 *)
| IndexError
| ReError (pattern : string)      (* re.error raised when compiling a pattern *)
| FileNotFoundError
| KeyboardInterrupt
| SystemExit (code : Z)
| OtherException (msg : string).

(** [except Exception] catches every class above except the two that derive
    from [BaseException] directly. *)
Definition is_Exception (e : exn) : bool :=
  match e with
  | KeyboardInterrupt | SystemExit _ => false
  | _ => true
  end.

Inductive result (A : Type) :=
| Ok (a : A)
| Raise (e : exn).
Arguments Ok {A} a.
Arguments Raise {A} e.

Definition bind {A B} (m : result A) (k : A → result B) : result B :=
  match m with
  | Ok a => k a
  | Raise e => Raise e
  end.

Notation "x <- m ;; k" := (bind m (fun x => k))
  (at level 100, m at next level, right associativity).

Definition is_ok {A} (m : result A) : bool :=
  match m with Ok _ => true | Raise _ => false end.

(** ** The Python built-ins the code relies on *)

Definition code (c : ascii) : N := N_of_ascii c.

(** [str.isspace] on one character: the separators of [str.split()]. *)
Definition isspace (c : ascii) : bool :=
  let n := code c in
  ((9 <=? n) && (n <=? 13) || (28 <=? n) && (n <=? 32)
   || (n =? 133) || (n =? 160))%N.

(** The characters [int()] skips around a literal: the ASCII blanks and the
    two non-ASCII spaces below 256; the separators 28..31 are not among them. *)
Definition int_isspace (c : ascii) : bool :=
  let n := code c in
  ((9 <=? n) && (n <=? 13) || (n =? 32) || (n =? 133) || (n =? 160))%N.

Fixpoint str_forall (p : ascii → bool) (s : string) : bool :=
  match s with
  | EmptyString => true
  | String c s' => p c && str_forall p s'
  end.

(** No space character in the string. *)
Definition ws_free (s : string) : bool :=
  str_forall (fun c => negb (isspace c)) s.

(** [s.startswith(p)] *)
Definition startswith (s p : string) : bool := String.prefix p s.

(** [needle in s] *)
Fixpoint contains (needle s : string) : bool :=
  String.prefix needle s ||
  match s with
  | EmptyString => false
  | String _ s' => contains needle s'
  end.

(** [x in (a, b, ...)] for strings *)
Definition in_tuple (x : string) (t : list string) : bool :=
  existsb (String.eqb x) t.

(** [s.split(c, 1)[1]]: what follows the first [c]; [IndexError] without one. *)
Fixpoint after_first (c : ascii) (s : string) : result string :=
  match s with
  | EmptyString => Raise IndexError
  | String a s' => if Ascii.eqb a c then Ok s' else after_first c s'
  end.

(** [s.split()]: the maximal runs of non-space characters, in order.
    [cur] is the run being read. *)
Fixpoint split_go (s cur : string) : list string :=
  match s with
  | EmptyString => if String.eqb cur "" then [] else [cur]
  | String c s' =>
      if isspace c then
        if String.eqb cur "" then split_go s' "" else cur :: split_go s' ""
      else split_go s' (cur +:+ String c "")
  end.

Definition split (s : string) : list string := split_go s "".

(** [sep.join(parts)] *)
Definition join (sep : string) (parts : list string) : string :=
  String.concat sep parts.

(** *** [int(s)] for a string argument, base 10 *)

Definition digit_val (c : ascii) : option Z :=
  let n := code c in
  if ((48 <=? n) && (n <=? 57))%N then Some (Z.of_N n - 48) else None.

Fixpoint lstrip (s : string) : string :=
  match s with
  | String c s' => if int_isspace c then lstrip s' else s
  | EmptyString => EmptyString
  end.

(** Digits with single underscores between them, then blanks to the end.
    [prev_digit] tells whether the character just read was a digit. *)
Fixpoint int_body (s : string) (acc : Z) (prev_digit : bool) : option Z :=
  match s with
  | EmptyString => if prev_digit then Some acc else None
  | String c s' =>
      match digit_val c with
      | Some d => int_body s' (10 * acc + d) true
      | None =>
          if Ascii.eqb c "_" then
            if prev_digit then int_body s' acc false else None
          else if prev_digit && str_forall int_isspace s then Some acc
          else None
      end
  end.

Definition int_signed (s : string) : option Z :=
  match s with
  | String c s' =>
      if Ascii.eqb c "-" then option_map Z.opp (int_body s' 0 false)
      else if Ascii.eqb c "+" then int_body s' 0 false
      else int_body s 0 false
  | EmptyString => None
  end.

(** The interpreter's optional cap on the length of a literal is not
    modelled. *)
Definition py_int (s : string) : result Z :=
  match int_signed (lstrip s) with
  | Some n => Ok n
  | None => Raise (ValueError s)
  end.

(** *** [str(n)] and [f"{n}"] for an [int] *)

Definition digit_char (d : Z) : ascii := ascii_of_N (Z.to_N (48 + d)).

Fixpoint digits_of (fuel : nat) (n : Z) : string :=
  match fuel with
  | O => ""
  | S fuel' =>
      if n <? 10 then String (digit_char n) ""
      else digits_of fuel' (n / 10) +:+ String (digit_char (n mod 10)) ""
  end.

Definition py_str (n : Z) : string :=
  if n <? 0 then "-" +:+ digits_of (S (Z.to_nat (Z.log2 (- n)))) (- n)
  else digits_of (S (Z.to_nat (Z.log2 n))) n.

(** ** [pgcli/dumpall.py] *)

(** The two variables [parse_connection_args] reads from [os.environ]. *)
Record environ := Environ {
  PGHOST : option string;
  PGPORT : option string
}.

(** The five values [parse_connection_args] builds and returns. *)
Record conn := Conn {
  host : string;
  port : Z;
  remaining_args : list string;
  has_host : bool;
  has_port : bool
}.

Definition set_host (v : string) (st : conn) : conn :=
  Conn v (port st) (remaining_args st) true (has_port st).
Definition set_port (n : Z) (st : conn) : conn :=
  Conn (host st) n (remaining_args st) (has_host st) true.
Definition keep (toks : list string) (st : conn) : conn :=
  Conn (host st) (port st) (remaining_args st ++ toks) (has_host st) (has_port st).

(** [for part in dbname.split(): ...], lines 116-122 and again 129-135. *)
Fixpoint parse_parts (parts : list string) (st : conn) : result conn :=
  match parts with
  | [] => Ok st
  | part :: parts' =>
      if startswith part "host=" then
        v <- after_first "=" part ;;
        parse_parts parts' (set_host v st)
      else if startswith part "port=" then
        v <- after_first "=" part ;;
        n <- py_int v ;;
        parse_parts parts' (set_port n st)
      else parse_parts parts' st
  end.

(** [if "host=" in dbname: for part in ...] *)
Definition parse_dbname (dbname : string) (st : conn) : result conn :=
  if contains "host=" dbname then parse_parts (split dbname) st else Ok st.

(** The [while i < len(args)] loop; the list is [args[i:]]. *)
Fixpoint parse_loop (args : list string) (st : conn) : result conn :=
  match args with
  | [] => Ok st
  | arg :: rest =>
      let other := parse_loop rest (keep [arg] st) in
      let dbname_branch :=
        if in_tuple arg ["-d"; "--dbname"] then
          match rest with
          | dbname :: rest' =>
              st' <- parse_dbname dbname st ;;
              parse_loop rest' (keep [arg; dbname] st')
          | [] => other
          end
        else if startswith arg "--dbname=" then
          dbname <- after_first "=" arg ;;
          st' <- parse_dbname dbname st ;;
          parse_loop rest (keep [arg] st')
        else other in
      let port_branch :=
        if in_tuple arg ["-p"; "--port"] then
          match rest with
          | v :: rest' =>
              n <- py_int v ;;
              parse_loop rest' (keep [arg; v] (set_port n st))
          | [] => dbname_branch
          end
        else if startswith arg "--port=" then
          v <- after_first "=" arg ;;
          n <- py_int v ;;
          parse_loop rest (keep [arg] (set_port n st))
        else dbname_branch in
      if in_tuple arg ["-h"; "--host"] then
        match rest with
        | v :: rest' => parse_loop rest' (keep [arg; v] (set_host v st))
        | [] => port_branch
        end
      else if startswith arg "--host=" then
        v <- after_first "=" arg ;;
        parse_loop rest (keep [arg] (set_host v st))
      else port_branch
  end.

Definition default_host (env : environ) : string :=
  match PGHOST env with Some h => h | None => "localhost" end.

Definition default_port (env : environ) : result Z :=
  match PGPORT env with Some p => py_int p | None => Ok 5432 end.

Definition parse_connection_args (env : environ) (args : list string)
  : result conn :=
  p <- default_port env ;;
  parse_loop args (Conn (default_host env) p [] false false).

(** [for part in parts: new_parts.append(...)] *)
Definition rewrite_part (tunnel_host : string) (tunnel_port : Z)
    (part : string) : string :=
  if startswith part "host=" then "host=" +:+ tunnel_host
  else if startswith part "port=" then "port=" +:+ py_str tunnel_port
  else part.

Definition rewrite_dbname (tunnel_host : string) (tunnel_port : Z)
    (dbname : string) : string :=
  join " " (map (rewrite_part tunnel_host tunnel_port) (split dbname)).

(** The loop of [build_tunneled_args]; the list is [original_args[i:]]. *)
Fixpoint build_loop (tunnel_host : string) (tunnel_port : Z)
    (args new_args : list string) : result (list string) :=
  match args with
  | [] => Ok new_args
  | arg :: rest =>
      let other := build_loop tunnel_host tunnel_port rest (new_args ++ [arg]) in
      let dbname_branch :=
        if in_tuple arg ["-d"; "--dbname"] then
          match rest with
          | dbname :: rest' =>
              build_loop tunnel_host tunnel_port rest'
                (new_args ++
                 if contains "host=" dbname
                 then ["-d"; rewrite_dbname tunnel_host tunnel_port dbname]
                 else ["-d"; dbname])
          | [] => other
          end
        else if startswith arg "--dbname=" then
          dbname <- after_first "=" arg ;;
          build_loop tunnel_host tunnel_port rest
            (new_args ++
             if contains "host=" dbname
             then ["--dbname=" +:+ rewrite_dbname tunnel_host tunnel_port dbname]
             else [arg])
        else other in
      if in_tuple arg ["-h"; "--host"] then
        match rest with
        | _ :: rest' =>
            build_loop tunnel_host tunnel_port rest' (new_args ++ ["-h"; tunnel_host])
        | [] => Ok (new_args ++ ["-h"; tunnel_host])
        end
      else if startswith arg "--host=" then
        build_loop tunnel_host tunnel_port rest
          (new_args ++ ["--host=" +:+ tunnel_host])
      else if in_tuple arg ["-p"; "--port"] then
        match rest with
        | _ :: rest' =>
            build_loop tunnel_host tunnel_port rest'
              (new_args ++ ["-p"; py_str tunnel_port])
        | [] => Ok (new_args ++ ["-p"; py_str tunnel_port])
        end
      else if startswith arg "--port=" then
        build_loop tunnel_host tunnel_port rest
          (new_args ++ ["--port=" +:+ py_str tunnel_port])
      else dbname_branch
  end.

(** [original_host] and [original_port] are accepted and never read. *)
Definition build_tunneled_args (original_args : list string)
    (tunnel_host : string) (tunnel_port : Z)
    (original_host : string) (original_port : Z)
    (has_host has_port : bool) : result (list string) :=
  new_args <- build_loop tunnel_host tunnel_port original_args [] ;;
  let new_args :=
    if negb has_host then new_args ++ ["-h"; tunnel_host] else new_args in
  let new_args :=
    if negb has_port then new_args ++ ["-p"; py_str tunnel_port] else new_args in
  Ok new_args.

(** ** [re.fullmatch]

    The answer is computed here on a fragment of the pattern syntax:
    literals, [.], a backslash before a character that is not alphanumeric,
    groups, [|] and the greedy quantifiers [*], [+], [?].  On every other
    pattern, valid or not, the answer is the one Python gives, an input of
    the model. *)

Inductive regex :=
| Eps
| Lit (c : ascii)
| Dot                       (* any character but the newline *)
| Cat (r1 r2 : regex)
| Alt (r1 r2 : regex)
| Star (r : regex).

(** One pair of parentheses being read: the alternatives already closed by
    [|], and the atoms of the current alternative, both latest first. *)
Record frame := Frame {
  alts : list regex;
  atoms : list regex
}.

Definition branch_regex (atoms_rev : list regex) : regex :=
  fold_left (fun acc a => Cat a acc) atoms_rev Eps.

Definition frame_regex (f : frame) : regex :=
  fold_left (fun acc a => Alt a acc) (alts f) (branch_regex (atoms f)).

Definition push_atom (r : regex) (f : frame) : frame :=
  Frame (alts f) (r :: atoms f).

Definition quantify (q : regex → regex) (f : frame) : option frame :=
  match atoms f with
  | a :: rest => Some (Frame (alts f) (q a :: rest))
  | [] => None
  end.

Definition is_alnum (c : ascii) : bool :=
  let n := code c in
  ((48 <=? n) && (n <=? 57) || (65 <=? n) && (n <=? 90)
   || (97 <=? n) && (n <=? 122))%N.

(** [rep] tells whether a quantifier may follow; [None] is a pattern that is
    not of the fragment. *)
Fixpoint re_parse_go (p : string) (cur : frame) (stack : list frame)
    (rep : bool) : option regex :=
  match p with
  | EmptyString =>
      match stack with
      | [] => Some (frame_regex cur)
      | _ :: _ => None
      end
  | String c p' =>
      if Ascii.eqb c "(" then re_parse_go p' (Frame [] []) (cur :: stack) false
      else if Ascii.eqb c ")" then
        match stack with
        | f :: stack' => re_parse_go p' (push_atom (frame_regex cur) f) stack' true
        | [] => None
        end
      else if Ascii.eqb c "|" then
        re_parse_go p' (Frame (branch_regex (atoms cur) :: alts cur) []) stack false
      else if Ascii.eqb c "*" then
        match (if rep then quantify Star cur else None) with
        | Some f => re_parse_go p' f stack false
        | None => None
        end
      else if Ascii.eqb c "+" then
        match (if rep then quantify (fun r => Cat r (Star r)) cur else None) with
        | Some f => re_parse_go p' f stack false
        | None => None
        end
      else if Ascii.eqb c "?" then
        match (if rep then quantify (fun r => Alt r Eps) cur else None) with
        | Some f => re_parse_go p' f stack false
        | None => None
        end
      else if Ascii.eqb c "\" then
        match p' with
        | String e p'' =>
            if is_alnum e then None
            else re_parse_go p'' (push_atom (Lit e) cur) stack true
        | EmptyString => None
        end
      else if Ascii.eqb c "." then re_parse_go p' (push_atom Dot cur) stack true
      else if in_tuple (String c "") ["["; "]"; "{"; "}"; "^"; "$"] then None
      else re_parse_go p' (push_atom (Lit c) cur) stack true
  end.

Definition re_parse (p : string) : option regex :=
  re_parse_go p (Frame [] []) [] false.

Fixpoint nullable (r : regex) : bool :=
  match r with
  | Eps | Star _ => true
  | Lit _ | Dot => false
  | Cat r1 r2 => nullable r1 && nullable r2
  | Alt r1 r2 => nullable r1 || nullable r2
  end.

(** The Brzozowski derivative; [None] is the empty language. *)
Fixpoint deriv (c : ascii) (r : regex) : option regex :=
  match r with
  | Eps => None
  | Lit a => if Ascii.eqb a c then Some Eps else None
  | Dot => if Ascii.eqb c "010" then None else Some Eps
  | Cat r1 r2 =>
      let left := option_map (fun d => Cat d r2) (deriv c r1) in
      if nullable r1 then
        match left, deriv c r2 with
        | Some a, Some b => Some (Alt a b)
        | Some a, None => Some a
        | None, o => o
        end
      else left
  | Alt r1 r2 =>
      match deriv c r1, deriv c r2 with
      | Some a, Some b => Some (Alt a b)
      | Some a, None => Some a
      | None, o => o
      end
  | Star r1 => option_map (fun d => Cat d (Star r1)) (deriv c r1)
  end.

Fixpoint regex_fullmatch (r : regex) (s : string) : bool :=
  match s with
  | EmptyString => nullable r
  | String c s' =>
      match deriv c r with
      | Some d => regex_fullmatch d s'
      | None => false
      end
  end.

(** [re.fullmatch(pattern, s)] as a truth value, or the exception raised;
    [python_re] is what Python answers on the patterns that are not of the
    fragment. *)
Definition re_fullmatch (python_re : string → string → result bool)
    (pattern s : string) : result bool :=
  match re_parse pattern with
  | Some r => Ok (regex_fullmatch r s)
  | None => python_re pattern s
  end.



(** A sample engine for the examples: Python's on the fragment, and one
    that refuses every other pattern, as Python refuses an unbalanced
    parenthesis. *)
Definition sample_re : string → string → result bool :=
  re_fullmatch (fun pattern _ => Raise (ReError pattern)).

(** ** [pgcli/ssh_tunnel.py] *)

(** A Python dict of pattern -> tunnel URL, in iteration (insertion) order. *)
Definition rules := list (string * string).

(** What the code reads of an [SSHTunnelForwarder]; [stop_calls] counts the
    calls of its [stop()]. *)
Record forwarder := Forwarder {
  is_active : bool;
  local_bind_port : Z;
  stop_calls : nat
}.

(** [self.tunnel] is a reference into the store of forwarder objects. *)
Record manager := Manager {
  ssh_tunnel_url : option string;
  ssh_tunnel_config : rules;
  dsn_ssh_tunnel_config : rules;
  tunnel : option nat;
  allow_agent : bool
}.

Definition set_tunnel (t : option nat) (self : manager) : manager :=
  Manager (ssh_tunnel_url self) (ssh_tunnel_config self)
    (dsn_ssh_tunnel_config self) t (allow_agent self).

(** [__init__]: [x or {}] for the two dicts, no tunnel yet. *)
Definition SSHTunnelManager (url : option string)
    (config dsn_config : option rules) (agent : bool) : manager :=
  Manager url (default [] config) (default [] dsn_config) None agent.

(** Truth value of an [Optional[str]]. *)
Definition truthy (o : option string) : bool :=
  match o with
  | Some s => negb (String.eqb s "")
  | None => false
  end.

(** Truth value of a dict. *)
Definition nonempty (d : rules) : bool :=
  match d with [] => false | _ :: _ => true end.

Section Resolver.
(** [re.fullmatch(pattern, s)] as a truth value, or the exception raised. *)
Variable fullmatch : string → string → result bool.

(** [for regex, tunnel_url in config.items(): if re.fullmatch(...): return] *)
Fixpoint first_match (config : rules) (s : string) : result (option string) :=
  match config with
  | [] => Ok None
  | (pattern, tunnel_url) :: config' =>
      b <- fullmatch pattern s ;;
      if b then Ok (Some tunnel_url) else first_match config' s
  end.

Definition find_tunnel_url (self : manager) (host dsn_alias : option string)
  : result (option string) :=
  if truthy (ssh_tunnel_url self) then Ok (ssh_tunnel_url self)
  else
    by_dsn <-
      (if truthy dsn_alias && nonempty (dsn_ssh_tunnel_config self)
       then first_match (dsn_ssh_tunnel_config self) (default "" dsn_alias)
       else Ok None) ;;
    match by_dsn with
    | Some tunnel_url => Ok (Some tunnel_url)
    | None =>
        if truthy host && nonempty (ssh_tunnel_config self)
        then first_match (ssh_tunnel_config self) (default "" host)
        else Ok None
    end.
End Resolver.

(** What [start_tunnel] reads of [urlparse(tunnel_url)]; reading [.port]
    raises [ValueError] on a port that is not a number. *)
Record url_info := UrlInfo {
  hostname : option string;
  url_port : result (option Z);
  username : option string;
  password : option string
}.

(** The keyword arguments given to [SSHTunnelForwarder]. *)
Record tunnel_params := TunnelParams {
  local_bind_address : string;
  remote_bind_address : string * Z;
  ssh_address_or_host : option string * Z;
  ssh_config_file : string;
  param_allow_agent : bool;
  host_pkey_directories : list string;
  compression : bool;
  ssh_username : option string;
  ssh_password : option string
}.

(** The collaborators outside the repository. *)
Record externals := Externals {
  os_environ : environ;
  re_engine : string → string → result bool;
  SSH_TUNNEL_SUPPORT : bool;
  urlparse : string → url_info;
  (* the SSHTunnelForwarder constructor: returns or raises *)
  forwarder_new : tunnel_params → result unit;
  (* tunnel.start(): raises, or returns with is_active and the bound port *)
  forwarder_start : tunnel_params → result (bool * Z);
  find_pg_dumpall : string;
  (* subprocess.run(cmd): the return code, or the exception raised *)
  subprocess_run : list string → result Z
}.

Inductive event :=
| EvForwarderStart (ref : nat)
| EvForwarderStop (ref : nat)
| EvAtexitRegister
| EvRun (cmd : list string).

(** The mutable world: the forwarder objects and what happened so far. *)
Record world := World {
  objects : list forwarder;
  trace : list event
}.

Definition or_22 (p : option Z) : Z :=
  match p with
  | Some n => if n =? 0 then 22 else n
  | None => 22
  end.

(** [except Exception as e: ...; sys.exit(1)] *)
Definition on_exception (e : exn) : exn :=
  if is_Exception e then SystemExit 1 else e.

(** [if "://" not in tunnel_url: tunnel_url = f"ssh://{tunnel_url}"] *)
Definition with_scheme (tunnel_url : string) : string :=
  if contains "://" tunnel_url then tunnel_url else "ssh://" +:+ tunnel_url.

(** The [params] dict of [start_tunnel]; building it reads the URL's port,
    which may raise. *)
Definition forwarder_params (ext : externals) (self : manager)
    (host : string) (port : Z) (tunnel_url : string) : result tunnel_params :=
  let tunnel_info := urlparse ext (with_scheme tunnel_url) in
  url_p <- url_port tunnel_info ;;
  Ok (TunnelParams "127.0.0.1" (host, port)
        (hostname tunnel_info, or_22 url_p)
        "~/.ssh/config" (allow_agent self) [] false
        (if truthy (username tunnel_info) then username tunnel_info else None)
        (if truthy (password tunnel_info) then password tunnel_info else None)).

Definition start_tunnel (ext : externals) (self : manager) (w : world)
    (host : string) (port : Z) (dsn_alias : option string)
  : result (string * Z) * manager * world :=
  match find_tunnel_url (re_engine ext) self (Some host) dsn_alias with
  | Raise e => (Raise e, self, w)
  | Ok found =>
      if negb (truthy found) then (Ok (host, port), self, w)
      else if negb (SSH_TUNNEL_SUPPORT ext) then (Raise (SystemExit 1), self, w)
      else
        match forwarder_params ext self host port (default "" found) with
        | Raise e => (Raise e, self, w)
        | Ok params =>
            match forwarder_new ext params with
            | Raise e => (Raise (on_exception e), self, w)
            | Ok _ =>
                let ref := length (objects w) in
                let self := set_tunnel (Some ref) self in
                let w := World (objects w ++ [Forwarder false 0 0]) (trace w) in
                match forwarder_start ext params with
                | Raise e =>
                    (Raise (on_exception e), self,
                     World (objects w) (trace w ++ [EvForwarderStart ref]))
                | Ok (active, local_port) =>
                    let w :=
                      World (<[ref := Forwarder active local_port 0]> (objects w))
                        (trace w ++ [EvForwarderStart ref]) in
                    if negb active then (Raise (SystemExit 1), self, w)
                    else
                      (Ok ("127.0.0.1"%string, local_port), self,
                       World (objects w) (trace w ++ [EvAtexitRegister]))
                end
            end
        end
  end.

(** [tunnel.stop()] is taken to leave the forwarder inactive. *)
Definition stop_tunnel (self : manager) (w : world) : manager * world :=
  match tunnel self with
  | Some ref =>
      match objects w !! ref with
      | Some f =>
          if is_active f then
            (set_tunnel None self,
             World
               (<[ref := Forwarder false (local_bind_port f) (S (stop_calls f))]>
                  (objects w))
               (trace w ++ [EvForwarderStop ref]))
          else (self, w)
      | None => (self, w)
      end
  | None => (self, w)
  end.

(** The loaded configuration: the two sections the manager reads. *)
Record config := Config {
  ssh_tunnels : option rules;
  dsn_ssh_tunnels : option rules
}.

(** [str.lower] on one character. *)
Definition lower_char (c : ascii) : ascii :=
  let n := code c in
  if ((65 <=? n) && (n <=? 90)
      || (192 <=? n) && (n <=? 222) && negb (n =? 215))%N
  then ascii_of_N (n + 32) else c.

Fixpoint lower (s : string) : string :=
  match s with
  | EmptyString => EmptyString
  | String c s' => String (lower_char c) (lower s')
  end.

Fixpoint dict_get (d : rules) (k : string) : option string :=
  match d with
  | [] => None
  | (k', v) :: d' => if String.eqb k' k then Some v else dict_get d' k
  end.

Definition get_tunnel_manager_from_config (cfg : config)
    (url : option string) : manager :=
  let ssh_tunnels_config := default [] (ssh_tunnels cfg) in
  let agent :=
    String.eqb (lower (default "True" (dict_get ssh_tunnels_config "allow_agent")))
      "true" in
  SSHTunnelManager url (Some ssh_tunnels_config) (dsn_ssh_tunnels cfg) agent.

(** How [cli] leaves after [subprocess.run]: [sys.exit(result.returncode)],
    or the two [except] clauses; any other exception goes through. *)
Definition exit_for (outcome : result Z) : exn :=
  match outcome with
  | Ok returncode => SystemExit returncode
  | Raise FileNotFoundError => SystemExit 1
  | Raise KeyboardInterrupt => SystemExit 130
  | Raise e => e
  end.

(** [try: config = get_config() except Exception: config = {}] *)
Definition load_config (get_config : result config) : result config :=
  match get_config with
  | Ok c => Ok c
  | Raise e => if is_Exception e then Ok (Config None None) else Raise e
  end.

(** [cli]: it leaves by an exception, [SystemExit code] on the paths that
    call [sys.exit].  [get_config] is the outcome of loading the
    configuration. *)
Definition cli (ext : externals) (get_config : result config)
    (ctx_args : list string) (ssh_tunnel dsn_alias : option string)
    (w : world) : exn * world :=
  match load_config get_config with
  | Raise e => (e, w)
  | Ok cfg =>
  match parse_connection_args (os_environ ext) ctx_args with
  | Raise e => (e, w)
  | Ok parsed =>
      let tunnel_manager := get_tunnel_manager_from_config cfg ssh_tunnel in
      match start_tunnel ext tunnel_manager w (host parsed) (port parsed) dsn_alias with
      | (Raise e, _, w) => (e, w)
      | (Ok (tunnel_host, tunnel_port), tunnel_manager, w) =>
          let final_args :=
            if negb (String.eqb tunnel_host (host parsed))
               || negb (tunnel_port =? port parsed)
            then
              build_tunneled_args (remaining_args parsed) tunnel_host tunnel_port
                (host parsed) (port parsed) (has_host parsed) (has_port parsed)
            else Ok ctx_args in
          match final_args with
          | Raise e => (e, w)
          | Ok final_args =>
              let cmd := find_pg_dumpall ext :: final_args in
              let w := World (objects w) (trace w ++ [EvRun cmd]) in
              (* finally: tunnel_manager.stop_tunnel() *)
              (exit_for (subprocess_run ext cmd), (stop_tunnel tunnel_manager w).2)
          end
      end
  end
  end.

(** ** Reading the token sequence: flags and occurrences *)

(** [strip_prefix p s = Some t] when [s] is [p] followed by [t]. *)
Fixpoint strip_prefix (p s : string) : option string :=
  match p, s with
  | EmptyString, _ => Some s
  | String a p', String b s' => if Ascii.eqb a b then strip_prefix p' s' else None
  | String _ _, EmptyString => None
  end.

(** The connection flags both loops test for, in the order they test. *)
Inductive kind :=
| KHostFlag
| KHostEq (v : string)
| KPortFlag
| KPortEq (v : string)
| KDbFlag
| KDbEq (v : string)
| KOther.

Definition classify (arg : string) : kind :=
  if in_tuple arg ["-h"; "--host"] then KHostFlag
  else match strip_prefix "--host=" arg with
  | Some v => KHostEq v
  | None =>
  if in_tuple arg ["-p"; "--port"] then KPortFlag
  else match strip_prefix "--port=" arg with
  | Some v => KPortEq v
  | None =>
  if in_tuple arg ["-d"; "--dbname"] then KDbFlag
  else match strip_prefix "--dbname=" arg with
  | Some v => KDbEq v
  | None => KOther
  end end end.

(** What [classify] says of a token, as equations on the token. *)
Inductive classified (arg : string) : kind → Prop :=
| C_h : arg = "-h" → classified arg KHostFlag
| C_host : arg = "--host" → classified arg KHostFlag
| C_host_eq v : arg = "--host=" +:+ v → classified arg (KHostEq v)
| C_p : arg = "-p" → classified arg KPortFlag
| C_port : arg = "--port" → classified arg KPortFlag
| C_port_eq v : arg = "--port=" +:+ v → classified arg (KPortEq v)
| C_d : arg = "-d" → classified arg KDbFlag
| C_dbname : arg = "--dbname" → classified arg KDbFlag
| C_dbname_eq v : arg = "--dbname=" +:+ v → classified arg (KDbEq v)
| C_other :
    in_tuple arg ["-h"; "--host"] = false → startswith arg "--host=" = false →
    in_tuple arg ["-p"; "--port"] = false → startswith arg "--port=" = false →
    in_tuple arg ["-d"; "--dbname"] = false → startswith arg "--dbname=" = false →
    classified arg KOther.

(** A place where the token sequence gives a host or a port. *)
Inductive occurrence :=
| HostOcc (v : string)
| PortOcc (v : string).

Definition is_host_occ (o : occurrence) : bool :=
  match o with HostOcc _ => true | PortOcc _ => false end.
Definition is_port_occ (o : occurrence) : bool :=
  match o with HostOcc _ => false | PortOcc _ => true end.

(** The [host=] and [port=] fields among the fields of a connection string. *)
Fixpoint field_occurrences (parts : list string) : list occurrence :=
  match parts with
  | [] => []
  | part :: parts' =>
      match strip_prefix "host=" part, strip_prefix "port=" part with
      | Some v, _ => HostOcc v :: field_occurrences parts'
      | None, Some v => PortOcc v :: field_occurrences parts'
      | None, None => field_occurrences parts'
      end
  end.

Section Occurrences.
(** The occurrences a dbname value contributes. *)
Variable dbname_occurrences : string → list occurrence.

(** The occurrences of a token sequence, scanned left to right: a flag
    followed by its value, a flag joined to its value by [=], and the
    fields of a dbname value. *)
Fixpoint scan (args : list string) : list occurrence :=
  match args with
  | [] => []
  | arg :: rest =>
      match classify arg with
      | KHostFlag =>
          match rest with
          | v :: rest' => HostOcc v :: scan rest'
          | [] => []
          end
      | KHostEq v => HostOcc v :: scan rest
      | KPortFlag =>
          match rest with
          | v :: rest' => PortOcc v :: scan rest'
          | [] => []
          end
      | KPortEq v => PortOcc v :: scan rest
      | KDbFlag =>
          match rest with
          | dbname :: rest' => dbname_occurrences dbname ++ scan rest'
          | [] => []
          end
      | KDbEq dbname => dbname_occurrences dbname ++ scan rest
      | KOther => scan rest
      end
  end.
End Occurrences.

(** Following the specification's words: every [host=]/[port=] field of a
    dbname value is an occurrence. *)
Definition spec_occurrences : list string → list occurrence :=
  scan (fun dbname => field_occurrences (split dbname)).

(** What the code reads: the fields count when the value contains [host=]. *)
Definition gated_fields (dbname : string) : list occurrence :=
  if contains "host=" dbname then field_occurrences (split dbname) else [].

Definition occurrences : list string → list occurrence := scan gated_fields.

(** The occurrences the rewriting leaves: the replacement host and port. *)
Definition retargeted (tunnel_host : string) (tunnel_port : Z)
    (o : occurrence) : Prop :=
  o = HostOcc tunnel_host ∨ o = PortOcc (py_str tunnel_port).

Definition retarget (tunnel_host : string) (tunnel_port : Z)
    (o : occurrence) : occurrence :=
  match o with
  | HostOcc _ => HostOcc tunnel_host
  | PortOcc _ => PortOcc (py_str tunnel_port)
  end.

(** A field: not empty, no space character. *)
Definition is_field (s : string) : Prop := s ≠ "" ∧ ws_free s = true.

(** A field that is neither [host=...] nor [port=...]. *)
Definition other_field (part : string) : bool :=
  negb (startswith part "host=") && negb (startswith part "port=").

Definition is_digit (c : ascii) : bool :=
  match digit_val c with Some _ => true | None => false end.

(** The value of a string of digits read after [acc]. *)
Fixpoint dec_val (s : string) (acc : Z) : Z :=
  match s with
  | EmptyString => acc
  | String c s' => dec_val s' (10 * acc + default 0 (digit_val c))
  end.

(** The characters of a literal [int()] accepts. *)
Definition int_char (c : ascii) : bool :=
  int_isspace c || is_digit c || Ascii.eqb c "_" || Ascii.eqb c "-"
  || Ascii.eqb c "+".

Definition host_values (occs : list occurrence) : list string :=
  omap (fun o => match o with HostOcc v => Some v | PortOcc _ => None end) occs.
Definition port_values (occs : list occurrence) : list string :=
  omap (fun o => match o with PortOcc v => Some v | HostOcc _ => None end) occs.

Definition last_host (occs : list occurrence) : option string :=
  last (host_values occs).
Definition last_port (occs : list occurrence) : option string :=
  last (port_values occs).

(** The values [int()] is applied to, in the order the parser does it. *)
Definition converted (env : environ) (occs : list occurrence) : list string :=
  match PGPORT env with Some p => [p] | None => [] end ++ port_values occs.

Definition first_invalid (values : list string) : option string :=
  List.find (fun v => negb (is_ok (py_int v))) values.

(** "Last occurrence wins, else the environment default", for the
    occurrences [occs] of a token sequence parsed into [r]. *)
Definition last_occurrence_wins (env : environ) (occs : list occurrence)
    (r : conn) : Prop :=
  host r = default (default_host env) (last_host occs) ∧
  has_host r = existsb is_host_occ occs ∧
  Ok (port r) = match last_port occs with
                | Some v => py_int v
                | None => default_port env
                end ∧
  has_port r = existsb is_port_occ occs.

(** The first rule of [config] whose pattern matches [s] in full. *)
Definition first_matching (fm : string → string → bool) (config : rules)
    (s : string) : option string :=
  snd <$> List.find (fun rule => fm rule.1 s) config.

(** The resolution order as the claim states it: the override if set, else
    the first matching alias rule if an alias was supplied, else the first
    matching host rule. *)
Definition spec_resolve (fm : string → string → bool) (self : manager)
    (host : string) (dsn_alias : option string) : option string :=
  match ssh_tunnel_url self with
  | Some url => Some url
  | None =>
      match from_option (first_matching fm (dsn_ssh_tunnel_config self)) None
              dsn_alias with
      | Some url => Some url
      | None => first_matching fm (ssh_tunnel_config self) host
      end
  end.

(** The resolution order of the code: "set" and "supplied" mean a string
    that is not empty, and so must the host be for its rules to be read. *)
Definition resolve (fm : string → string → bool) (self : manager)
    (host dsn_alias : option string) : option string :=
  if truthy (ssh_tunnel_url self) then ssh_tunnel_url self
  else
    match (if truthy dsn_alias
           then first_matching fm (dsn_ssh_tunnel_config self) (default "" dsn_alias)
           else None) with
    | Some url => Some url
    | None =>
        if truthy host
        then first_matching fm (ssh_tunnel_config self) (default "" host)
        else None
    end.

(** The sample engine as a truth value. *)
Definition fullmatch_bool (pattern s : string) : bool :=
  match sample_re pattern s with
  | Ok b => b
  | Raise _ => false
  end.

(** Reading "a valid non-negative integer" in the most generous way: any
    literal [int()] accepts whose value is not negative. *)
Definition nonneg_literal (v : string) : bool :=
  match py_int v with
  | Ok n => 0 <=? n
  | Raise _ => false
  end.

(** Sample collaborators for the examples: nothing configured, a forwarder
    that binds port 55123, a command that returns 0. *)
Definition sample_externals : externals :=
  Externals (Environ None None) sample_re true
    (fun _ => UrlInfo (Some "bastion") (Ok None) None None)
    (fun _ => Ok tt) (fun _ => Ok (true, 55123))
    "/usr/bin/pg_dumpall" (fun _ => Ok 0).

(** The token sequence the rewriting loop produces, by kind of token. *)
Fixpoint rewritten (tunnel_host : string) (tunnel_port : Z)
    (args : list string) : list string :=
  match args with
  | [] => []
  | arg :: rest =>
      match classify arg with
      | KHostFlag =>
          "-h" :: tunnel_host ::
          match rest with
          | _ :: rest' => rewritten tunnel_host tunnel_port rest'
          | [] => []
          end
      | KHostEq _ =>
          ("--host=" +:+ tunnel_host) :: rewritten tunnel_host tunnel_port rest
      | KPortFlag =>
          "-p" :: py_str tunnel_port ::
          match rest with
          | _ :: rest' => rewritten tunnel_host tunnel_port rest'
          | [] => []
          end
      | KPortEq _ =>
          ("--port=" +:+ py_str tunnel_port) ::
          rewritten tunnel_host tunnel_port rest
      | KDbFlag =>
          match rest with
          | dbname :: rest' =>
              "-d" ::
              (if contains "host=" dbname
               then rewrite_dbname tunnel_host tunnel_port dbname else dbname) ::
              rewritten tunnel_host tunnel_port rest'
          | [] => [arg]
          end
      | KDbEq dbname =>
          (if contains "host=" dbname
           then "--dbname=" +:+ rewrite_dbname tunnel_host tunnel_port dbname
           else arg) :: rewritten tunnel_host tunnel_port rest
      | KOther => arg :: rewritten tunnel_host tunnel_port rest
      end
  end.

(** Where the rewriting loop stands after the iteration that starts at the
    head of [args]: [i += 2] after a host or port flag and after a dbname
    flag that has a value, [i += 1] otherwise. *)
Definition next_position (args : list string) : option (list string) :=
  match args with
  | [] => None
  | arg :: rest =>
      Some match classify arg, rest with
           | (KHostFlag | KPortFlag | KDbFlag), _ :: rest' => rest'
           | _, _ => rest
           end
  end.

(** [reaches args rest]: started on [args], the loop comes to an iteration
    that starts at the head of [rest]. *)
Inductive reaches : list string → list string → Prop :=
| reaches_here args : reaches args args
| reaches_next args args' rest :
    next_position args = Some args' → reaches args' rest → reaches args rest.

(** The pairs [build_tunneled_args] appends after its loop. *)
Definition appended (tunnel_host : string) (tunnel_port : Z)
    (has_host has_port : bool) : list string :=
  (if has_host then [] else ["-h"; tunnel_host]) ++
  (if has_port then [] else ["-p"; py_str tunnel_port]).

(** A token that is no host or port flag in either spelling and does not
    contain the text [host=]. *)
Definition no_connection_token (t : string) : bool :=
  negb (in_tuple t ["-h"; "--host"]) && negb (startswith t "--host=") &&
  negb (in_tuple t ["-p"; "--port"]) && negb (startswith t "--port=") &&
  negb (contains "host=" t).

(** The token sequence with each dbname flag that has a value spelled [-d]. *)
Fixpoint short_dbname (args : list string) : list string :=
  match args with
  | [] => []
  | arg :: rest =>
      if in_tuple arg ["-d"; "--dbname"] then
        match rest with
        | v :: rest' => "-d" :: v :: short_dbname rest'
        | [] => [arg]
        end
      else arg :: short_dbname rest
  end.

(** The maximal runs of space characters of a string, in order: the
    separators a rewriting that kept the separator style would keep. *)
Fixpoint separators_go (s cur : string) : list string :=
  match s with
  | EmptyString => if String.eqb cur "" then [] else [cur]
  | String c s' =>
      if isspace c then separators_go s' (cur +:+ String c "")
      else if String.eqb cur "" then separators_go s' ""
      else cur :: separators_go s' ""
  end.

Definition separators (s : string) : list string := separators_go s "".

(** The tab character, for the examples. *)
Definition tab : string := String "009" "".

(** Scenario B's connection string with two blanks and a tab as separators. *)
Definition mixed_dbname : string :=
  "host=db.example.com  port=5433" +:+ tab +:+ "dbname=mydb".

(** Applying occurrences one by one to the parser's variables. *)
Fixpoint run_occs (occs : list occurrence) (st : conn) : result conn :=
  match occs with
  | [] => Ok st
  | HostOcc v :: occs' => run_occs occs' (set_host v st)
  | PortOcc v :: occs' => n <- py_int v ;; run_occs occs' (set_port n st)
  end.

(** ** [find_pg_dumpall], on a POSIX system *)

(** [s.split(sep)] for a separator of one character; [cur] is the piece
    being read. *)
Fixpoint split_on_go (sep : ascii) (s cur : string) : list string :=
  match s with
  | EmptyString => [cur]
  | String c s' =>
      if Ascii.eqb c sep then cur :: split_on_go sep s' ""
      else split_on_go sep s' (cur +:+ String c "")
  end.

Definition split_on (sep : ascii) (s : string) : list string :=
  split_on_go sep s "".

(** [s.endswith(suffix)] *)
Fixpoint endswith (s suffix : string) : bool :=
  String.eqb s suffix ||
  match s with
  | EmptyString => false
  | String _ s' => endswith s' suffix
  end.

(** [os.path.join(a, b)] of [posixpath]. *)
Definition os_path_join (a b : string) : string :=
  if startswith b "/" then b
  else if String.eqb a "" || endswith a "/" then a +:+ b
  else a +:+ "/" +:+ b.

(** What [find_pg_dumpall] asks the file system. *)
Record filesystem := Filesystem {
  isfile : string → bool;       (* os.path.isfile *)
  access_x : string → bool      (* os.access(path, os.X_OK) *)
}.

Definition paths_to_check : list string :=
  ["/usr/bin/pg_dumpall"; "/usr/local/bin/pg_dumpall";
   "/usr/pgsql-17/bin/pg_dumpall"; "/usr/pgsql-16/bin/pg_dumpall";
   "/usr/pgsql-15/bin/pg_dumpall"; "/usr/pgsql-14/bin/pg_dumpall"].

(** [for path in os.environ.get("PATH", "").split(os.pathsep): ...] *)
Fixpoint search_path (fs : filesystem) (dirs : list string) : option string :=
  match dirs with
  | [] => None
  | path :: dirs' =>
      let pg_dumpall_path := os_path_join path "pg_dumpall" in
      if isfile fs pg_dumpall_path && access_x fs pg_dumpall_path
      then Some pg_dumpall_path
      else search_path fs dirs'
  end.

(** [for path in paths_to_check: ...] *)
Fixpoint search_common (fs : filesystem) (paths : list string) : option string :=
  match paths with
  | [] => None
  | path :: paths' =>
      if isfile fs path && access_x fs path then Some path
      else search_common fs paths'
  end.

Module Dumpall.
(** [find_pg_dumpall()]; [PATH] is [os.environ.get("PATH")]. *)
Definition find_pg_dumpall (PATH : option string) (fs : filesystem) : string :=
  match search_path fs (split_on ":" (default "" PATH)) with
  | Some found => found
  | None =>
      match search_common fs paths_to_check with
      | Some found => found
      | None => "pg_dumpall"
      end
  end.
End Dumpall.

(** ** Tokens the loops pass over *)

(** The tokens the loops take for no connection argument: those met at the
    head of an iteration that are of kind [KOther]. *)
Fixpoint passthrough_tokens (args : list string) : list string :=
  match args with
  | [] => []
  | arg :: rest =>
      match classify arg, rest with
      | (KHostFlag | KPortFlag | KDbFlag), _ :: rest' => passthrough_tokens rest'
      | (KHostFlag | KPortFlag | KDbFlag), [] => []
      | (KHostEq _ | KPortEq _ | KDbEq _), _ => passthrough_tokens rest
      | KOther, _ => arg :: passthrough_tokens rest
      end
  end.

(** The token sequence ends with a dbname flag that has no value. *)
Fixpoint dangling_dbname (args : list string) : bool :=
  match args with
  | [] => false
  | arg :: rest =>
      match classify arg, rest with
      | KDbFlag, [] => true
      | (KHostFlag | KPortFlag | KDbFlag), _ :: rest' => dangling_dbname rest'
      | _, _ => dangling_dbname rest
      end
  end.

Definition is_run (ev : event) : bool :=
  match ev with EvRun _ => true | _ => false end.

(** ** [pgcli/namedqueries.py], on a POSIX system

    A dict is a finite map; a value is whatever ConfigObj stores under a
    key.  An entry named [named queries] is taken to be a section, and the
    value of [includedir] to be a string. *)

(** Python's order on strings, by code point. *)
Definition str_le (a b : string) : Prop := String.leb a b = true.

#[local] Instance str_le_dec a b : Decision (str_le a b) :=
  bool_eq_dec (String.leb a b) true.

(** [sorted(names)] *)
Definition sorted (names : list string) : list string := merge_sort str_le names.

(** [p[:p.rfind("/") + 1]] *)
Fixpoint head_of (p : string) : string :=
  match p with
  | EmptyString => EmptyString
  | String c p' =>
      let head := head_of p' in
      if Ascii.eqb c "/" || negb (String.eqb head "") then String c head
      else EmptyString
  end.

(** [s.rstrip("/")] *)
Fixpoint rstrip_sep (s : string) : string :=
  match s with
  | EmptyString => EmptyString
  | String c s' =>
      let t := rstrip_sep s' in
      if Ascii.eqb c "/" && String.eqb t "" then EmptyString else String c t
  end.

(** [os.path.dirname(p)] of [posixpath]. *)
Definition dirname (p : string) : string :=
  let head := head_of p in
  if negb (String.eqb head "")
     && negb (str_forall (fun c => Ascii.eqb c "/") head)
  then rstrip_sep head else head.

(** [os.path.isabs(s)] of [posixpath]. *)
Definition isabs (s : string) : bool := startswith s "/".

Module ExtendedNamedQueries.
Section Class.
Context {value : Type}.
(** The string a value is, for the value of [includedir]. *)
Context (as_path : value → string).

(** [bool(d)] for a dict. *)
Definition nonempty_dict (d : gmap string value) : bool :=
  match map_to_list d with [] => false | _ :: _ => true end.

(** What [_load_queries_from_file] reads of [ConfigObj(filepath)]: the
    [named queries] section when the file has one, and the items of the top
    level that are no section. *)
Record file_config := FileConfig {
  named_queries : option (gmap string value);
  top_scalars : gmap string value
}.

(** What the loading asks of the file system; [listdir] is [None] when
    [os.listdir] raises [OSError]. *)
Record directory := Directory {
  isdir : string → bool;
  listdir : string → option (list string);
  isfile : string → bool;
  ConfigObj : string → result file_config
}.

(** The object: [self.config.filename] when the attribute exists, the
    [named queries] section of the main configuration when it has one, the
    directory given to the constructor and the queries loaded from the
    include directory. *)
Record instance := Instance {
  filename : option string;
  config_section : option (gmap string value);
  _include_dir : option string;
  _included_queries : gmap string value
}.

Definition INCLUDE_DIR_NAME : string := "namedqueries.d".
Definition DIRECTIVES : list string := ["includedir"].

(** [self.config.get(self.section_name, {})] *)
Definition main_queries (self : instance) : gmap string value :=
  default ∅ (config_section self).

Definition _get_include_dir (self : instance) : option string :=
  if truthy (_include_dir self) then _include_dir self
  else
    let config_dir :=
      if truthy (filename self)
      then Some (dirname (default "" (filename self))) else None in
    let includedir := as_path <$> main_queries self !! "includedir" in
    if truthy includedir then
      if truthy config_dir && negb (isabs (default "" includedir))
      then Some (os_path_join (default "" config_dir) (default "" includedir))
      else includedir
    else if truthy config_dir
    then Some (os_path_join (default "" config_dir) INCLUDE_DIR_NAME)
    else None.

(** [queries] of [_load_queries_from_file], lines 141-147. *)
Definition file_queries (file : file_config) : gmap string value :=
  let queries := default ∅ (named_queries file) in
  if nonempty_dict queries then queries else top_scalars file.

(** [parsed] is what [ConfigObj(filepath, encoding="utf-8")] returns or
    raises; [self._included_queries.update(queries)]. *)
Definition _load_queries_from_file (parsed : result file_config)
    (included : gmap string value) : result (gmap string value) :=
  match parsed with
  | Ok file =>
      let queries := file_queries file in
      if nonempty_dict queries then Ok (queries ∪ included) else Ok included
  | Raise e => if is_Exception e then Ok included else Raise e
  end.

(** [for filename in files: self._load_queries_from_file(filepath)] *)
Fixpoint load_files (fs : directory) (include_dir : string)
    (files : list string) (included : gmap string value)
  : result (gmap string value) :=
  match files with
  | [] => Ok included
  | file :: files' =>
      included' <-
        _load_queries_from_file
          (ConfigObj fs (os_path_join include_dir file)) included ;;
      load_files fs include_dir files' included'
  end.

(** [sorted(f for f in os.listdir(include_dir) if f.endswith(".conf") and
    os.path.isfile(os.path.join(include_dir, f)))] *)
Definition conf_files (fs : directory) (include_dir : string)
    (names : list string) : list string :=
  sorted (List.filter
            (fun f => endswith f ".conf" && isfile fs (os_path_join include_dir f))
            names).

Definition set_included (included : gmap string value) (self : instance)
  : instance :=
  Instance (filename self) (config_section self) (_include_dir self) included.

Definition _load_included_queries (fs : directory) (self : instance)
  : result instance :=
  let include_dir := _get_include_dir self in
  if negb (truthy include_dir) then Ok self
  else
    let include_dir := default "" include_dir in
    if negb (isdir fs include_dir) then Ok self
    else
      match listdir fs include_dir with
      | None => Ok self
      | Some names =>
          included <-
            load_files fs include_dir (conf_files fs include_dir names)
              (_included_queries self) ;;
          Ok (set_included included self)
      end.

(** [__init__], also reached through [from_config]. *)
Definition from_config (fs : directory) (config_filename : option string)
    (config : option (gmap string value)) (include_dir : option string)
  : result instance :=
  _load_included_queries fs (Instance config_filename config include_dir ∅).

Definition reload_includes (fs : directory) (self : instance) : result instance :=
  _load_included_queries fs (set_included ∅ self).

Definition not_directive (item : string * value) : Prop :=
  in_tuple item.1 DIRECTIVES = false.

#[local] Instance not_directive_dec item : Decision (not_directive item) :=
  bool_eq_dec (in_tuple item.1 DIRECTIVES) false.

Definition get_all (self : instance) : gmap string value :=
  filter not_directive (main_queries self) ∪ _included_queries self.

Definition get (self : instance) (name : string) : option value :=
  if in_tuple name DIRECTIVES then None
  else
    match main_queries self !! name with
    | Some query => Some query
    | None => _included_queries self !! name
    end.

Definition get_source (self : instance) (name : string) : option string :=
  match main_queries self !! name with
  | Some _ => Some "config"
  | None =>
      match _included_queries self !! name with
      | Some _ => Some "include"
      | None => None
      end
  end.

Definition list (self : instance) : Datatypes.list string :=
  sorted (elements (dom (get_all self))).
End Class.
End ExtendedNamedQueries.

(** A sample include directory: two include files that define [q], the
    second without a section, and a file that is no [.conf] file. *)
Definition sample_directory : @ExtendedNamedQueries.directory string :=
  ExtendedNamedQueries.Directory
    (fun d => String.eqb d "/etc/pgcli/namedqueries.d")
    (fun _ => Some ["b.conf"; "notes.txt"; "a.conf"])
    (fun _ => true)
    (fun path =>
       if String.eqb path "/etc/pgcli/namedqueries.d/a.conf"
       then Ok (ExtendedNamedQueries.FileConfig
                  (Some (<["q" := "select 1"]> (<["r" := "select 3"]> ∅))) ∅)
       else if String.eqb path "/etc/pgcli/namedqueries.d/b.conf"
       then Ok (ExtendedNamedQueries.FileConfig None (<["q" := "select 2"]> ∅))
       else Raise (OtherException "cannot parse")).

(** * Properties *)

(** ** Strings *)

Lemma strip_prefix_Some p s t : strip_prefix p s = Some t ↔ s = p +:+ t.
Proof.
  revert s; induction p as [|a p IH]; intros [|b s]; simpl.
  - split; congruence.
  - split; congruence.
  - split; congruence.
  - destruct (Ascii.eqb_spec a b) as [->|Hne].
    + rewrite IH. split; congruence.
    + split; congruence.
Qed.

Lemma startswith_strip s p :
  startswith s p = match strip_prefix p s with Some _ => true | None => false end.
Proof.
  unfold startswith. revert s; induction p as [|a p IH]; intros [|b s]; simpl; try done.
  destruct (Ascii.ascii_dec a b) as [->|Hne].
  - rewrite Ascii.eqb_refl. apply IH.
  - apply Ascii.eqb_neq in Hne. by rewrite Hne.
Qed.

Lemma startswith_nil s : startswith s "" = true.
Proof. by destruct s. Qed.

Lemma in_tuple_2 x a b : in_tuple x [a; b] = true ↔ x = a ∨ x = b.
Proof.
  unfold in_tuple; simpl. rewrite !orb_true_iff, !String.eqb_eq. intuition discriminate.
Qed.

Lemma classify_spec arg : classified arg (classify arg).
Proof.
  unfold classify.
  destruct (in_tuple arg ["-h"; "--host"]) eqn:Hh.
  { apply in_tuple_2 in Hh as [->| ->]; by constructor. }
  destruct (strip_prefix "--host=" arg) as [v|] eqn:Hhe.
  { apply strip_prefix_Some in Hhe. by constructor. }
  destruct (in_tuple arg ["-p"; "--port"]) eqn:Hp.
  { apply in_tuple_2 in Hp as [->| ->]; by constructor. }
  destruct (strip_prefix "--port=" arg) as [v|] eqn:Hpe.
  { apply strip_prefix_Some in Hpe. by constructor. }
  destruct (in_tuple arg ["-d"; "--dbname"]) eqn:Hd.
  { apply in_tuple_2 in Hd as [->| ->]; by constructor. }
  destruct (strip_prefix "--dbname=" arg) as [v|] eqn:Hde.
  { apply strip_prefix_Some in Hde. by constructor. }
  constructor; rewrite ?startswith_strip, ?Hhe, ?Hpe, ?Hde; done.
Qed.

(** The parser loop, one token kind at a time. *)
Lemma parse_loop_unfold arg rest st :
  parse_loop (arg :: rest) st =
  match classify arg with
  | KHostFlag =>
      match rest with
      | v :: rest' => parse_loop rest' (keep [arg; v] (set_host v st))
      | [] => Ok (keep [arg] st)
      end
  | KHostEq v => parse_loop rest (keep [arg] (set_host v st))
  | KPortFlag =>
      match rest with
      | v :: rest' => n <- py_int v ;; parse_loop rest' (keep [arg; v] (set_port n st))
      | [] => Ok (keep [arg] st)
      end
  | KPortEq v => n <- py_int v ;; parse_loop rest (keep [arg] (set_port n st))
  | KDbFlag =>
      match rest with
      | dbname :: rest' =>
          st' <- parse_dbname dbname st ;; parse_loop rest' (keep [arg; dbname] st')
      | [] => Ok (keep [arg] st)
      end
  | KDbEq dbname => st' <- parse_dbname dbname st ;; parse_loop rest (keep [arg] st')
  | KOther => parse_loop rest (keep [arg] st)
  end.
Proof.
  destruct (classify_spec arg)
    as [-> | -> | v -> | -> | -> | v -> | -> | -> | v ->
       | H1 H2 H3 H4 H5 H6].
  1-9: simpl; rewrite ?startswith_nil; try reflexivity; by destruct rest.
  cbn [parse_loop]. by rewrite H1, H2, H3, H4, H5, H6.
Qed.

Lemma build_loop_unfold th tp arg rest acc :
  build_loop th tp (arg :: rest) acc =
  match classify arg with
  | KHostFlag =>
      match rest with
      | _ :: rest' => build_loop th tp rest' (acc ++ ["-h"; th])
      | [] => Ok (acc ++ ["-h"; th])
      end
  | KHostEq _ => build_loop th tp rest (acc ++ ["--host=" +:+ th])
  | KPortFlag =>
      match rest with
      | _ :: rest' => build_loop th tp rest' (acc ++ ["-p"; py_str tp])
      | [] => Ok (acc ++ ["-p"; py_str tp])
      end
  | KPortEq _ => build_loop th tp rest (acc ++ ["--port=" +:+ py_str tp])
  | KDbFlag =>
      match rest with
      | dbname :: rest' =>
          build_loop th tp rest'
            (acc ++ ["-d"; if contains "host=" dbname
                           then rewrite_dbname th tp dbname else dbname])
      | [] => Ok (acc ++ [arg])
      end
  | KDbEq dbname =>
      build_loop th tp rest
        (acc ++ [if contains "host=" dbname
                 then "--dbname=" +:+ rewrite_dbname th tp dbname else arg])
  | KOther => build_loop th tp rest (acc ++ [arg])
  end.
Proof.
  destruct (classify_spec arg)
    as [-> | -> | v -> | -> | -> | v -> | -> | -> | v ->
       | H1 H2 H3 H4 H5 H6].
  1-9: simpl; rewrite ?startswith_nil; try reflexivity.
  all: try (destruct rest as [|dbname rest];
            [reflexivity|by destruct (contains "host=" dbname)]).
  all: try by destruct (contains "host=" v).
  cbn [build_loop]. by rewrite H1, H2, H3, H4, H5, H6.
Qed.

(** Induction over a token sequence by one or two tokens at a time. *)
Lemma list_pair_ind {A} (P : list A → Prop) :
  P [] →
  (∀ a l, P l → (∀ b l', l = b :: l' → P l') → P (a :: l)) →
  ∀ l, P l.
Proof.
  intros Hnil Hcons l.
  assert (P l ∧ ∀ b l', l = b :: l' → P l') as [H _]; [|done].
  induction l as [|a l [IH1 IH2]]; split; try done.
  - by apply Hcons.
  - by intros b l' [= _ <-].
Qed.

(** The rewriting loop never raises; its output is [rewritten]. *)
Lemma build_loop_rewritten th tp args :
  ∀ acc, build_loop th tp args acc = Ok (acc ++ rewritten th tp args).
Proof.
  induction args as [|arg rest IH IH'] using list_pair_ind; intros acc.
  - simpl. by rewrite app_nil_r.
  - rewrite build_loop_unfold. cbn [rewritten].
    destruct (classify arg); try destruct rest as [|v rest'];
      rewrite ?IH, ?(IH' _ _ eq_refl), <- ?app_assoc; reflexivity.
Qed.

Lemma build_tunneled_args_rewritten args th tp oh op hh hp :
  build_tunneled_args args th tp oh op hh hp =
  Ok (rewritten th tp args ++ appended th tp hh hp).
Proof.
  unfold build_tunneled_args, appended. rewrite build_loop_rewritten. simpl.
  destruct hh, hp; simpl; rewrite <- ?app_assoc, ?app_nil_r; reflexivity.
Qed.

(** The built-ins on the inputs that tell them apart from simpler readings:
    [int()] takes a sign, blanks around the literal and single underscores
    between digits; [split()] drops empty fields. *)
Example py_int_accepts :
  py_int "5433" = Ok 5433 ∧ py_int "-5" = Ok (-5) ∧ py_int "+7" = Ok 7 ∧
  py_int " 5_0 " = Ok 50 ∧ py_int "007" = Ok 7.
Proof. vm_compute. repeat split. Qed.

Example py_int_rejects :
  py_int "" = Raise (ValueError "") ∧ py_int "5__0" = Raise (ValueError "5__0") ∧
  py_int "_5" = Raise (ValueError "_5") ∧ py_int "5 5" = Raise (ValueError "5 5") ∧
  py_int "+ 5" = Raise (ValueError "+ 5") ∧ py_int "0x10" = Raise (ValueError "0x10").
Proof. vm_compute. repeat split. Qed.

Example split_drops_empty_fields :
  split ("  a  b" +:+ tab +:+ "c ") = ["a"; "b"; "c"] ∧ split "   " = [].
Proof. vm_compute. repeat split. Qed.

(** Two of the repository's tests, evaluated. *)
Example parse_test_connection_string :
  parse_connection_args (Environ None None)
    ["-d"; "host=db.example.com port=5433 dbname=mydb"]
  = Ok (Conn "db.example.com" 5433
          ["-d"; "host=db.example.com port=5433 dbname=mydb"] true true).
Proof. vm_compute. reflexivity. Qed.

Example build_test_scenario_B :
  build_tunneled_args ["-d"; "host=db.example.com port=5433 dbname=mydb"]
    "127.0.0.1" 55123 "db.example.com" 5433 true true
  = Ok ["-d"; "host=127.0.0.1 port=55123 dbname=mydb"].
Proof. vm_compute. reflexivity. Qed.

(** ** The parser as a fold over the occurrences *)

#[local] Arguments strip_prefix : simpl never.
#[local] Arguments classify : simpl never.

Lemma keep_keep l1 l2 st : keep l2 (keep l1 st) = keep (l1 ++ l2) st.
Proof. unfold keep; simpl. by rewrite app_assoc. Qed.

Lemma run_occs_app a b st :
  run_occs (a ++ b) st = (st' <- run_occs a st ;; run_occs b st').
Proof.
  revert st; induction a as [|[v|v] a IH]; intros st; simpl; try done.
  destruct (py_int v); simpl; auto.
Qed.

Lemma run_occs_keep occs l st :
  run_occs occs (keep l st) = (st' <- run_occs occs st ;; Ok (keep l st')).
Proof.
  revert st; induction occs as [|[v|v] occs IH]; intros st; simpl; try done.
  - apply (IH (set_host v st)).
  - destruct (py_int v) as [n|e]; simpl; [apply (IH (set_port n st))|done].
Qed.

Lemma parse_parts_run parts st :
  parse_parts parts st = run_occs (field_occurrences parts) st.
Proof.
  revert st; induction parts as [|part parts IH]; intros st; simpl; [done|].
  rewrite !startswith_strip.
  destruct (strip_prefix "host=" part) as [v|] eqn:Hh.
  { apply strip_prefix_Some in Hh as ->. simpl. apply IH. }
  destruct (strip_prefix "port=" part) as [v|] eqn:Hp.
  { apply strip_prefix_Some in Hp as ->. simpl.
    destruct (py_int v); simpl; auto. }
  apply IH.
Qed.

Lemma parse_dbname_run dbname st :
  parse_dbname dbname st = run_occs (gated_fields dbname) st.
Proof.
  unfold parse_dbname, gated_fields. destruct (contains "host=" dbname); [|done].
  apply parse_parts_run.
Qed.

Lemma parse_loop_run args :
  ∀ st, parse_loop args st =
        (st' <- run_occs (occurrences args) st ;; Ok (keep args st')).
Proof.
  induction args as [|arg rest IH IH'] using list_pair_ind; intros st.
  - simpl. unfold keep. rewrite app_nil_r. by destruct st.
  - rewrite parse_loop_unfold. unfold occurrences. cbn [scan].
    fold occurrences.
    destruct (classify arg) as [|v| |v| |v|].
    + destruct rest as [|v rest']; [done|].
      rewrite (IH' _ _ eq_refl). simpl. rewrite run_occs_keep.
      destruct (run_occs _ (set_host v st)); simpl; [|done].
      by rewrite keep_keep.
    + rewrite IH. simpl. rewrite run_occs_keep.
      destruct (run_occs _ (set_host v st)); simpl; [|done].
      by rewrite keep_keep.
    + destruct rest as [|v rest']; [done|].
      simpl. destruct (py_int v) as [n|]; simpl; [|done].
      rewrite (IH' _ _ eq_refl), run_occs_keep.
      destruct (run_occs _ (set_port n st)); simpl; [|done].
      by rewrite keep_keep.
    + simpl. destruct (py_int v) as [n|]; simpl; [|done].
      rewrite IH, run_occs_keep.
      destruct (run_occs _ (set_port n st)); simpl; [|done].
      by rewrite keep_keep.
    + destruct rest as [|dbname rest']; [done|].
      rewrite parse_dbname_run, run_occs_app.
      destruct (run_occs _ st) as [st1|]; simpl; [|done].
      rewrite (IH' _ _ eq_refl), run_occs_keep.
      destruct (run_occs _ st1); simpl; [|done].
      by rewrite keep_keep.
    + rewrite parse_dbname_run, run_occs_app.
      destruct (run_occs _ st) as [st1|]; simpl; [|done].
      rewrite IH, run_occs_keep.
      destruct (run_occs _ st1); simpl; [|done].
      by rewrite keep_keep.
    + rewrite IH, run_occs_keep.
      destruct (run_occs _ st); simpl; [|done].
      by rewrite keep_keep.
Qed.

Lemma py_int_raise v e : py_int v = Raise e → e = ValueError v.
Proof. unfold py_int. destruct (int_signed (lstrip v)); congruence. Qed.

Lemma run_occs_raise occs :
  ∀ st v, first_invalid (port_values occs) = Some v →
          run_occs occs st = Raise (ValueError v).
Proof.
  induction occs as [|[h|p] occs IH]; intros st v; simpl; [done|by auto|].
  unfold first_invalid; simpl.
  destruct (py_int p) as [n|e] eqn:Hp; simpl.
  - apply IH.
  - intros [= <-]. by rewrite (py_int_raise _ _ Hp).
Qed.

Lemma run_occs_ok occs :
  ∀ st, first_invalid (port_values occs) = None →
  ∃ st', run_occs occs st = Ok st' ∧
         host st' = default (host st) (last_host occs) ∧
         has_host st' = has_host st || existsb is_host_occ occs ∧
         Ok (port st') = match last_port occs with
                         | Some v => py_int v
                         | None => Ok (port st)
                         end ∧
         has_port st' = has_port st || existsb is_port_occ occs ∧
         remaining_args st' = remaining_args st.
Proof.
  unfold last_host, last_port.
  induction occs as [|[h|p] occs IH]; intros st; simpl.
  - intros _. exists st. by rewrite !orb_false_r.
  - intros Hv. destruct (IH (set_host h st) Hv) as (st' & -> & Hh & Hhh & Hp & Hhp & Hr).
    exists st'. split; [done|]. rewrite last_cons.
    simpl in *. rewrite Hh, Hhh, Hhp, Hr. repeat split; try done.
    + by destruct (last (host_values occs)).
    + by rewrite orb_true_r.
  - unfold first_invalid; simpl.
    destruct (py_int p) as [n|e] eqn:Hn; simpl; [|done].
    intros Hv. destruct (IH (set_port n st) Hv) as (st' & -> & Hh & Hhh & Hp & Hhp & Hr).
    exists st'. split; [done|]. rewrite last_cons.
    simpl in *. rewrite Hh, Hhh, Hhp, Hr, Hp. repeat split; try done.
    + by destruct (last (port_values occs)).
    + by rewrite orb_true_r.
Qed.

Lemma first_invalid_converted env occs :
  first_invalid (converted env occs) =
  match default_port env with
  | Ok _ => first_invalid (port_values occs)
  | Raise _ => PGPORT env
  end.
Proof.
  unfold converted, default_port, first_invalid.
  destruct (PGPORT env) as [p|]; simpl; [|done].
  by destruct (py_int p).
Qed.

(** The parser keeps every token: [remaining_args] is the input. *)
Lemma parse_connection_args_remaining env args r :
  parse_connection_args env args = Ok r → remaining_args r = args.
Proof.
  unfold parse_connection_args. destruct (default_port env) as [p|]; simpl; [|done].
  rewrite parse_loop_run.
  destruct (run_occs _ _) as [st'|] eqn:Hrun; simpl; [|done].
  intros [= <-]. simpl.
  destruct (first_invalid (port_values (occurrences args))) as [v|] eqn:Hv.
  - by rewrite (run_occs_raise _ _ _ Hv) in Hrun.
  - destruct (run_occs_ok _ (Conn (default_host env) p [] false false) Hv)
      as (st2 & Hrun2 & _ & _ & _ & _ & Hr).
    rewrite Hrun in Hrun2. injection Hrun2 as ->. by rewrite Hr.
Qed.

Lemma parse_connection_args_ok env args :
  first_invalid (converted env (occurrences args)) = None →
  ∃ r, parse_connection_args env args = Ok r ∧
       last_occurrence_wins env (occurrences args) r.
Proof.
  rewrite first_invalid_converted. unfold parse_connection_args.
  destruct (default_port env) as [p|e] eqn:Hd; simpl.
  - intros Hv. rewrite parse_loop_run.
    destruct (run_occs_ok _ (Conn (default_host env) p [] false false) Hv)
      as (st' & -> & Hh & Hhh & Hp & Hhp & _).
    simpl in *. eexists; split; [done|].
    unfold last_occurrence_wins; simpl. by rewrite Hd.
  - unfold default_port in Hd. destruct (PGPORT env); [done|congruence].
Qed.

Lemma parse_connection_args_raise env args v :
  first_invalid (converted env (occurrences args)) = Some v →
  parse_connection_args env args = Raise (ValueError v).
Proof.
  rewrite first_invalid_converted. unfold parse_connection_args.
  destruct (default_port env) as [p|e] eqn:Hd; simpl.
  - intros Hv. rewrite parse_loop_run. by rewrite (run_occs_raise _ _ _ Hv).
  - unfold default_port in Hd. destruct (PGPORT env) as [s|]; [|done].
    intros [= ->]. by rewrite (py_int_raise _ _ Hd).
Qed.

(** What an accepted token sequence tells: every converted value was a
    literal, and the last occurrences won. *)
Lemma parse_connection_args_inv env args r :
  parse_connection_args env args = Ok r →
  first_invalid (converted env (occurrences args)) = None ∧
  last_occurrence_wins env (occurrences args) r.
Proof.
  intros Hparse.
  destruct (first_invalid (converted env (occurrences args))) as [v|] eqn:Hv.
  - by rewrite (parse_connection_args_raise _ _ _ Hv) in Hparse.
  - split; [done|].
    destruct (parse_connection_args_ok _ _ Hv) as (r' & Hr' & Hwins). congruence.
Qed.

(** ** The claims on the parser *)

(** C1 (amended).  When the parser accepts a token sequence, the host and
    the port it returns are those of the last host and the last port
    occurrence scanned left to right, the occurrences being the host/port
    flags in both spellings and the [host=]/[port=] fields of the dbname
    values that contain the text [host=]; a kind without occurrence keeps the
    environment default and its flag stays false. *)
Theorem parse_last_occurrence_wins env args r :
  parse_connection_args env args = Ok r →
  last_occurrence_wins env (occurrences args) r.
Proof.
  intros Hparse.
  destruct (first_invalid (converted env (occurrences args))) as [v|] eqn:Hv.
  - rewrite (parse_connection_args_raise _ _ _ Hv) in Hparse. discriminate.
  - destruct (parse_connection_args_ok _ _ Hv) as (r' & Hr' & Hwins).
    rewrite Hparse in Hr'. by injection Hr' as <-.
Qed.

Lemma parse_last_occurrence_wins_witness :
  last_occurrence_wins (Environ None None)
    (occurrences ["-h"; "first.host"; "--port=5433"; "-d"; "host=db port=7"])
    (Conn "db" 7 ["-h"; "first.host"; "--port=5433"; "-d"; "host=db port=7"]
       true true).
Proof.
  apply (parse_last_occurrence_wins (Environ None None)
           ["-h"; "first.host"; "--port=5433"; "-d"; "host=db port=7"]).
  vm_compute. reflexivity.
Defined.

(** C1 as stated fails: a [port=] field in a dbname value without [host=]
    is not read. *)
Lemma parse_port_field_needs_host_field :
  ∃ r, parse_connection_args (Environ None None) ["-d"; "port=5433 dbname=mydb"]
       = Ok r ∧
       ¬ last_occurrence_wins (Environ None None)
           (spec_occurrences ["-d"; "port=5433 dbname=mydb"]) r.
Proof.
  eexists; split; [vm_compute; reflexivity|].
  intros (_ & _ & Hport & _). vm_compute in Hport. discriminate.
Qed.

(** C2 (amended).  Parsing fails exactly when a value it converts with
    [int()] -- the [PGPORT] default when set, a port flag's value, a [port=]
    field of a dbname value that contains [host=] -- is not an integer
    literal; it then raises [ValueError] naming the first such value, and
    [cli] leaves with that error before anything is done about a tunnel.
    Negative integers are accepted. *)
Theorem parse_fails_on_first_invalid_port ext args :
  let env := os_environ ext in
  (∀ v, first_invalid (converted env (occurrences args)) = Some v →
        parse_connection_args env args = Raise (ValueError v) ∧
        ∀ get_config ssh_tunnel dsn_alias w,
          (∀ e, get_config = Raise e → is_Exception e = true) →
          cli ext get_config args ssh_tunnel dsn_alias w = (ValueError v, w)) ∧
  (first_invalid (converted env (occurrences args)) = None →
   ∃ r, parse_connection_args env args = Ok r).
Proof.
  intros env; split.
  - intros v Hv. pose proof (parse_connection_args_raise _ _ _ Hv) as Hraise.
    split; [done|]. intros get_config ssh_tunnel dsn_alias w Hcfg.
    unfold cli, load_config. fold env. rewrite Hraise.
    destruct get_config as [c|e]; [done|]. by rewrite (Hcfg e eq_refl).
  - intros Hv. destruct (parse_connection_args_ok _ _ Hv) as (r & Hr & _). eauto.
Qed.

Lemma parse_fails_on_first_invalid_port_witness :
  parse_connection_args (Environ None None) ["-h"; "db"; "--port=54x3"; "-p"; "y"]
  = Raise (ValueError "54x3") ∧
  cli sample_externals (Ok (Config None None))
    ["-h"; "db"; "--port=54x3"; "-p"; "y"] (Some "bastion") None (World [] [])
  = (ValueError "54x3", World [] []).
Proof.
  destruct (parse_fails_on_first_invalid_port sample_externals
              ["-h"; "db"; "--port=54x3"; "-p"; "y"]) as [Hfail _].
  destruct (Hfail "54x3") as [Hparse Hcli]; [vm_compute; reflexivity|].
  split; [exact Hparse|]. apply Hcli. intros e. discriminate.
Defined.

(** C2 as stated fails: a negative port is accepted, and so is a malformed
    [port=] field in a dbname value without [host=]. *)
Lemma parse_accepts_negative_port :
  parse_connection_args (Environ None None) ["-p"; "-5"]
  = Ok (Conn "localhost" (-5) ["-p"; "-5"] false true) ∧
  forallb nonneg_literal (port_values (spec_occurrences ["-p"; "-5"])) = false ∧
  is_ok (parse_connection_args (Environ None None) ["-d"; "port=abc"]) = true ∧
  forallb nonneg_literal (port_values (spec_occurrences ["-d"; "port=abc"])) = false.
Proof. vm_compute. repeat split. Qed.

(** ** The rewriting loop, position by position *)

Lemma next_position_length args args' :
  next_position args = Some args' → (length args' < length args)%nat.
Proof.
  destruct args as [|arg rest]; simpl; [done|]. intros [= <-].
  destruct (classify arg), rest; simpl; lia.
Qed.

Lemma reaches_length args rest :
  reaches args rest → (length rest ≤ length args)%nat.
Proof.
  induction 1 as [|args args' rest Hnext _ IH]; [done|].
  apply next_position_length in Hnext. lia.
Qed.

Lemma reaches_shorter a args : ¬ reaches args (a :: args).
Proof. intros H%reaches_length. simpl in H. lia. Qed.

Lemma reaches_inv args rest :
  reaches args rest →
  args = rest ∨ ∃ args', next_position args = Some args' ∧ reaches args' rest.
Proof. destruct 1; eauto. Qed.

Lemma rewritten_reaches th tp before :
  ∀ rest, reaches (before ++ rest) rest →
          rewritten th tp (before ++ rest) =
          rewritten th tp before ++ rewritten th tp rest.
Proof.
  induction before as [|a b IH IH'] using list_pair_ind; intros rest Hreach; [done|].
  destruct (reaches_inv _ _ Hreach) as [Heq|(args' & Hnext & Hreach')].
  { apply (f_equal length) in Heq. simpl in Heq. rewrite length_app in Heq. lia. }
  simpl in Hnext. injection Hnext as <-. cbn [app rewritten].
  destruct (classify a) eqn:Ha; try (rewrite IH by done; reflexivity).
  all: destruct b as [|x b']; simpl in *;
    [destruct rest as [|y rest'];
       [reflexivity|by apply reaches_shorter in Hreach']
    |by rewrite (IH' _ _ eq_refl _ Hreach')].
Qed.

(** C10.  Where the rewriting loop meets ["--host"], ["--port"] or
    ["--dbname"] followed by a value, its output has ["-h"], ["-p"] or
    ["-d"] in that place, between the output for the tokens before and the
    output for the tokens after; where it meets a flag joined to its value
    by [=], the output keeps the long spelling of the flag. *)
Theorem long_flags_rewritten_short th tp oh op hh hp before rest :
  (∀ flag v,
     reaches (before ++ flag :: v :: rest) (flag :: v :: rest) →
     ∃ pre post,
       build_loop th tp before [] = Ok pre ∧
       build_loop th tp rest [] = Ok post ∧
       (flag = "--host" →
        build_tunneled_args (before ++ flag :: v :: rest) th tp oh op hh hp
        = Ok (pre ++ "-h" :: th :: post ++ appended th tp hh hp)) ∧
       (flag = "--port" →
        build_tunneled_args (before ++ flag :: v :: rest) th tp oh op hh hp
        = Ok (pre ++ "-p" :: py_str tp :: post ++ appended th tp hh hp)) ∧
       (flag = "--dbname" →
        build_tunneled_args (before ++ flag :: v :: rest) th tp oh op hh hp
        = Ok (pre ++ "-d" ::
              (if contains "host=" v then rewrite_dbname th tp v else v) ::
              post ++ appended th tp hh hp))) ∧
  (∀ tok v,
     reaches (before ++ tok :: rest) (tok :: rest) →
     ∃ pre post,
       build_loop th tp before [] = Ok pre ∧
       build_loop th tp rest [] = Ok post ∧
       (tok = "--host=" +:+ v →
        build_tunneled_args (before ++ tok :: rest) th tp oh op hh hp
        = Ok (pre ++ ("--host=" +:+ th) :: post ++ appended th tp hh hp)) ∧
       (tok = "--port=" +:+ v →
        build_tunneled_args (before ++ tok :: rest) th tp oh op hh hp
        = Ok (pre ++ ("--port=" +:+ py_str tp) :: post ++ appended th tp hh hp)) ∧
       (tok = "--dbname=" +:+ v →
        build_tunneled_args (before ++ tok :: rest) th tp oh op hh hp
        = Ok (pre ++
              (if contains "host=" v
               then "--dbname=" +:+ rewrite_dbname th tp v else tok) ::
              post ++ appended th tp hh hp))).
Proof.
  split.
  - intros flag v Hreach. exists (rewritten th tp before), (rewritten th tp rest).
    rewrite !build_loop_rewritten, build_tunneled_args_rewritten.
    rewrite (rewritten_reaches _ _ _ _ Hreach), <- !app_assoc.
    repeat split; intros ->; reflexivity.
  - intros tok v Hreach. exists (rewritten th tp before), (rewritten th tp rest).
    rewrite !build_loop_rewritten, build_tunneled_args_rewritten.
    rewrite (rewritten_reaches _ _ _ _ Hreach), <- !app_assoc.
    repeat split; intros ->; reflexivity.
Qed.

Lemma long_flags_rewritten_short_witness :
  build_tunneled_args ["-U"; "me"; "--host"; "db"; "-g"]
    "127.0.0.1" 55123 "db" 5432 true false
  = Ok ["-U"; "me"; "-h"; "127.0.0.1"; "-g"; "-p"; "55123"].
Proof.
  destruct (long_flags_rewritten_short "127.0.0.1" 55123 "db" 5432 true false
              ["-U"; "me"] ["-g"]) as [Hlong _].
  destruct (Hlong "--host" "db") as (pre & post & Hpre & Hpost & Hhost & _).
  { eapply reaches_next; [reflexivity|]. eapply reaches_next; [reflexivity|].
    apply reaches_here. }
  vm_compute in Hpre, Hpost. injection Hpre as <-. injection Hpost as <-.
  exact (Hhost eq_refl).
Defined.

(** ** [split], [join] and [str] *)

Lemma append_nil_r s : s +:+ "" = s.
Proof. induction s; simpl; congruence. Qed.

Lemma append_assoc s1 s2 s3 : (s1 +:+ s2) +:+ s3 = s1 +:+ (s2 +:+ s3).
Proof. induction s1; simpl; congruence. Qed.

Lemma append_eq_nil s1 s2 : s1 +:+ s2 = "" → s1 = "" ∧ s2 = "".
Proof. by destruct s1. Qed.

Lemma str_forall_app p s1 s2 :
  str_forall p (s1 +:+ s2) = str_forall p s1 && str_forall p s2.
Proof. induction s1; simpl; [done|]. by rewrite IHs1, andb_assoc. Qed.

Lemma split_go_fields s :
  ∀ cur, ws_free cur = true → Forall is_field (split_go s cur).
Proof.
  induction s as [|c s IH]; intros cur Hcur; simpl.
  - destruct (String.eqb_spec cur ""); repeat constructor; done.
  - destruct (isspace c) eqn:Hc.
    + destruct (String.eqb_spec cur ""); [by apply IH|].
      constructor; [done|by apply IH].
    + apply IH. unfold ws_free in *. rewrite str_forall_app, Hcur. simpl.
      by rewrite Hc.
Qed.

Lemma split_fields s : Forall is_field (split s).
Proof. by apply split_go_fields. Qed.

Lemma split_go_word w s :
  ∀ cur, ws_free w = true → split_go (w +:+ s) cur = split_go s (cur +:+ w).
Proof.
  induction w as [|c w IH]; intros cur Hw; simpl.
  - by rewrite append_nil_r.
  - unfold ws_free in Hw. simpl in Hw. apply andb_true_iff in Hw as [Hc Hw].
    apply negb_true_iff in Hc. rewrite Hc, IH by done.
    by rewrite append_assoc.
Qed.

(** Splitting what [join] built from fields gives the fields back. *)
Lemma split_join parts :
  Forall is_field parts → split (join " " parts) = parts.
Proof.
  unfold split, join.
  induction 1 as [|w parts [Hne Hw] Hparts IH]; [done|].
  destruct parts as [|w' parts].
  - simpl. rewrite <- (append_nil_r w) at 1. rewrite split_go_word by done.
    simpl. by destruct (String.eqb_spec w "").
  - change (String.concat " " (w :: w' :: parts))
      with (w +:+ String " " (String.concat " " (w' :: parts))).
    rewrite split_go_word by done. cbn [split_go append].
    change (isspace " ") with true. cbv iota.
    destruct (String.eqb_spec w ""); [done|]. by rewrite IH.
Qed.

Lemma startswith_app p v : startswith (p +:+ v) p = true.
Proof.
  rewrite startswith_strip.
  by destruct (strip_prefix p (p +:+ v)) eqn:H;
    [|pose proof (proj2 (strip_prefix_Some p _ v) eq_refl); congruence].
Qed.

Lemma contains_app_r needle p v :
  contains needle v = true → contains needle (p +:+ v) = true.
Proof.
  intros H. induction p as [|a p IH]; [done|].
  simpl. by rewrite IH, orb_true_r.
Qed.

(** *** Decimal digits *)

Lemma digit_val_char d :
  0 ≤ d < 10 → digit_val (digit_char d) = Some d.
Proof.
  intros Hd.
  assert (d = 0 ∨ d = 1 ∨ d = 2 ∨ d = 3 ∨ d = 4 ∨ d = 5 ∨ d = 6 ∨ d = 7
          ∨ d = 8 ∨ d = 9) as Hcases by lia.
  repeat (destruct Hcases as [ -> | Hcases ]; [reflexivity|]). by subst d.
Qed.

Lemma is_digit_not_space c : is_digit c = true → isspace c = false.
Proof.
  destruct c as [[] [] [] [] [] [] [] []]; vm_compute; congruence.
Qed.

Lemma is_digit_not_int_space c : is_digit c = true → int_isspace c = false.
Proof.
  destruct c as [[] [] [] [] [] [] [] []]; vm_compute; congruence.
Qed.

Lemma is_digit_not_sign c :
  is_digit c = true →
  Ascii.eqb c "_" = false ∧ Ascii.eqb c "-" = false ∧ Ascii.eqb c "+" = false.
Proof.
  destruct c as [[] [] [] [] [] [] [] []]; vm_compute; intuition congruence.
Qed.

Lemma dec_val_app s1 s2 acc : dec_val (s1 +:+ s2) acc = dec_val s2 (dec_val s1 acc).
Proof. revert acc; induction s1; intros acc; simpl; auto. Qed.

Lemma int_body_digits s :
  ∀ acc prev, str_forall is_digit s = true → (s ≠ "" ∨ prev = true) →
              int_body s acc prev = Some (dec_val s acc).
Proof.
  induction s as [|c s IH]; intros acc prev Hs Hne; simpl.
  - destruct Hne as [ | -> ]; done.
  - simpl in Hs. apply andb_true_iff in Hs as [Hc Hs]. unfold is_digit in Hc.
    destruct (digit_val c) as [d|]; [|done]. simpl. apply IH; auto.
Qed.

Lemma digits_of_spec fuel :
  ∀ n, 0 ≤ n < 2 ^ Z.of_nat fuel → (0 < fuel)%nat →
       str_forall is_digit (digits_of fuel n) = true ∧
       digits_of fuel n ≠ "" ∧
       dec_val (digits_of fuel n) 0 = n.
Proof.
  induction fuel as [|fuel IH]; intros n Hn Hfuel; [lia|].
  simpl. destruct (Z.ltb_spec n 10) as [Hlt|Hge].
  - simpl. unfold is_digit. rewrite digit_val_char by lia. simpl.
    repeat split; first [done|lia].
  - assert (0 ≤ n / 10 < 2 ^ Z.of_nat fuel ∧ (0 < fuel)%nat) as [Hdiv Hpos].
    { destruct fuel as [|fuel]; [simpl in Hn; lia|]. split; [|lia].
      rewrite Nat2Z.inj_succ, Z.pow_succ_r in Hn by lia.
      split; [apply Z.div_pos; lia|].
      apply Z.div_lt_upper_bound; lia. }
    destruct (IH (n / 10) Hdiv Hpos) as (Hdig & Hne & Hval).
    rewrite str_forall_app, Hdig, dec_val_app, Hval. simpl.
    unfold is_digit. rewrite digit_val_char by (apply Z.mod_pos_bound; lia).
    simpl. repeat split.
    + intros [? ?]%append_eq_nil. done.
    + pose proof (Z.div_mod n 10). lia.
Qed.

Lemma digits_of_log2 n :
  0 ≤ n →
  let s := digits_of (S (Z.to_nat (Z.log2 n))) n in
  str_forall is_digit s = true ∧ s ≠ "" ∧ dec_val s 0 = n.
Proof.
  intros Hn. apply digits_of_spec; [|lia]. split; [done|].
  rewrite Nat2Z.inj_succ, Z2Nat.id by apply Z.log2_nonneg.
  destruct (Z.eq_dec n 0) as [->|]; [done|].
  apply Z.log2_spec. lia.
Qed.

(** [str(n)] is a minus sign or nothing, then digits. *)
Lemma py_str_shape n :
  ∃ ds, str_forall is_digit ds = true ∧ ds ≠ "" ∧
        py_str n = (if n <? 0 then "-" else "") +:+ ds ∧
        dec_val ds 0 = Z.abs n.
Proof.
  unfold py_str. destruct (Z.ltb_spec n 0) as [Hneg|Hpos].
  - destruct (digits_of_log2 (- n)) as (H1 & H2 & H3); [lia|].
    eexists. split; [exact H1|]. split; [exact H2|]. split; [reflexivity|].
    rewrite H3. lia.
  - destruct (digits_of_log2 n) as (H1 & H2 & H3); [lia|].
    eexists. split; [exact H1|]. split; [exact H2|]. split; [reflexivity|].
    rewrite H3. lia.
Qed.

Lemma int_signed_digits ds :
  str_forall is_digit ds = true → ds ≠ "" →
  int_signed ds = Some (dec_val ds 0) ∧ lstrip ds = ds.
Proof.
  intros Hds Hne. destruct ds as [|c ds]; [done|].
  pose proof Hds as Hds'. simpl in Hds'. apply andb_true_iff in Hds' as [Hc _].
  destruct (is_digit_not_sign c Hc) as (_ & Hm & Hp).
  unfold int_signed. rewrite Hm, Hp. simpl lstrip.
  rewrite (is_digit_not_int_space c Hc). split; [|done].
  apply int_body_digits; auto.
Qed.

(** [int(str(n)) == n] *)
Lemma py_int_str n : py_int (py_str n) = Ok n.
Proof.
  destruct (py_str_shape n) as (ds & Hds & Hne & -> & Hval). unfold py_int.
  destruct (int_signed_digits ds Hds Hne) as [Hint Hstrip].
  destruct (Z.ltb_spec n 0).
  - simpl. rewrite int_body_digits by auto. simpl. f_equal. lia.
  - simpl. rewrite Hstrip, Hint. f_equal. lia.
Qed.

Lemma py_str_ws_free n : ws_free (py_str n) = true.
Proof.
  destruct (py_str_shape n) as (ds & Hds & _ & -> & _).
  unfold ws_free. rewrite str_forall_app. apply andb_true_iff; split.
  - by destruct (n <? 0).
  - clear -Hds. induction ds as [|c ds IH]; [done|]. simpl in *.
    apply andb_true_iff in Hds as [Hc Hds]. by rewrite (is_digit_not_space c Hc), IH.
Qed.

(** ** Rewriting a connection string *)

Lemma rewrite_part_field th tp part :
  ws_free th = true → is_field part → is_field (rewrite_part th tp part).
Proof.
  intros Hth [Hne Hws]. unfold rewrite_part.
  destruct (startswith part "host="); [|destruct (startswith part "port=")].
  - split; [done|]. unfold ws_free. by rewrite str_forall_app.
  - split; [done|]. pose proof (py_str_ws_free tp) as Hp.
    unfold ws_free in *. by rewrite str_forall_app, Hp.
  - done.
Qed.

Lemma split_rewrite_dbname th tp dbname :
  ws_free th = true →
  split (rewrite_dbname th tp dbname) = map (rewrite_part th tp) (split dbname).
Proof.
  intros Hth. unfold rewrite_dbname. apply split_join.
  apply Forall_map. eapply Forall_impl; [apply split_fields|].
  intros part. by apply rewrite_part_field.
Qed.

Lemma other_field_rewrite_part th tp part :
  other_field (rewrite_part th tp part) = other_field part ∧
  (other_field part = true → rewrite_part th tp part = part).
Proof.
  unfold other_field, rewrite_part.
  destruct (startswith part "host=") eqn:Hh.
  { by rewrite startswith_app. }
  destruct (startswith part "port=") eqn:Hp.
  { rewrite startswith_app. by rewrite startswith_strip. }
  by rewrite Hh, Hp.
Qed.

Lemma filter_other_rewrite th tp parts :
  List.filter other_field (map (rewrite_part th tp) parts)
  = List.filter other_field parts.
Proof.
  induction parts as [|part parts IH]; [done|]. simpl.
  destruct (other_field_rewrite_part th tp part) as [-> Hid].
  destruct (other_field part); [|done]. by rewrite IH, Hid.
Qed.

Lemma classify_dbname_eq v : classify ("--dbname=" +:+ v) = KDbEq v.
Proof. reflexivity. Qed.

(** C5 (amended).  When a dbname value that contains [host=] is rewritten
    with a replacement host free of space characters, the fields of the new
    value are the fields of the old one in the same order, each [host=] and
    [port=] field replaced and every other field unchanged; the new value is
    these fields joined by single spaces, whatever separated them before.
    Scenario B is the last conjunct. *)
Theorem rewrite_dbname_keeps_other_fields :
  (∀ th tp oh op dbname,
     ws_free th = true → contains "host=" dbname = true →
     let new := rewrite_dbname th tp dbname in
     build_tunneled_args ["-d"; dbname] th tp oh op true true = Ok ["-d"; new] ∧
     build_tunneled_args ["--dbname=" +:+ dbname] th tp oh op true true
     = Ok ["--dbname=" +:+ new] ∧
     split new = map (rewrite_part th tp) (split dbname) ∧
     List.filter other_field (split new) = List.filter other_field (split dbname) ∧
     new = join " " (split new)) ∧
  build_tunneled_args ["-d"; "host=db.example.com port=5433 dbname=mydb"]
    "127.0.0.1" 55123 "db.example.com" 5433 true true
  = Ok ["-d"; "host=127.0.0.1 port=55123 dbname=mydb"].
Proof.
  split; [|vm_compute; reflexivity].
  intros th tp oh op dbname Hth Hgate new.
  pose proof (split_rewrite_dbname th tp dbname Hth) as Hsplit. fold new in Hsplit.
  rewrite !build_tunneled_args_rewritten. cbn [rewritten].
  rewrite classify_dbname_eq. change (classify "-d") with KDbFlag. cbv iota.
  rewrite Hgate. repeat split; try done.
  - by rewrite Hsplit, filter_other_rewrite.
  - by rewrite Hsplit.
Qed.

Lemma rewrite_dbname_keeps_other_fields_witness :
  split (rewrite_dbname "127.0.0.1" 55123
           ("user=me  host=db" +:+ tab +:+ "sslmode=require"))
  = ["user=me"; "host=127.0.0.1"; "sslmode=require"].
Proof.
  destruct rewrite_dbname_keeps_other_fields as [Hgen _].
  destruct (Hgen "127.0.0.1" 55123 "db" 5432
              ("user=me  host=db" +:+ tab +:+ "sslmode=require"))
    as (_ & _ & Hsplit & _); [reflexivity|reflexivity|].
  rewrite Hsplit. vm_compute. reflexivity.
Defined.

(** C5 as stated fails: the separators of the value (here two blanks, then
    a tab) are not kept. *)
Lemma rewrite_dbname_normalises_separators :
  separators mixed_dbname = ["  "; tab] ∧
  rewrite_dbname "127.0.0.1" 55123 mixed_dbname
  = "host=127.0.0.1 port=55123 dbname=mydb" ∧
  separators (rewrite_dbname "127.0.0.1" 55123 mixed_dbname)
  ≠ separators mixed_dbname.
Proof. vm_compute. repeat split. discriminate. Qed.

(** ** Token sequences without connection arguments *)

Lemma no_connection_rewritten th tp args :
  forallb no_connection_token args = true →
  rewritten th tp args = short_dbname args ∧ occurrences args = [].
Proof.
  induction args as [|arg rest IH IH'] using list_pair_ind; [done|].
  intros Hall. simpl in Hall. apply andb_true_iff in Hall as [Harg Hrest].
  specialize (IH Hrest). unfold occurrences, gated_fields in *.
  cbn [rewritten scan short_dbname]. unfold no_connection_token in Harg.
  destruct (classify_spec arg)
    as [-> | -> | v -> | -> | -> | v -> | -> | -> | v ->
       | H1 H2 H3 H4 H5 H6].
  1-6: try rewrite startswith_app in Harg; done.
  - destruct rest as [|v rest']; [done|]. simpl in Hrest.
    apply andb_true_iff in Hrest as [Hv Hrest'].
    destruct (IH' _ _ eq_refl Hrest') as [-> ->].
    unfold no_connection_token in Hv. rewrite !andb_true_iff in Hv.
    destruct Hv as (_ & Hv%negb_true_iff). by rewrite Hv.
  - destruct rest as [|v rest']; [done|]. simpl in Hrest.
    apply andb_true_iff in Hrest as [Hv Hrest'].
    destruct (IH' _ _ eq_refl Hrest') as [-> ->].
    unfold no_connection_token in Hv. rewrite !andb_true_iff in Hv.
    destruct Hv as (_ & Hv%negb_true_iff). by rewrite Hv.
  - destruct IH as [-> ->].
    rewrite !andb_true_iff, !negb_true_iff in Harg. destruct Harg as (_ & Hc).
    destruct (contains "host=" v) eqn:Hv.
    { by rewrite (contains_app_r "host=" "--dbname=" v Hv) in Hc. }
    done.
  - destruct IH as [-> ->]. by rewrite H5.
Qed.

(** C6 (amended).  For a token sequence in which no token is a host or port
    flag in either spelling and no token contains the text [host=], the
    rewriting returns the tokens in order, each dbname flag that has a value
    spelled ["-d"] and every other token unchanged, followed by exactly one
    ["-h"] pair and one ["-p"] pair.  Scenario C is the last conjunct. *)
Theorem no_connection_tokens_append_pairs :
  (∀ env args th tp r,
     forallb no_connection_token args = true →
     parse_connection_args env args = Ok r →
     build_tunneled_args (remaining_args r) th tp (host r) (port r)
       (has_host r) (has_port r)
     = Ok (short_dbname args ++ ["-h"; th; "-p"; py_str tp])) ∧
  build_tunneled_args [] "127.0.0.1" 9999 "localhost" 5432 false false
  = Ok ["-h"; "127.0.0.1"; "-p"; "9999"].
Proof.
  split; [|vm_compute; reflexivity].
  intros env args th tp r Hno Hparse.
  destruct (no_connection_rewritten th tp args Hno) as [Hrew Hocc].
  destruct (parse_connection_args_inv _ _ _ Hparse) as (_ & _ & Hhh & _ & Hhp).
  rewrite Hocc in Hhh, Hhp. simpl in Hhh, Hhp.
  rewrite (parse_connection_args_remaining _ _ _ Hparse).
  by rewrite build_tunneled_args_rewritten, Hrew, Hhh, Hhp.
Qed.

Lemma no_connection_tokens_append_pairs_witness :
  build_tunneled_args ["-U"; "me"; "--dbname"; "mydb"; "-g"] "127.0.0.1" 9999
    "localhost" 5432 false false
  = Ok ["-U"; "me"; "-d"; "mydb"; "-g"; "-h"; "127.0.0.1"; "-p"; "9999"].
Proof.
  destruct no_connection_tokens_append_pairs as [Hgen _].
  exact (Hgen (Environ None None) ["-U"; "me"; "--dbname"; "mydb"; "-g"]
           "127.0.0.1" 9999
           (Conn "localhost" 5432 ["-U"; "me"; "--dbname"; "mydb"; "-g"] false false)
           eq_refl eq_refl).
Defined.

(** C6 as stated fails: with no host or port anywhere in the input, the
    token ["--dbname"] is altered; and so is a dbname value that has no
    [host=] or [port=] field but contains the text [host=]. *)
Lemma long_dbname_flag_is_altered :
  (spec_occurrences ["--dbname"; "mydb"] = [] ∧
   parse_connection_args (Environ None None) ["--dbname"; "mydb"]
   = Ok (Conn "localhost" 5432 ["--dbname"; "mydb"] false false) ∧
   build_tunneled_args ["--dbname"; "mydb"] "127.0.0.1" 9999 "localhost" 5432
     false false
   = Ok ["-d"; "mydb"; "-h"; "127.0.0.1"; "-p"; "9999"] ∧
   ["-d"; "mydb"; "-h"; "127.0.0.1"; "-p"; "9999"]
   ≠ ["--dbname"; "mydb"] ++ ["-h"; "127.0.0.1"; "-p"; "9999"]) ∧
  (spec_occurrences ["-d"; "xhost=1  dbname=mydb"] = [] ∧
   parse_connection_args (Environ None None) ["-d"; "xhost=1  dbname=mydb"]
   = Ok (Conn "localhost" 5432 ["-d"; "xhost=1  dbname=mydb"] false false) ∧
   build_tunneled_args ["-d"; "xhost=1  dbname=mydb"] "127.0.0.1" 9999
     "localhost" 5432 false false
   = Ok ["-d"; "xhost=1 dbname=mydb"; "-h"; "127.0.0.1"; "-p"; "9999"]).
Proof. vm_compute. repeat split. discriminate. Qed.

(** ** Substrings and fields *)

Lemma contains_unfold needle s :
  contains needle s =
  match strip_prefix needle s with Some _ => true | None => false end ||
  match s with
  | EmptyString => false
  | String _ s' => contains needle s'
  end.
Proof. destruct s; simpl; by rewrite <- startswith_strip. Qed.

Lemma strip_prefix_cons x p y s :
  strip_prefix (String x p) (String y s)
  = if Ascii.eqb x y then strip_prefix p s else None.
Proof. reflexivity. Qed.

Lemma strip_prefix_app_l needle a x t :
  strip_prefix needle a = Some t →
  strip_prefix needle (a +:+ x) = Some (t +:+ x).
Proof.
  rewrite !strip_prefix_Some. intros ->. by rewrite append_assoc.
Qed.

Lemma contains_app_l needle a x :
  contains needle a = true → contains needle (a +:+ x) = true.
Proof.
  induction a as [|c a IH].
  - rewrite (contains_unfold _ ""), (contains_unfold _ ("" +:+ x)).
    destruct (strip_prefix needle "") as [t|] eqn:Ht; [|done].
    intros _. by rewrite (strip_prefix_app_l _ _ x _ Ht).
  - rewrite (contains_unfold _ (String c a)),
      (contains_unfold _ (String c a +:+ x)).
    destruct (strip_prefix needle (String c a)) as [t|] eqn:Ht.
    + intros _. by rewrite (strip_prefix_app_l _ _ x _ Ht).
    + simpl. intros H. by rewrite IH, orb_true_r.
Qed.

(** A needle without space characters that starts before a space ends
    before it. *)
Lemma strip_prefix_before_space needle :
  ws_free needle = true →
  ∀ a c b t, isspace c = true →
             strip_prefix needle (a +:+ String c b) = Some t →
             ∃ t', strip_prefix needle a = Some t'.
Proof.
  induction needle as [|x needle IH]; intros Hws a c b t Hc; [by exists a; destruct a|].
  unfold ws_free in Hws. simpl in Hws. apply andb_true_iff in Hws as [Hx Hws].
  destruct a as [|y a]; simpl append; rewrite !strip_prefix_cons.
  - destruct (Ascii.eqb_spec x c) as [->|]; [|done]. by rewrite Hc in Hx.
  - destruct (Ascii.eqb x y); [|done]. by apply IH.
Qed.

Lemma contains_at_space needle a c b :
  ws_free needle = true → isspace c = true →
  contains needle (a +:+ String c b) = true →
  contains needle a = true ∨ contains needle b = true.
Proof.
  intros Hws Hc. induction a as [|y a IH].
  - simpl append. rewrite (contains_unfold _ (String c b)).
    destruct (strip_prefix needle (String c b)) as [t|] eqn:Ht; [|by auto].
    destruct (strip_prefix_before_space needle Hws "" c b t Hc Ht) as [t' Ht'].
    intros _. left. rewrite (contains_unfold _ ""). by rewrite Ht'.
  - simpl append. rewrite (contains_unfold _ (String y (a +:+ String c b))).
    destruct (strip_prefix needle (String y (a +:+ String c b))) as [t|] eqn:Ht.
    + destruct (strip_prefix_before_space needle Hws (String y a) c b t Hc Ht)
        as [t' Ht'].
      intros _. left. rewrite (contains_unfold _ (String y a)). by rewrite Ht'.
    + simpl. intros [H|H]%IH; [|by auto].
      left. simpl. by rewrite H, orb_true_r.
Qed.

Lemma contains_nil needle : needle ≠ "" → contains needle "" = false.
Proof. by destruct needle. Qed.

(** A needle without space characters lies inside one field. *)
Lemma contains_in_split needle s :
  ws_free needle = true → needle ≠ "" →
  ∀ cur, contains needle (cur +:+ s) = true →
         ∃ part, In part (split_go s cur) ∧ contains needle part = true.
Proof.
  intros Hws Hne. induction s as [|c s IH]; intros cur Hin; simpl.
  - rewrite append_nil_r in Hin.
    destruct (String.eqb_spec cur "") as [->|].
    + by rewrite contains_nil in Hin.
    + exists cur. split; [by left|done].
  - destruct (isspace c) eqn:Hc.
    + destruct (contains_at_space _ _ _ _ Hws Hc Hin) as [Hcur|Hs].
      * destruct (String.eqb_spec cur "") as [->|].
        { by rewrite contains_nil in Hcur. }
        exists cur. split; [by left|done].
      * destruct (IH "" Hs) as (part & Hpart & Hc').
        exists part. split; [|done].
        destruct (String.eqb cur ""); [done|by right].
    + apply IH. by rewrite append_assoc.
Qed.

Lemma contains_join needle part parts :
  In part parts → contains needle part = true →
  contains needle (join " " parts) = true.
Proof.
  unfold join. intros Hin Hc. induction parts as [|p parts IH]; [done|].
  destruct parts as [|q parts].
  - destruct Hin as [->|[]]. done.
  - change (String.concat " " (p :: q :: parts))
      with (p +:+ (" " +:+ String.concat " " (q :: parts))).
    destruct Hin as [->|Hin].
    + by apply contains_app_l.
    + apply contains_app_r. apply (contains_app_r _ " "). by apply IH.
Qed.

Lemma contains_first_char a needle s :
  contains (String a needle) s = true →
  str_forall (fun c => negb (Ascii.eqb c a)) s = false.
Proof.
  induction s as [|b s IH];
    [done|rewrite (contains_unfold _ (String b s)), strip_prefix_cons; simpl].
  destruct (Ascii.eqb_spec a b) as [->|Hab].
  - by rewrite Ascii.eqb_refl.
  - simpl. intros H. by rewrite (IH H), andb_false_r.
Qed.

Lemma str_forall_impl (p q : ascii → bool) s :
  (∀ c, p c = true → q c = true) →
  str_forall p s = true → str_forall q s = true.
Proof.
  intros Hpq. induction s as [|c s IH]; simpl; [done|].
  intros [Hc Hs]%andb_true_iff. by rewrite (Hpq c Hc), IH.
Qed.

(** *** The characters of an accepted literal *)

Lemma int_body_chars s :
  ∀ acc prev n, int_body s acc prev = Some n → str_forall int_char s = true.
Proof.
  induction s as [|c s IH]; intros acc prev n; simpl; [done|].
  unfold int_char at 1. unfold is_digit.
  destruct (digit_val c) as [d|].
  { intros H. rewrite (IH _ _ _ H). by rewrite orb_true_r. }
  destruct (Ascii.eqb c "_").
  { destruct prev; [|done]. intros H. rewrite (IH _ _ _ H).
    by rewrite !orb_true_r. }
  destruct prev; [|done]. simpl.
  destruct (int_isspace c) eqn:Hc; [|done]. simpl.
  destruct (str_forall int_isspace s) eqn:Hs; [|done]. intros _.
  apply (str_forall_impl int_isspace); [|done].
  intros c' Hc'. unfold int_char. by rewrite Hc'.
Qed.

Lemma lstrip_chars s :
  str_forall int_char (lstrip s) = true → str_forall int_char s = true.
Proof.
  induction s as [|c s IH]; simpl; [done|].
  destruct (int_isspace c) eqn:Hc; [|done].
  intros H. rewrite (IH H). unfold int_char. by rewrite Hc.
Qed.

Lemma py_int_chars v n : py_int v = Ok n → str_forall int_char v = true.
Proof.
  unfold py_int. destruct (int_signed (lstrip v)) as [m|] eqn:Hs; [|done].
  intros _. apply lstrip_chars. unfold int_signed in Hs.
  destruct (lstrip v) as [|c s]; [done|]. simpl.
  destruct (Ascii.eqb c "-") eqn:Hm.
  { destruct (int_body s 0 false) as [k|] eqn:Hb; [|done].
    rewrite (int_body_chars _ _ _ _ Hb). unfold int_char. rewrite Hm.
    by rewrite !orb_true_r. }
  destruct (Ascii.eqb c "+") eqn:Hp.
  { rewrite (int_body_chars _ _ _ _ Hs). unfold int_char. rewrite Hp.
    by rewrite !orb_true_r. }
  apply (int_body_chars _ _ _ _ Hs).
Qed.

Lemma int_char_not_h c : int_char c = true → negb (Ascii.eqb c "h") = true.
Proof.
  destruct c as [[] [] [] [] [] [] [] []]; vm_compute; congruence.
Qed.

(** No accepted literal contains the text [host=]. *)
Lemma py_int_no_host v n : py_int v = Ok n → contains "host=" v = false.
Proof.
  intros Hv%py_int_chars. destruct (contains "host=" v) eqn:Hc; [|done].
  apply contains_first_char in Hc.
  by rewrite (str_forall_impl _ _ _ int_char_not_h Hv) in Hc.
Qed.

(** ** Parsing what the rewriting produced *)

Lemma first_invalid_None values :
  first_invalid values = None ↔ Forall (fun v => is_ok (py_int v) = true) values.
Proof.
  unfold first_invalid. induction values as [|v values IH]; simpl.
  - split; [constructor|done].
  - destruct (is_ok (py_int v)) eqn:Hv; simpl.
    + rewrite IH. split; [by constructor|by inversion 1].
    + split; [done|]. inversion 1; congruence.
Qed.

Lemma port_values_app a b : port_values (a ++ b) = port_values a ++ port_values b.
Proof. apply omap_app. Qed.

Lemma first_invalid_app a b :
  first_invalid (port_values (a ++ b)) = None →
  first_invalid (port_values a) = None ∧ first_invalid (port_values b) = None.
Proof. rewrite port_values_app, !first_invalid_None. apply Forall_app. Qed.

Lemma rewrite_part_strip th tp part :
  strip_prefix "host=" (rewrite_part th tp part)
  = match strip_prefix "host=" part with Some _ => Some th | None => None end ∧
  (strip_prefix "host=" part = None →
   strip_prefix "port=" (rewrite_part th tp part)
   = match strip_prefix "port=" part with
     | Some _ => Some (py_str tp)
     | None => None
     end).
Proof.
  unfold rewrite_part. rewrite !startswith_strip.
  destruct (strip_prefix "host=" part) as [v|] eqn:Hh; [by split|].
  destruct (strip_prefix "port=" part) as [v|] eqn:Hp; [by split|].
  by rewrite Hh, Hp.
Qed.

Lemma field_occurrences_rewrite th tp parts :
  field_occurrences (map (rewrite_part th tp) parts)
  = map (retarget th tp) (field_occurrences parts).
Proof.
  induction parts as [|part parts IH]; [done|]. cbn [map field_occurrences].
  destruct (rewrite_part_strip th tp part) as [-> Hport]. rewrite IH.
  destruct (strip_prefix "host=" part) as [v|]; [done|].
  rewrite (Hport eq_refl).
  by destruct (strip_prefix "port=" part).
Qed.

Lemma port_field_valid parts v :
  first_invalid (port_values (field_occurrences parts)) = None →
  In (PortOcc v) (field_occurrences parts) → ∃ n, py_int v = Ok n.
Proof.
  rewrite first_invalid_None, Forall_forall. intros Hall Hin.
  assert (v ∈ port_values (field_occurrences parts)) as Hv.
  { apply list_elem_of_omap. exists (PortOcc v).
    split; [by apply list_elem_of_In|done]. }
  specialize (Hall v Hv). destruct (py_int v); [by eauto|done].
Qed.

Lemma field_occurrences_In part parts :
  In part parts →
  match strip_prefix "host=" part, strip_prefix "port=" part with
  | Some v, _ => In (HostOcc v) (field_occurrences parts)
  | None, Some v => In (PortOcc v) (field_occurrences parts)
  | None, None => True
  end.
Proof.
  induction parts as [|p parts IH]; [done|]. intros [->|Hin].
  - cbn [field_occurrences].
    destruct (strip_prefix "host=" part), (strip_prefix "port=" part);
      try done; by left.
  - specialize (IH Hin). cbn [field_occurrences].
    destruct (strip_prefix "host=" part), (strip_prefix "port=" part);
      try done;
      destruct (strip_prefix "host=" p), (strip_prefix "port=" p);
      try done; by right.
Qed.

(** The rewritten connection string still contains [host=]. *)
Lemma rewrite_dbname_gate th tp dbname :
  contains "host=" dbname = true →
  first_invalid (port_values (field_occurrences (split dbname))) = None →
  contains "host=" (rewrite_dbname th tp dbname) = true.
Proof.
  intros Hgate Hvalid.
  destruct (contains_in_split "host=" dbname eq_refl ltac:(done) "" Hgate)
    as (part & Hin & Hpart).
  fold (split dbname) in Hin. unfold rewrite_dbname.
  apply (contains_join _ (rewrite_part th tp part)); [by apply in_map|].
  pose proof (field_occurrences_In _ _ Hin) as Hocc.
  unfold rewrite_part. rewrite !startswith_strip.
  destruct (strip_prefix "host=" part) as [v|] eqn:Hh.
  { by apply (contains_app_l "host=" "host=" th). }
  destruct (strip_prefix "port=" part) as [v|] eqn:Hp; [|done].
  destruct (port_field_valid _ _ Hvalid Hocc) as [n Hn].
  apply py_int_no_host in Hn. apply strip_prefix_Some in Hp as ->.
  simpl in Hpart. congruence.
Qed.

Lemma gated_fields_rewrite th tp dbname :
  ws_free th = true →
  first_invalid (port_values (gated_fields dbname)) = None →
  gated_fields (if contains "host=" dbname
                then rewrite_dbname th tp dbname else dbname)
  = map (retarget th tp) (gated_fields dbname).
Proof.
  intros Hth. unfold gated_fields at 1 3.
  destruct (contains "host=" dbname) eqn:Hgate.
  - intros Hvalid. unfold gated_fields.
    rewrite (rewrite_dbname_gate th tp dbname Hgate Hvalid).
    by rewrite split_rewrite_dbname, field_occurrences_rewrite.
  - intros _. unfold gated_fields. by rewrite Hgate.
Qed.

Lemma classify_host_eq v : classify ("--host=" +:+ v) = KHostEq v.
Proof. reflexivity. Qed.

Lemma classify_port_eq v : classify ("--port=" +:+ v) = KPortEq v.
Proof. reflexivity. Qed.

(** Every flag is a dash followed by a character that is no digit. *)
Lemma classify_flag_shape arg :
  classify arg ≠ KOther →
  ∃ c rest, arg = String "-" (String c rest) ∧ is_digit c = false.
Proof.
  destruct (classify_spec arg)
    as [-> | -> | v -> | -> | -> | v -> | -> | -> | v ->
       | H1 H2 H3 H4 H5 H6];
    try (intros _; eexists _, _; split; [reflexivity|reflexivity]).
  done.
Qed.

Lemma classify_no_dash th : startswith th "-" = false → classify th = KOther.
Proof.
  intros Hth. destruct (classify th) eqn:Hk; try done.
  all: destruct (classify_flag_shape th) as (c & rest & -> & _);
    [by rewrite Hk|done].
Qed.

Lemma classify_py_str n : classify (py_str n) = KOther.
Proof.
  destruct (classify (py_str n)) eqn:Hk; try done.
  all: destruct (classify_flag_shape (py_str n)) as (c & rest & Heq & Hc);
    [by rewrite Hk|].
  all: destruct (py_str_shape n) as (ds & Hds & Hne & Hshape & _);
    rewrite Hshape in Heq; destruct (n <? 0); simpl in Heq;
    [injection Heq as ->; simpl in Hds; by rewrite Hc in Hds
    |by subst ds].
Qed.

Lemma retargeted_host th tp : retargeted th tp (HostOcc th).
Proof. by left. Qed.
Lemma retargeted_port th tp : retargeted th tp (PortOcc (py_str tp)).
Proof. by right. Qed.

Lemma occurrences_appended th tp hh hp :
  Forall (retargeted th tp) (occurrences (appended th tp hh hp)).
Proof.
  pose proof (retargeted_host th tp). pose proof (retargeted_port th tp).
  destruct hh, hp; repeat constructor; done.
Qed.

Lemma occurrences_after_dangling_dbname th tp hh hp arg :
  classify arg = KDbFlag → classify th = KOther →
  Forall (retargeted th tp) (occurrences (arg :: appended th tp hh hp)).
Proof.
  intros Harg Hth. pose proof (retargeted_port th tp).
  pose proof (classify_py_str tp) as Hp.
  unfold occurrences; destruct hh, hp; cbn [appended app scan];
    rewrite Harg, ?Hth, ?Hp; repeat constructor; done.
Qed.

(** The occurrences of the rewritten sequence: those of the input, each
    turned into the replacement, then possibly more of the same kind. *)
Lemma occurrences_rewritten th tp hh hp :
  ws_free th = true → classify th = KOther →
  ∀ args, first_invalid (port_values (occurrences args)) = None →
  ∃ extra,
    occurrences (rewritten th tp args ++ appended th tp hh hp)
    = map (retarget th tp) (occurrences args) ++ extra ∧
    Forall (retargeted th tp) extra.
Proof.
  intros Hws Hth.
  induction args as [|arg rest IH IH'] using list_pair_ind; intros Hvalid.
  { eexists; split; [reflexivity|apply occurrences_appended]. }
  unfold occurrences in Hvalid |- *. cbn [rewritten scan] in Hvalid |- *.
  destruct (classify arg) as [|v| |v| |v|] eqn:Hk.
  - destruct rest as [|v rest']; cbn [app scan].
    + change (classify "-h") with KHostFlag. cbv iota.
      eexists; split; [reflexivity|].
      constructor; [by left|apply occurrences_appended].
    + change (classify "-h") with KHostFlag. cbv iota.
      destruct (IH' _ _ eq_refl Hvalid) as (extra & Heq & Hextra).
      exists extra. split; [|done]. unfold occurrences in Heq. by rewrite Heq.
  - cbn [app scan]. rewrite classify_host_eq.
    destruct (IH Hvalid) as (extra & Heq & Hextra).
    exists extra. split; [|done]. unfold occurrences in Heq. by rewrite Heq.
  - destruct rest as [|v rest']; cbn [app scan].
    + change (classify "-p") with KPortFlag. cbv iota.
      eexists; split; [reflexivity|].
      constructor; [by right|apply occurrences_appended].
    + change (classify "-p") with KPortFlag. cbv iota.
      apply (first_invalid_app [PortOcc v]) in Hvalid as [_ Hvalid].
      destruct (IH' _ _ eq_refl Hvalid) as (extra & Heq & Hextra).
      exists extra. split; [|done]. unfold occurrences in Heq. by rewrite Heq.
  - cbn [app scan]. rewrite classify_port_eq.
    apply (first_invalid_app [PortOcc v]) in Hvalid as [_ Hvalid].
    destruct (IH Hvalid) as (extra & Heq & Hextra).
    exists extra. split; [|done]. unfold occurrences in Heq. by rewrite Heq.
  - destruct rest as [|dbname rest']; cbn [app scan].
    + eexists; split; [reflexivity|].
      by apply (occurrences_after_dangling_dbname th tp hh hp arg).
    + change (classify "-d") with KDbFlag. cbv iota.
      apply first_invalid_app in Hvalid as [Hdb Hvalid].
      destruct (IH' _ _ eq_refl Hvalid) as (extra & Heq & Hextra).
      exists extra. split; [|done]. unfold occurrences in Heq.
      by rewrite Heq, gated_fields_rewrite, map_app, app_assoc.
  - cbn [app scan].
    apply first_invalid_app in Hvalid as [Hdb Hvalid].
    destruct (IH Hvalid) as (extra & Heq & Hextra).
    exists extra. split; [|done]. unfold occurrences in Heq.
    assert (classify (if contains "host=" v
                      then "--dbname=" +:+ rewrite_dbname th tp v else arg)
            = KDbEq (if contains "host=" v then rewrite_dbname th tp v else v))
      as ->.
    { destruct (contains "host=" v); [apply classify_dbname_eq|done]. }
    by rewrite Heq, gated_fields_rewrite, map_app, app_assoc.
  - cbn [app scan]. rewrite Hk.
    destruct (IH Hvalid) as (extra & Heq & Hextra).
    exists extra. split; [|done]. unfold occurrences in Heq. by rewrite Heq.
Qed.

Lemma run_occs_retargeted th tp occs :
  Forall (retargeted th tp) occs →
  ∀ st, ∃ st',
    run_occs occs st = Ok st' ∧
    host st' = (if existsb is_host_occ occs then th else host st) ∧
    port st' = (if existsb is_port_occ occs then tp else port st).
Proof.
  induction 1 as [|o occs [->| ->] _ IH]; intros st; simpl.
  - by exists st.
  - destruct (IH (set_host th st)) as (st' & -> & Hh & Hp).
    exists st'. simpl in *. rewrite Hh, Hp. split; [done|].
    split; [by destruct (existsb is_host_occ occs)
           |by destruct (existsb is_port_occ occs)].
  - rewrite py_int_str. simpl.
    destruct (IH (set_port tp st)) as (st' & -> & Hh & Hp).
    exists st'. simpl in *. rewrite Hh, Hp. split; [done|].
    split; [by destruct (existsb is_host_occ occs)
           |by destruct (existsb is_port_occ occs)].
Qed.

Lemma existsb_retarget th tp occs :
  existsb is_host_occ (map (retarget th tp) occs) = existsb is_host_occ occs ∧
  existsb is_port_occ (map (retarget th tp) occs) = existsb is_port_occ occs.
Proof.
  induction occs as [|[v|v] occs [IHh IHp]]; simpl; by rewrite ?IHh, ?IHp.
Qed.

Lemma no_occurrence_no_last occs :
  (existsb is_host_occ occs = false → last_host occs = None) ∧
  (existsb is_port_occ occs = false → last_port occs = None).
Proof.
  unfold last_host, last_port.
  induction occs as [|[v|v] occs [IHh IHp]]; simpl; split; done.
Qed.

(** C7 (amended).  For every token sequence that parses without error and
    whose effective host contains no space character and does not begin
    with a dash, rewriting it with its own effective host and port gives a
    token sequence that parses without error to the same host and port. *)
Theorem rewrite_with_effective_endpoint_reparses env args r :
  parse_connection_args env args = Ok r →
  ws_free (host r) = true →
  startswith (host r) "-" = false →
  ∃ out r',
    build_tunneled_args (remaining_args r) (host r) (port r) (host r) (port r)
      (has_host r) (has_port r) = Ok out ∧
    parse_connection_args env out = Ok r' ∧
    host r' = host r ∧ port r' = port r.
Proof.
  intros Hparse Hws Hdash.
  destruct (parse_connection_args_inv _ _ _ Hparse)
    as (Hvalid & Hh & Hhh & Hp & Hhp).
  rewrite (parse_connection_args_remaining _ _ _ Hparse).
  rewrite build_tunneled_args_rewritten.
  exists (rewritten (host r) (port r) args
          ++ appended (host r) (port r) (has_host r) (has_port r)).
  cut (∃ r', parse_connection_args env
               (rewritten (host r) (port r) args
                ++ appended (host r) (port r) (has_host r) (has_port r)) = Ok r'
             ∧ host r' = host r ∧ port r' = port r).
  { intros (r' & ? & ? & ?). by exists r'. }
  rewrite first_invalid_converted in Hvalid.
  unfold parse_connection_args.
  destruct (default_port env) as [p0|] eqn:Hp0; simpl.
  2:{ unfold default_port in Hp0. destruct (PGPORT env); congruence. }
  rewrite parse_loop_run.
  destruct (occurrences_rewritten (host r) (port r) (has_host r) (has_port r)
              Hws (classify_no_dash _ Hdash) args Hvalid)
    as (extra & -> & Hextra).
  destruct (run_occs_retargeted (host r) (port r)
              (map (retarget (host r) (port r)) (occurrences args) ++ extra)
              ltac:(apply Forall_app; split; [|done];
                    apply Forall_map, Forall_forall; intros [v|v] _;
                    [by left|by right])
              (Conn (default_host env) p0 [] false false))
    as (st' & -> & Hh' & Hp').
  simpl in *. destruct st' as [h' p' rem' hh' hp']. simpl in *.
  rewrite !existsb_app in Hh', Hp'.
  destruct (existsb_retarget (host r) (port r) (occurrences args)) as [Eh Ep].
  rewrite Eh in Hh'. rewrite Ep in Hp'. rewrite <- Hhh in Hh'. rewrite <- Hhp in Hp'.
  destruct (no_occurrence_no_last (occurrences args)) as [Nh Np].
  eexists; split; [reflexivity|]. unfold keep; simpl.
  assert (h' = host r) as ->.
  { destruct (has_host r); [done|]. rewrite Nh in Hh by done. simpl in Hh.
    rewrite Hh' , Hh. by destruct (existsb is_host_occ extra). }
  assert (p' = port r) as ->.
  { destruct (has_port r); [done|]. rewrite Np in Hp by done.
    rewrite Hp'. injection Hp as ->. by destruct (existsb is_port_occ extra). }
  done.
Qed.

Lemma rewrite_with_effective_endpoint_reparses_witness :
  ∃ out r',
    build_tunneled_args ["--port"; "5433"; "-d"; "user=me host=db"; "-g"]
      "db" 5433 "db" 5433 true true = Ok out ∧
    parse_connection_args (Environ None None) out = Ok r' ∧
    host r' = "db" ∧ port r' = 5433.
Proof.
  exact (rewrite_with_effective_endpoint_reparses (Environ None None)
           ["--port"; "5433"; "-d"; "user=me host=db"; "-g"]
           (Conn "db" 5433 ["--port"; "5433"; "-d"; "user=me host=db"; "-g"]
              true true)
           eq_refl eq_refl eq_refl).
Defined.

(** C7 as stated fails for a host that contains a space character: the
    rewritten connection string gains a [port=] field, which changes the
    re-parsed port or is rejected; and for a host that looks like a flag
    after a dbname flag without value. *)
Lemma rewrite_with_odd_host_does_not_reparse :
  (parse_connection_args (Environ None None)
     ["-p"; "5"; "-d"; "host=x"; "-h"; "a port=7"]
   = Ok (Conn "a port=7" 5 ["-p"; "5"; "-d"; "host=x"; "-h"; "a port=7"]
           true true) ∧
   build_tunneled_args ["-p"; "5"; "-d"; "host=x"; "-h"; "a port=7"]
     "a port=7" 5 "a port=7" 5 true true
   = Ok ["-p"; "5"; "-d"; "host=a port=7"; "-h"; "a port=7"] ∧
   parse_connection_args (Environ None None)
     ["-p"; "5"; "-d"; "host=a port=7"; "-h"; "a port=7"]
   = Ok (Conn "a port=7" 7 ["-p"; "5"; "-d"; "host=a port=7"; "-h"; "a port=7"]
           true true)) ∧
  (parse_connection_args (Environ None None) ["-d"; "host=x"; "-h"; "a port=z"]
   = Ok (Conn "a port=z" 5432 ["-d"; "host=x"; "-h"; "a port=z"] true false) ∧
   build_tunneled_args ["-d"; "host=x"; "-h"; "a port=z"]
     "a port=z" 5432 "a port=z" 5432 true false
   = Ok ["-d"; "host=a port=z"; "-h"; "a port=z"; "-p"; "5432"] ∧
   parse_connection_args (Environ None None)
     ["-d"; "host=a port=z"; "-h"; "a port=z"; "-p"; "5432"]
   = Raise (ValueError "z")) ∧
  (parse_connection_args (Environ (Some "-h") None) ["-d"]
   = Ok (Conn "-h" 5432 ["-d"] false false) ∧
   build_tunneled_args ["-d"] "-h" 5432 "-h" 5432 false false
   = Ok ["-d"; "-h"; "-h"; "-p"; "5432"] ∧
   parse_connection_args (Environ (Some "-h") None)
     ["-d"; "-h"; "-h"; "-p"; "5432"]
   = Ok (Conn "-p" 5432 ["-d"; "-h"; "-h"; "-p"; "5432"] true false)).
Proof. vm_compute. repeat split. Qed.

(** ** The pattern matcher decides the language of the pattern *)






(** ** Tunnel resolution *)

Lemma first_match_total fm config s :
  first_match (fun p x => Ok (fm p x)) config s = Ok (first_matching fm config s).
Proof.
  unfold first_matching. induction config as [|[pattern url] config IH]; [done|].
  simpl. destruct (fm pattern s); [done|apply IH].
Qed.

(** C3 (amended).  Resolution is a fixed priority: the override when it is
    a non-empty string, whatever the rules and the matcher; otherwise, with
    a pattern matcher that does not raise: when a non-empty alias was
    supplied, the URL of the first alias rule in declaration order that
    matches it in full; otherwise (no alias, or no alias rule matched), when
    the host is a non-empty string, the URL of the first host rule in
    declaration order that matches it in full; otherwise no tunnel URL.
    Scenario D is the last conjunct. *)
Theorem find_tunnel_url_priority :
  (∀ fullmatch self host dsn_alias,
     truthy (ssh_tunnel_url self) = true →
     find_tunnel_url fullmatch self host dsn_alias = Ok (ssh_tunnel_url self)) ∧
  (∀ fm self host dsn_alias,
     find_tunnel_url (fun p s => Ok (fm p s)) self host dsn_alias
     = Ok (resolve fm self host dsn_alias)) ∧
  (∀ python_re,
     find_tunnel_url (re_fullmatch python_re)
       (Manager None [("db\.internal", "host-bastion")]
          [("prod-.*", "alias-bastion")] None true)
       (Some "db.internal") (Some "prod-main")
     = Ok (Some "alias-bastion")).
Proof.
  split; [|split; [|intros python_re; vm_compute; reflexivity]].
  { intros fullmatch self host dsn_alias Hurl. unfold find_tunnel_url.
    by rewrite Hurl. }
  intros fm self host dsn_alias. unfold find_tunnel_url, resolve.
  destruct (truthy (ssh_tunnel_url self)); [done|].
  rewrite !first_match_total.
  destruct (truthy dsn_alias); simpl.
  - destruct (dsn_ssh_tunnel_config self) as [|rule cfg] eqn:Hcfg; simpl.
    + unfold first_matching at 2. simpl.
      destruct (truthy host); simpl; [|done].
      by destruct (ssh_tunnel_config self).
    + destruct (first_matching fm (rule :: cfg) (default "" dsn_alias)); [done|].
      destruct (truthy host); simpl; [|done].
      by destruct (ssh_tunnel_config self).
  - destruct (truthy host); simpl; [|done].
    by destruct (ssh_tunnel_config self).
Qed.

Lemma find_tunnel_url_priority_witness :
  find_tunnel_url sample_re
    (Manager (Some "user@bastion") [(".*", "other")] [(".*", "another")] None true)
    (Some "db") (Some "prod")
  = Ok (Some "user@bastion").
Proof.
  destruct find_tunnel_url_priority as [Hoverride _].
  exact (Hoverride sample_re
           (Manager (Some "user@bastion") [(".*", "other")] [(".*", "another")]
              None true)
           (Some "db") (Some "prod") eq_refl).
Defined.

(** C3 as stated fails: with an empty host the host rules are not read,
    though a rule matches the empty string in full. *)
Lemma find_tunnel_url_skips_empty_host :
  find_tunnel_url sample_re (Manager None [(".*", "bastion")] [] None true)
    (Some "") None = Ok None ∧
  sample_re ".*" "" = Ok true ∧
  spec_resolve fullmatch_bool (Manager None [(".*", "bastion")] [] None true)
    "" None = Some "bastion".
Proof. vm_compute. repeat split. Qed.






(** ** The tunnel lifecycle *)

Lemma insert_last {A} (l : list A) (x y : A) :
  <[length l := y]> (l ++ [x]) = l ++ [y].
Proof.
  rewrite <- (Nat.add_0_r (length l)) at 1. by rewrite insert_app_r.
Qed.

Lemma lookup_last {A} (l : list A) (x : A) : (l ++ [x]) !! length l = Some x.
Proof. by apply list_lookup_middle. Qed.

(** C9.  [stop_tunnel] does nothing when no tunnel was started and nothing
    when called again after a stop; on an active tunnel it calls the
    forwarder's [stop()] once, which leaves it inactive, and forgets it;
    so stopping twice is stopping once. *)
Theorem stop_tunnel_idempotent :
  (∀ self w, tunnel self = None → stop_tunnel self w = (self, w)) ∧
  (∀ self w,
     stop_tunnel (stop_tunnel self w).1 (stop_tunnel self w).2
     = stop_tunnel self w) ∧
  (∀ self w ref f,
     tunnel self = Some ref → objects w !! ref = Some f → is_active f = true →
     ∃ w',
       stop_tunnel self w = (set_tunnel None self, w') ∧
       objects w' !! ref
       = Some (Forwarder false (local_bind_port f) (S (stop_calls f))) ∧
       (∀ other, other ≠ ref → objects w' !! other = objects w !! other) ∧
       trace w' = trace w ++ [EvForwarderStop ref]).
Proof.
  split; [|split].
  - intros self w Hnone. unfold stop_tunnel. by rewrite Hnone.
  - intros self w. unfold stop_tunnel.
    destruct (tunnel self) as [ref|] eqn:Ht; simpl; [|by rewrite Ht].
    destruct (objects w !! ref) as [f|] eqn:Hf; simpl; [|by rewrite Ht, Hf].
    destruct (is_active f) eqn:Ha; simpl; [done|by rewrite Ht, Hf, Ha].
  - intros self w ref f Ht Hf Ha. unfold stop_tunnel. rewrite Ht, Hf, Ha.
    eexists; split; [reflexivity|]. simpl. split; [|split; [|done]].
    + apply list_lookup_insert_eq. by apply lookup_lt_Some in Hf.
    + intros other Hne. by apply list_lookup_insert_ne.
Qed.

Lemma stop_tunnel_idempotent_witness :
  ∃ w',
    stop_tunnel (Manager None [] [] (Some 0%nat) true)
      (World [Forwarder true 55123 0] [EvForwarderStart 0])
    = (Manager None [] [] None true, w') ∧
    objects w' !! 0%nat = Some (Forwarder false 55123 1) ∧
    (∀ other, other ≠ 0%nat →
              objects w' !! other = [Forwarder true 55123 0] !! other) ∧
    trace w' = [EvForwarderStart 0; EvForwarderStop 0].
Proof.
  destruct stop_tunnel_idempotent as (_ & _ & Hactive).
  exact (Hactive (Manager None [] [] (Some 0%nat) true)
           (World [Forwarder true 55123 0] [EvForwarderStart 0])
           0%nat (Forwarder true 55123 0) eq_refl eq_refl eq_refl).
Defined.

(** ** The exit code of [cli] *)

(** C8 (amended).  Once the configuration is loaded and the arguments
    parsed, [cli] leaves as follows.  Without a tunnel URL the command runs on the
    original tokens.  With one, a missing [sshtunnel] package, an exception
    from the forwarder or a forwarder that is not active after [start()]
    end in [SystemExit 1] and the command is not run.  With a forwarder
    that is active, the command runs and the tunnel is stopped after it,
    before [cli] leaves.  Where the command runs, [cli] leaves with its
    return code; with 1 if the executable is missing; with 130 on a
    [KeyboardInterrupt] raised while the command runs. *)
Theorem cli_exit_codes ext get_config args ssh_tunnel dsn_alias w cfg r found :
  load_config get_config = Ok cfg →
  parse_connection_args (os_environ ext) args = Ok r →
  find_tunnel_url (re_engine ext) (get_tunnel_manager_from_config cfg ssh_tunnel)
    (Some (host r)) dsn_alias = Ok found →
  let self := get_tunnel_manager_from_config cfg ssh_tunnel in
  let path := find_pg_dumpall ext in
  let ref := length (objects w) in
  (truthy found = false →
   cli ext get_config args ssh_tunnel dsn_alias w
   = (exit_for (subprocess_run ext (path :: args)),
      World (objects w) (trace w ++ [EvRun (path :: args)]))) ∧
  (truthy found = true →
   SSH_TUNNEL_SUPPORT ext = false ∨
   (∃ params e,
      forwarder_params ext self (host r) (port r) (default "" found) = Ok params ∧
      is_Exception e = true ∧
      (forwarder_new ext params = Raise e ∨
       forwarder_new ext params = Ok tt ∧ forwarder_start ext params = Raise e)) ∨
   (∃ params local_port,
      forwarder_params ext self (host r) (port r) (default "" found) = Ok params ∧
      forwarder_new ext params = Ok tt ∧
      forwarder_start ext params = Ok (false, local_port)) →
   ∃ objs evs,
     cli ext get_config args ssh_tunnel dsn_alias w
     = (SystemExit 1, World objs (trace w ++ evs)) ∧
     ∀ cmd, ¬ In (EvRun cmd) evs) ∧
  (truthy found = true →
   ∀ params local_port,
     SSH_TUNNEL_SUPPORT ext = true →
     forwarder_params ext self (host r) (port r) (default "" found) = Ok params →
     forwarder_new ext params = Ok tt →
     forwarder_start ext params = Ok (true, local_port) →
     ∃ final_args,
       cli ext get_config args ssh_tunnel dsn_alias w
       = (exit_for (subprocess_run ext (path :: final_args)),
          World (objects w ++ [Forwarder false local_port 1])
            (trace w ++ [EvForwarderStart ref; EvAtexitRegister;
                         EvRun (path :: final_args); EvForwarderStop ref]))) ∧
  (∀ returncode, exit_for (Ok returncode) = SystemExit returncode) ∧
  exit_for (Raise FileNotFoundError) = SystemExit 1 ∧
  exit_for (Raise KeyboardInterrupt) = SystemExit 130.
Proof.
  intros Hcfg Hparse Hfound self path ref. subst self path ref.
  split; [|split; [|split; [|by repeat split]]].
  - intros Hno. unfold cli, start_tunnel. rewrite Hcfg, Hparse, Hfound, Hno.
    simpl. by rewrite String.eqb_refl, Z.eqb_refl.
  - intros Hyes Hfail. unfold cli, start_tunnel.
    rewrite Hcfg, Hparse, Hfound, Hyes. cbn [negb].
    assert (∃ objs evs, (SystemExit 1, w) = (SystemExit 1, World objs (trace w ++ evs))
                        ∧ ∀ cmd, ¬ In (EvRun cmd) evs) as Hsame.
    { exists (objects w), []. split; [by rewrite app_nil_r; destruct w|by intros cmd []]. }
    destruct (SSH_TUNNEL_SUPPORT ext) eqn:Hsup; cbn [negb]; [|done].
    destruct Hfail as [Hsup'|[(params & e & Hparams & He & Hraise)
                             |(params & lp & Hparams & Hnew & Hstart)]].
    + done.
    + rewrite Hparams. unfold on_exception.
      destruct Hraise as [Hnew|[Hnew Hstart]].
      * by rewrite Hnew, He.
      * rewrite Hnew, Hstart, He. cbn [objects trace]. eexists _, [EvForwarderStart _].
        split; [reflexivity|]. intros cmd [|[]]. done.
    + rewrite Hparams, Hnew, Hstart. cbn [negb objects trace].
      eexists _, [EvForwarderStart _].
      split; [reflexivity|]. intros cmd [|[]]. done.
  - intros Hyes params lp Hsup Hparams Hnew Hstart.
    unfold cli, start_tunnel.
    rewrite Hcfg, Hparse, Hfound, Hyes, Hsup. cbn [negb].
    rewrite Hparams, Hnew, Hstart. cbn [negb objects trace]. rewrite insert_last.
    rewrite build_tunneled_args_rewritten.
    exists (if negb ("127.0.0.1" =? host r)%string || negb (lp =? port r)
            then rewritten "127.0.0.1" lp (remaining_args r)
                 ++ appended "127.0.0.1" lp (has_host r) (has_port r)
            else args).
    destruct (negb ("127.0.0.1" =? host r)%string || negb (lp =? port r));
      unfold stop_tunnel; simpl; rewrite lookup_last; simpl;
      rewrite insert_last, <- !app_assoc; reflexivity.
Qed.

Lemma cli_exit_codes_witness :
  ∃ final_args,
    cli sample_externals (Ok (Config None None)) ["-h"; "db"] (Some "bastion") None
      (World [] [])
    = (exit_for (subprocess_run sample_externals
                   (find_pg_dumpall sample_externals :: final_args)),
       World ([] ++ [Forwarder false 55123 1])
         ([] ++ [EvForwarderStart 0; EvAtexitRegister;
                 EvRun (find_pg_dumpall sample_externals :: final_args);
                 EvForwarderStop 0])).
Proof.
  destruct (cli_exit_codes sample_externals (Ok (Config None None)) ["-h"; "db"]
              (Some "bastion") None (World [] []) (Config None None)
              (Conn "db" 5432 ["-h"; "db"] true false) (Some "bastion")
              eq_refl eq_refl eq_refl) as (_ & _ & Htunnel & _).
  exact (Htunnel eq_refl
           (TunnelParams "127.0.0.1" ("db", 5432) (Some "bastion", 22)
              "~/.ssh/config" true [] false None None)
           55123 eq_refl eq_refl eq_refl eq_refl).
Defined.

(** C8 as stated fails for an interruption that arrives while the tunnel
    starts: [except Exception] does not catch it and [start_tunnel] is
    called outside the [try], so [cli] leaves with [KeyboardInterrupt]
    itself, not with code 130, and [stop_tunnel] is not called. *)
Lemma interrupt_during_tunnel_start :
  cli (Externals (Environ None None) sample_re true
         (fun _ => UrlInfo (Some "bastion") (Ok None) None None)
         (fun _ => Ok tt) (fun _ => Raise KeyboardInterrupt)
         "/usr/bin/pg_dumpall" (fun _ => Ok 0))
    (Ok (Config None None)) ["-h"; "db"] (Some "bastion") None (World [] [])
  = (KeyboardInterrupt, World [Forwarder false 0 0] [EvForwarderStart 0]).
Proof. vm_compute. reflexivity. Qed.

(** * Further properties of the code *)

(** ** The parser and the rewriter on the tokens they do not read *)

Lemma run_occs_remaining occs :
  ∀ st st', run_occs occs st = Ok st' → remaining_args st' = remaining_args st.
Proof.
  induction occs as [|[v|v] occs IH]; intros st st'; simpl.
  - by intros [= ->].
  - intros H. by rewrite (IH _ _ H).
  - destruct (py_int v) as [n|]; simpl; [|done].
    intros H. by rewrite (IH _ _ H).
Qed.

(** X1.  The list [parse_connection_args] returns as [remaining_args] is the
    whole token sequence it was given, connection arguments included, in the
    same order; and the loop, started with some tokens already kept, returns
    them followed by the tokens it read. *)
Theorem parse_keeps_every_token :
  (∀ args st r, parse_loop args st = Ok r →
                remaining_args r = remaining_args st ++ args) ∧
  (∀ env args r, parse_connection_args env args = Ok r →
                 remaining_args r = args).
Proof.
  assert (∀ args st r, parse_loop args st = Ok r →
                       remaining_args r = remaining_args st ++ args) as Hloop.
  { intros args st r. rewrite parse_loop_run.
    destruct (run_occs (occurrences args) st) as [st'|] eqn:Hrun; simpl; [|done].
    intros [= <-]. simpl. by rewrite (run_occs_remaining _ _ _ Hrun). }
  split; [done|].
  intros env args r. unfold parse_connection_args.
  destruct (default_port env) as [p|]; simpl; [|done].
  intros H. by rewrite (Hloop _ _ _ H).
Qed.

Lemma parse_keeps_every_token_witness :
  remaining_args
    (Conn "db" 5433 ["-U"; "me"; "-h"; "db"; "--port=5433"; "-g"] true true)
  = ["-U"; "me"; "-h"; "db"; "--port=5433"; "-g"].
Proof.
  apply (proj2 parse_keeps_every_token (Environ None None)
           ["-U"; "me"; "-h"; "db"; "--port=5433"; "-g"]).
  reflexivity.
Defined.

Lemma rewritten_length th tp args :
  (length args ≤ length (rewritten th tp args) ≤ length args + 1)%nat.
Proof.
  induction args as [|arg rest IH IH'] using list_pair_ind; [simpl; lia|].
  cbn [rewritten].
  destruct (classify arg); try (cbn [length]; lia);
    destruct rest as [|v rest']; cbn [length] in *;
    try lia; specialize (IH' _ _ eq_refl); lia.
Qed.

(** X2.  [build_tunneled_args] never raises, whatever the tokens, and never
    returns fewer tokens than it was given: the result has between [n] and
    [n + 5] tokens for [n] tokens given (one more for a host or port flag
    that ends the sequence without a value, two for each appended pair). *)
Theorem build_tunneled_args_total th tp oh op hh hp args :
  ∃ out, build_tunneled_args args th tp oh op hh hp = Ok out ∧
         (length args ≤ length out ≤ length args + 5)%nat.
Proof.
  rewrite build_tunneled_args_rewritten. eexists; split; [reflexivity|].
  rewrite length_app. pose proof (rewritten_length th tp args).
  assert (length (appended th tp hh hp) ≤ 4)%nat
    by (by destruct hh, hp; simpl; lia).
  lia.
Qed.

Lemma passthrough_appended th tp hh hp :
  passthrough_tokens (appended th tp hh hp) = [].
Proof. by destruct hh, hp. Qed.

Lemma passthrough_rewritten th tp :
  ∀ args suffix,
    suffix = [] ∨ dangling_dbname args = false →
    passthrough_tokens (rewritten th tp args ++ suffix)
    = passthrough_tokens args ++ passthrough_tokens suffix.
Proof.
  induction args as [|arg rest IH IH'] using list_pair_ind; intros suffix Hs.
  { done. }
  cbn [rewritten passthrough_tokens dangling_dbname] in Hs |- *.
  destruct (classify arg) as [|v| |v| |v|] eqn:Hk.
  - destruct rest as [|v rest']; cbn [app passthrough_tokens];
      change (classify "-h") with KHostFlag; cbv iota; [done|].
    by apply (IH' _ _ eq_refl).
  - cbn [app passthrough_tokens]. rewrite classify_host_eq. by apply IH.
  - destruct rest as [|v rest']; cbn [app passthrough_tokens];
      change (classify "-p") with KPortFlag; cbv iota; [done|].
    by apply (IH' _ _ eq_refl).
  - cbn [app passthrough_tokens]. rewrite classify_port_eq. by apply IH.
  - destruct rest as [|dbname rest']; cbn [app passthrough_tokens].
    + destruct Hs as [-> | Hs]; [|done]. by rewrite Hk.
    + change (classify "-d") with KDbFlag. cbv iota. by apply (IH' _ _ eq_refl).
  - cbn [app passthrough_tokens].
    assert (classify (if contains "host=" v
                      then "--dbname=" +:+ rewrite_dbname th tp v else arg)
            = KDbEq (if contains "host=" v then rewrite_dbname th tp v else v))
      as ->.
    { destruct (contains "host=" v); [apply classify_dbname_eq|done]. }
    by apply IH.
  - cbn [app passthrough_tokens]. rewrite Hk. f_equal. apply IH.
    destruct Hs as [Hs|Hs]; [by left|right]. by destruct rest.
Qed.

(** X3.  The tokens the loops take for no connection argument come out of
    [build_tunneled_args] unchanged and in their order, and no other token of
    the result is taken for one, as long as the sequence does not end with a
    dbname flag without value or nothing has to be appended. *)
Theorem build_tunneled_args_keeps_passthrough th tp oh op hh hp args :
  hh && hp || negb (dangling_dbname args) = true →
  ∃ out, build_tunneled_args args th tp oh op hh hp = Ok out ∧
         passthrough_tokens out = passthrough_tokens args.
Proof.
  intros Hcond. rewrite build_tunneled_args_rewritten.
  eexists; split; [reflexivity|].
  rewrite passthrough_rewritten, passthrough_appended, app_nil_r; [done|].
  destruct hh, hp; simpl in *; try (by left);
    right; by destruct (dangling_dbname args).
Qed.

Lemma build_tunneled_args_keeps_passthrough_witness :
  ∃ out,
    build_tunneled_args ["-U"; "me"; "--host=db"; "-g"; "-d"; "host=db x=1"; "-c"]
      "127.0.0.1" 55123 "db" 5432 true false = Ok out ∧
    passthrough_tokens out
    = passthrough_tokens ["-U"; "me"; "--host=db"; "-g"; "-d"; "host=db x=1"; "-c"].
Proof.
  apply (build_tunneled_args_keeps_passthrough "127.0.0.1" 55123 "db" 5432
           true false ["-U"; "me"; "--host=db"; "-g"; "-d"; "host=db x=1"; "-c"]).
  reflexivity.
Defined.

(** ** The rewritten command line points at the tunnel *)

Lemma occurrences_appended_eq th tp hh hp :
  occurrences (appended th tp hh hp)
  = (if hh then [] else [HostOcc th]) ++
    (if hp then [] else [PortOcc (py_str tp)]).
Proof. by destruct hh, hp. Qed.

(** Without a dbname flag left without value at the end, the loop's result
    is read to its end before anything that follows it. *)
Lemma occurrences_rewritten_aligned th tp :
  ws_free th = true →
  ∀ args suffix,
    dangling_dbname args = false →
    first_invalid (port_values (occurrences args)) = None →
    ∃ extra,
      occurrences (rewritten th tp args ++ suffix)
      = map (retarget th tp) (occurrences args) ++ extra ++ occurrences suffix ∧
      Forall (retargeted th tp) extra.
Proof.
  intros Hws.
  induction args as [|arg rest IH IH'] using list_pair_ind;
    intros suffix Hd Hvalid.
  { by exists []. }
  unfold occurrences in Hvalid |- *.
  cbn [rewritten scan dangling_dbname] in Hvalid, Hd |- *.
  destruct (classify arg) as [|v| |v| |v|] eqn:Hk.
  - destruct rest as [|v rest']; cbn [app scan].
    + change (classify "-h") with KHostFlag. cbv iota.
      exists [HostOcc th]. split; [done|]. constructor; [by left|done].
    + change (classify "-h") with KHostFlag. cbv iota.
      destruct (IH' _ _ eq_refl suffix Hd Hvalid) as (extra & Heq & Hextra).
      exists extra. split; [|done]. unfold occurrences in Heq. by rewrite Heq.
  - cbn [app scan]. rewrite classify_host_eq.
    destruct (IH suffix ltac:(by destruct rest) Hvalid) as (extra & Heq & Hextra).
    exists extra. split; [|done]. unfold occurrences in Heq. by rewrite Heq.
  - destruct rest as [|v rest']; cbn [app scan].
    + change (classify "-p") with KPortFlag. cbv iota.
      exists [PortOcc (py_str tp)]. split; [done|]. constructor; [by right|done].
    + change (classify "-p") with KPortFlag. cbv iota.
      apply (first_invalid_app [PortOcc v]) in Hvalid as [_ Hvalid].
      destruct (IH' _ _ eq_refl suffix Hd Hvalid) as (extra & Heq & Hextra).
      exists extra. split; [|done]. unfold occurrences in Heq. by rewrite Heq.
  - cbn [app scan]. rewrite classify_port_eq.
    apply (first_invalid_app [PortOcc v]) in Hvalid as [_ Hvalid].
    destruct (IH suffix ltac:(by destruct rest) Hvalid) as (extra & Heq & Hextra).
    exists extra. split; [|done]. unfold occurrences in Heq. by rewrite Heq.
  - destruct rest as [|dbname rest']; [done|]. cbn [app scan].
    change (classify "-d") with KDbFlag. cbv iota.
    apply first_invalid_app in Hvalid as [Hdb Hvalid].
    destruct (IH' _ _ eq_refl suffix Hd Hvalid) as (extra & Heq & Hextra).
    exists extra. split; [|done]. unfold occurrences in Heq.
    by rewrite Heq, gated_fields_rewrite, map_app, <- !app_assoc.
  - cbn [app scan].
    apply first_invalid_app in Hvalid as [Hdb Hvalid].
    destruct (IH suffix ltac:(by destruct rest) Hvalid) as (extra & Heq & Hextra).
    exists extra. split; [|done]. unfold occurrences in Heq.
    assert (classify (if contains "host=" v
                      then "--dbname=" +:+ rewrite_dbname th tp v else arg)
            = KDbEq (if contains "host=" v then rewrite_dbname th tp v else v))
      as ->.
    { destruct (contains "host=" v); [apply classify_dbname_eq|done]. }
    by rewrite Heq, gated_fields_rewrite, map_app, <- !app_assoc.
  - cbn [app scan]. rewrite Hk.
    destruct (IH suffix ltac:(by destruct rest) Hvalid) as (extra & Heq & Hextra).
    exists extra. split; [|done]. unfold occurrences in Heq. by rewrite Heq.
Qed.

Lemma run_occs_retargeted_flags th tp occs :
  Forall (retargeted th tp) occs →
  ∀ st, ∃ st',
    run_occs occs st = Ok st' ∧
    host st' = (if existsb is_host_occ occs then th else host st) ∧
    port st' = (if existsb is_port_occ occs then tp else port st) ∧
    has_host st' = has_host st || existsb is_host_occ occs ∧
    has_port st' = has_port st || existsb is_port_occ occs.
Proof.
  induction 1 as [|o occs [->| ->] _ IH]; intros st; simpl.
  - exists st. by rewrite !orb_false_r.
  - destruct (IH (set_host th st)) as (st' & -> & Hh & Hp & Hhh & Hhp).
    exists st'. simpl in *. rewrite Hh, Hp, Hhh, Hhp, orb_true_r.
    repeat split; try done;
      first [by destruct (existsb is_host_occ occs)
            |by destruct (existsb is_port_occ occs)].
  - rewrite py_int_str. simpl.
    destruct (IH (set_port tp st)) as (st' & -> & Hh & Hp & Hhh & Hhp).
    exists st'. simpl in *. rewrite Hh, Hp, Hhh, Hhp, orb_true_r.
    repeat split; try done;
      first [by destruct (existsb is_host_occ occs)
            |by destruct (existsb is_port_occ occs)].
Qed.

(** The loop's result followed by the appended pairs is accepted by the
    parser and read as the replacement host and port. *)
Lemma reparse_rewritten env args r th tp :
  parse_connection_args env args = Ok r →
  ws_free th = true →
  dangling_dbname args = false →
  ∃ r',
    parse_connection_args env
      (rewritten th tp args ++ appended th tp (has_host r) (has_port r)) = Ok r' ∧
    host r' = th ∧ port r' = tp ∧ has_host r' = true ∧ has_port r' = true.
Proof.
  intros Hparse Hws Hd.
  destruct (parse_connection_args_inv _ _ _ Hparse)
    as (Hvalid & _ & Hhh & _ & Hhp).
  rewrite first_invalid_converted in Hvalid.
  unfold parse_connection_args.
  destruct (default_port env) as [p0|] eqn:Hp0; simpl.
  2:{ unfold default_port in Hp0. destruct (PGPORT env); congruence. }
  rewrite parse_loop_run.
  destruct (occurrences_rewritten_aligned th tp Hws args
              (appended th tp (has_host r) (has_port r)) Hd Hvalid)
    as (extra & -> & Hextra).
  rewrite occurrences_appended_eq.
  set (occs := map (retarget th tp) (occurrences args) ++ extra ++ _).
  assert (Forall (retargeted th tp) occs) as Hall.
  { subst occs. rewrite !Forall_app. split_and!; [|done| |].
    - apply Forall_map, Forall_forall. intros [v|v] _; [by left|by right].
    - destruct (has_host r); [done|]. constructor; [by left|done].
    - destruct (has_port r); [done|]. constructor; [by right|done]. }
  destruct (existsb_retarget th tp (occurrences args)) as [Eh Ep].
  assert (existsb is_host_occ occs = true) as Hhost.
  { subst occs. rewrite !existsb_app, Eh, <- Hhh.
    destruct (has_host r); [done|]. by rewrite !orb_true_r. }
  assert (existsb is_port_occ occs = true) as Hport.
  { subst occs. rewrite !existsb_app, Ep, <- Hhp.
    destruct (has_port r); [done|]. by rewrite !orb_true_r. }
  destruct (run_occs_retargeted_flags th tp occs Hall
              (Conn (default_host env) p0 [] false false))
    as (st' & -> & Hh' & Hp' & Hhh' & Hhp').
  rewrite Hhost in Hh', Hhh'. rewrite Hport in Hp', Hhp'.
  simpl. eexists; split; [reflexivity|]. by unfold keep.
Qed.

(** X4.  What the rewriting is for: given the tokens and flags of an
    accepted command line and a tunnel host without space character (it is
    ["127.0.0.1"] in [start_tunnel]), the tokens [build_tunneled_args] returns
    are accepted by the parser again and read as the tunnel host and port,
    both flags set, provided the tokens do not end with a dbname flag without
    value. *)
Theorem rewritten_args_point_at_tunnel env args r th tp :
  parse_connection_args env args = Ok r →
  ws_free th = true →
  dangling_dbname args = false →
  ∃ out r',
    build_tunneled_args (remaining_args r) th tp (host r) (port r)
      (has_host r) (has_port r) = Ok out ∧
    parse_connection_args env out = Ok r' ∧
    host r' = th ∧ port r' = tp ∧ has_host r' = true ∧ has_port r' = true.
Proof.
  intros Hparse Hws Hd.
  rewrite (parse_connection_args_remaining _ _ _ Hparse).
  rewrite build_tunneled_args_rewritten.
  destruct (reparse_rewritten env args r th tp Hparse Hws Hd) as (r' & Hr').
  exists (rewritten th tp args ++ appended th tp (has_host r) (has_port r)), r'.
  by split.
Qed.

Lemma rewritten_args_point_at_tunnel_witness :
  ∃ out r',
    build_tunneled_args
      (remaining_args (Conn "db" 5432 ["--host"; "db"; "-g"; "-h"] true false))
      "127.0.0.1" 55123 "db" 5432 true false = Ok out ∧
    parse_connection_args (Environ None None) out = Ok r' ∧
    host r' = "127.0.0.1" ∧ port r' = 55123 ∧
    has_host r' = true ∧ has_port r' = true.
Proof.
  apply (rewritten_args_point_at_tunnel (Environ None None)
           ["--host"; "db"; "-g"; "-h"]
           (Conn "db" 5432 ["--host"; "db"; "-g"; "-h"] true false)
           "127.0.0.1" 55123); reflexivity.
Defined.

(** ** Resolving the tunnel URL: rules that are skipped, rules that raise *)

Lemma first_match_skip fullmatch pre rest s :
  (∀ p u, In (p, u) pre → fullmatch p s = Ok false) →
  first_match fullmatch (pre ++ rest) s = first_match fullmatch rest s.
Proof.
  induction pre as [|[p u] pre IH]; intros Hpre; [done|].
  simpl. rewrite (Hpre p u) by (by left). simpl.
  apply IH. intros p' u' Hin. apply (Hpre p' u'). by right.
Qed.

Lemma find_tunnel_url_host_rules fullmatch self host dsn_alias :
  truthy (ssh_tunnel_url self) = false → truthy dsn_alias = false →
  find_tunnel_url fullmatch self (Some host) dsn_alias
  = if negb (String.eqb host "") && nonempty (ssh_tunnel_config self)
    then first_match fullmatch (ssh_tunnel_config self) host
    else Ok None.
Proof. intros Hu Ha. unfold find_tunnel_url. by rewrite Hu, Ha. Qed.

Lemma find_tunnel_url_no_rules fullmatch url agent host dsn_alias :
  truthy url = false →
  find_tunnel_url fullmatch (Manager url [] [] None agent) host dsn_alias
  = Ok None.
Proof.
  intros Hu. unfold find_tunnel_url. simpl. rewrite Hu, !andb_false_r. done.
Qed.

(** X5.  A host rule whose pattern makes [re.fullmatch] raise stops the
    resolution when the rules before it do not match: [find_tunnel_url] and
    [start_tunnel] raise that error, whatever rules follow, nothing is
    started, and [cli] leaves with the error without running the command. *)
Theorem raising_pattern_stops_resolution
    ext self w dbhost dbport dsn_alias pre p u post e :
  truthy (ssh_tunnel_url self) = false →
  truthy dsn_alias = false →
  dbhost ≠ "" →
  ssh_tunnel_config self = pre ++ (p, u) :: post →
  (∀ p' u', In (p', u') pre → re_engine ext p' dbhost = Ok false) →
  re_engine ext p dbhost = Raise e →
  find_tunnel_url (re_engine ext) self (Some dbhost) dsn_alias = Raise e ∧
  start_tunnel ext self w dbhost dbport dsn_alias = (Raise e, self, w) ∧
  ∀ get_config cfg args r ssh_tunnel,
    load_config get_config = Ok cfg →
    parse_connection_args (os_environ ext) args = Ok r →
    dbhost = host r →
    self = get_tunnel_manager_from_config cfg ssh_tunnel →
    cli ext get_config args ssh_tunnel dsn_alias w = (e, w).
Proof.
  intros Hu Ha Hhost Hcfg Hpre Hp.
  assert (find_tunnel_url (re_engine ext) self (Some dbhost) dsn_alias = Raise e)
    as Hfind.
  { rewrite find_tunnel_url_host_rules by done.
    rewrite Hcfg, first_match_skip by done.
    apply String.eqb_neq in Hhost. rewrite Hhost. simpl.
    destruct pre; simpl; by rewrite Hp. }
  assert (∀ port', start_tunnel ext self w dbhost port' dsn_alias
                   = (Raise e, self, w)) as Hstart.
  { intros port'. unfold start_tunnel. by rewrite Hfind. }
  split; [done|]. split; [done|].
  intros get_config cfg args r ssh_tunnel Hload Hparse -> ->.
  unfold cli. by rewrite Hload, Hparse, Hstart.
Qed.

Lemma raising_pattern_stops_resolution_witness :
  find_tunnel_url sample_re
    (Manager None [("other", "b0"); ("(", "b1"); (".*", "b2")] [] None true)
    (Some "db") None = Raise (ReError "(") ∧
  start_tunnel sample_externals
    (Manager None [("other", "b0"); ("(", "b1"); (".*", "b2")] [] None true)
    (World [] []) "db" 5432 None
  = (Raise (ReError "("),
     Manager None [("other", "b0"); ("(", "b1"); (".*", "b2")] [] None true,
     World [] []).
Proof.
  destruct (raising_pattern_stops_resolution sample_externals
              (Manager None [("other", "b0"); ("(", "b1"); (".*", "b2")] []
                 None true)
              (World [] []) "db" 5432 None [("other", "b0")] "(" "b1"
              [(".*", "b2")] (ReError "("))
    as (Hfind & Hstart & _); try reflexivity.
  - discriminate.
  - intros p' u' [[= <- <-]|[]]. reflexivity.
  - exact (conj Hfind Hstart).
Defined.

Lemma dict_get_first pre k v post :
  (∀ u, ¬ In (k, u) pre) → dict_get (pre ++ (k, v) :: post) k = Some v.
Proof.
  induction pre as [|[k' u] pre IH]; intros Hpre; simpl.
  - by rewrite String.eqb_refl.
  - destruct (String.eqb k' k) eqn:Hk.
    + apply String.eqb_eq in Hk as ->. destruct (Hpre u). by left.
    + apply IH. intros u' Hin. apply (Hpre u'). by right.
Qed.

(** X6.  [get_tunnel_manager_from_config] gives the whole [ssh tunnels]
    section to the manager as its host rules, the [allow_agent] setting
    included: the manager's flag is true exactly when the setting lowercases
    to [true], and the setting is also a rule, so that a database host named
    [allow_agent] is resolved to the setting's value when no earlier rule
    matches it. *)
Theorem allow_agent_setting_is_a_host_rule python_re cfg url pre v post :
  ssh_tunnels cfg = Some (pre ++ ("allow_agent", v) :: post) →
  (∀ p u, In (p, u) pre → re_fullmatch python_re p "allow_agent" = Ok false) →
  truthy url = false →
  allow_agent (get_tunnel_manager_from_config cfg url)
  = String.eqb (lower v) "true" ∧
  In ("allow_agent", v)
    (ssh_tunnel_config (get_tunnel_manager_from_config cfg url)) ∧
  find_tunnel_url (re_fullmatch python_re)
    (get_tunnel_manager_from_config cfg url)
    (Some "allow_agent") None = Ok (Some v).
Proof.
  intros Hcfg Hpre Hurl. unfold get_tunnel_manager_from_config. rewrite Hcfg.
  unfold SSHTunnelManager, default; cbn [from_option id].
  cbn [allow_agent ssh_tunnel_config]. unfold id.
  split; [|split].
  - rewrite dict_get_first; [done|].
    intros u Hin. by specialize (Hpre _ _ Hin).
  - apply in_or_app. right. by left.
  - rewrite find_tunnel_url_host_rules by done.
    cbn [ssh_tunnel_config]. rewrite first_match_skip by done.
    by destruct pre.
Qed.

Lemma allow_agent_setting_is_a_host_rule_witness :
  allow_agent
    (get_tunnel_manager_from_config
       (Config (Some [("db\.internal", "bastion"); ("allow_agent", "False")])
          None) None)
  = false ∧
  find_tunnel_url sample_re
    (get_tunnel_manager_from_config
       (Config (Some [("db\.internal", "bastion"); ("allow_agent", "False")])
          None) None)
    (Some "allow_agent") None = Ok (Some "False").
Proof.
  destruct (allow_agent_setting_is_a_host_rule
              (fun pattern _ => Raise (ReError pattern))
              (Config (Some [("db\.internal", "bastion");
                             ("allow_agent", "False")]) None)
              None [("db\.internal", "bastion")] "False" [])
    as (Hagent & _ & Hfind); try reflexivity.
  - intros p u [[= <- <-]|[]]. reflexivity.
  - exact (conj Hagent Hfind).
Defined.

(** ** The life of a tunnel *)

(** X7.  A manager without URL and without rules starts nothing: whatever
    the host, the port and the alias, and whatever the collaborators would
    do, [start_tunnel] returns the host and port it was given and leaves
    the manager and the forwarders as they were. *)
Theorem start_tunnel_without_rules
    ext url config dsn_config agent w dbhost dbport dsn_alias :
  truthy url = false →
  default [] config = [] → default [] dsn_config = [] →
  start_tunnel ext (SSHTunnelManager url config dsn_config agent) w
    dbhost dbport dsn_alias
  = (Ok (dbhost, dbport), SSHTunnelManager url config dsn_config agent, w).
Proof.
  intros Hurl Hc Hd. unfold SSHTunnelManager. rewrite Hc, Hd.
  unfold start_tunnel. by rewrite find_tunnel_url_no_rules.
Qed.

Lemma start_tunnel_without_rules_witness :
  start_tunnel sample_externals (SSHTunnelManager None None (Some []) true)
    (World [] []) "db.example.com" 5432 (Some "prod")
  = (Ok ("db.example.com", 5432), SSHTunnelManager None None (Some []) true,
     World [] []).
Proof.
  apply (start_tunnel_without_rules sample_externals None None (Some []) true
           (World [] []) "db.example.com" 5432 (Some "prod")); reflexivity.
Defined.

(** Every way [start_tunnel] can end: nothing to start; an error, with at
    most one forwarder created and left inactive as far as the code saw;
    or a forwarder that is active and held by the manager. *)
Lemma start_tunnel_cases ext self w dbhost dbport dsn_alias :
  ∃ res self' w',
    start_tunnel ext self w dbhost dbport dsn_alias = (res, self', w') ∧
    ((res = Ok (dbhost, dbport) ∧ self' = self ∧ w' = w) ∨
     (∃ e new evs,
        res = Raise e ∧ objects w' = objects w ++ new ∧
        (length new ≤ 1)%nat ∧ trace w' = trace w ++ evs ∧
        existsb is_run evs = false) ∨
     (∃ local_port,
        res = Ok ("127.0.0.1"%string, local_port) ∧
        self' = set_tunnel (Some (length (objects w))) self ∧
        w' = World (objects w ++ [Forwarder true local_port 0])
               (trace w ++ [EvForwarderStart (length (objects w));
                            EvAtexitRegister]))).
Proof.
  unfold start_tunnel.
  assert (∀ e, ∃ res self' w',
            (Raise e : result (string * Z), self, w) = (res, self', w') ∧
            ((res = Ok (dbhost, dbport) ∧ self' = self ∧ w' = w) ∨
             (∃ e new evs,
                res = Raise e ∧ objects w' = objects w ++ new ∧
                (length new ≤ 1)%nat ∧ trace w' = trace w ++ evs ∧
                existsb is_run evs = false) ∨
             (∃ local_port,
                res = Ok ("127.0.0.1"%string, local_port) ∧
                self' = set_tunnel (Some (length (objects w))) self ∧
                w' = World (objects w ++ [Forwarder true local_port 0])
                       (trace w ++ [EvForwarderStart (length (objects w));
                                    EvAtexitRegister])))) as Hraise.
  { intros e. do 3 eexists. split; [reflexivity|]. right; left.
    exists e, [], []. rewrite !app_nil_r. repeat split. simpl; lia. }
  destruct (find_tunnel_url _ _ _ _) as [found|e]; [|apply Hraise].
  destruct (negb (truthy found)).
  { do 3 eexists. split; [reflexivity|]. by left. }
  destruct (negb (SSH_TUNNEL_SUPPORT ext)); [apply Hraise|].
  destruct (forwarder_params _ _ _ _ _) as [params|e]; [|apply Hraise].
  destruct (forwarder_new ext params) as [[]|e]; [|apply Hraise].
  cbn [objects trace].
  destruct (forwarder_start ext params) as [[active local_port]|e].
  - rewrite insert_last. destruct active; cbn [negb objects trace].
    + do 3 eexists. split; [reflexivity|]. right; right.
      exists local_port. by rewrite <- app_assoc.
    + do 3 eexists. split; [reflexivity|]. right; left.
      exists (SystemExit 1), [Forwarder false local_port 0],
        [EvForwarderStart (length (objects w))].
      repeat split. simpl; lia.
  - do 3 eexists. split; [reflexivity|]. right; left.
    exists (on_exception e), [Forwarder false 0 0],
      [EvForwarderStart (length (objects w))].
    repeat split. simpl; lia.
Qed.

Lemma find_tunnel_url_set_tunnel fullmatch t self h dsn_alias :
  find_tunnel_url fullmatch (set_tunnel t self) h dsn_alias
  = find_tunnel_url fullmatch self h dsn_alias.
Proof. done. Qed.

Lemma forwarder_params_set_tunnel ext t self dbhost dbport tunnel_url :
  forwarder_params ext (set_tunnel t self) dbhost dbport tunnel_url
  = forwarder_params ext self dbhost dbport tunnel_url.
Proof. done. Qed.

Lemma stop_tunnel_last self objs evs local_port :
  stop_tunnel (set_tunnel (Some (length objs)) self)
    (World (objs ++ [Forwarder true local_port 0]) evs)
  = (set_tunnel None self,
     World (objs ++ [Forwarder false local_port 1])
       (evs ++ [EvForwarderStop (length objs)])).
Proof.
  unfold stop_tunnel. cbn [tunnel set_tunnel objects trace].
  rewrite lookup_last. cbn [is_active local_bind_port stop_calls].
  by rewrite insert_last.
Qed.

(** X8.  Start, then stop.  When [start_tunnel] returns, either it started
    nothing and returns the host and port it was given, manager and
    forwarders untouched, or it returns ["127.0.0.1"] with the port the new
    forwarder bound, the manager holds that forwarder and it is active; then
    [stop_tunnel] stops it with one call of [stop()] and forgets it, and
    another [stop_tunnel], such as the one registered with [atexit], does
    nothing more. *)
Theorem start_tunnel_then_stop ext self w dbhost dbport dsn_alias ep self' w' :
  start_tunnel ext self w dbhost dbport dsn_alias = (Ok ep, self', w') →
  (ep = (dbhost, dbport) ∧ self' = self ∧ w' = w) ∨
  (∃ local_port,
     ep = ("127.0.0.1"%string, local_port) ∧
     tunnel self' = Some (length (objects w)) ∧
     objects w' = objects w ++ [Forwarder true local_port 0] ∧
     stop_tunnel self' w'
     = (set_tunnel None self,
        World (objects w ++ [Forwarder false local_port 1])
          (trace w ++ [EvForwarderStart (length (objects w)); EvAtexitRegister;
                       EvForwarderStop (length (objects w))])) ∧
     stop_tunnel (stop_tunnel self' w').1 (stop_tunnel self' w').2
     = stop_tunnel self' w').
Proof.
  intros Hstart.
  destruct (start_tunnel_cases ext self w dbhost dbport dsn_alias)
    as (res & s & w0 & Heq & Hcases).
  rewrite Hstart in Heq. injection Heq as <- <- <-.
  destruct Hcases as [(He & Hs & Hw)|[(e & new & evs & He & _)|(lp & He & Hs & Hw)]].
  - left. by injection He as ->.
  - discriminate.
  - right. exists lp. injection He as ->. subst self' w'.
    rewrite stop_tunnel_last, <- app_assoc. by repeat split.
Qed.

Lemma start_tunnel_then_stop_witness :
  stop_tunnel (set_tunnel (Some 0%nat) (Manager (Some "bastion") [] [] None true))
    (World [Forwarder true 55123 0] [EvForwarderStart 0; EvAtexitRegister])
  = (Manager (Some "bastion") [] [] None true,
     World [Forwarder false 55123 1]
       [EvForwarderStart 0; EvAtexitRegister; EvForwarderStop 0]).
Proof.
  destruct (start_tunnel_then_stop sample_externals
              (Manager (Some "bastion") [] [] None true) (World [] [])
              "db" 5432 None ("127.0.0.1"%string, 55123)
              (set_tunnel (Some 0%nat) (Manager (Some "bastion") [] [] None true))
              (World [Forwarder true 55123 0]
                 [EvForwarderStart 0; EvAtexitRegister])
              eq_refl)
    as [(Hep & _)|(local_port & Hep & _ & _ & Hstop & _)].
  - discriminate.
  - injection Hep as <-. exact Hstop.
Defined.

(** X9.  Starting twice without a stop in between orphans the first
    forwarder: the manager holds only the second one, so that [stop_tunnel]
    stops the second and forgets it, while the first stays active and is
    never stopped.  The collaborators may behave differently at each call. *)
Theorem second_start_orphans_first
    ext1 ext2 self w h1 p1 a1 h2 p2 a2 ep1 self1 w1 ep2 self2 w2 :
  start_tunnel ext1 self w h1 p1 a1 = (Ok ep1, self1, w1) → w1 ≠ w →
  start_tunnel ext2 self1 w1 h2 p2 a2 = (Ok ep2, self2, w2) → w2 ≠ w1 →
  tunnel self2 = Some (S (length (objects w))) ∧
  tunnel (stop_tunnel self2 w2).1 = None ∧
  objects (stop_tunnel self2 w2).2
  = objects w ++ [Forwarder true ep1.2 0; Forwarder false ep2.2 1] ∧
  stop_tunnel (stop_tunnel self2 w2).1 (stop_tunnel self2 w2).2
  = stop_tunnel self2 w2.
Proof.
  intros Hs1 Hw1 Hs2 Hw2.
  destruct (start_tunnel_cases ext1 self w h1 p1 a1)
    as (res & s & w0 & Heq & Hcases).
  rewrite Hs1 in Heq. injection Heq as <- <- <-.
  destruct Hcases
    as [(_ & _ & ?)|[(e & new & evs & He & _)|(lp1 & He1 & -> & ->)]];
    [done|done|].
  destruct (start_tunnel_cases ext2 (set_tunnel (Some (length (objects w))) self)
              (World (objects w ++ [Forwarder true lp1 0])
                 (trace w ++ [EvForwarderStart (length (objects w));
                              EvAtexitRegister])) h2 p2 a2)
    as (res & s & w0 & Heq & Hcases).
  rewrite Hs2 in Heq. injection Heq as <- <- <-.
  destruct Hcases
    as [(_ & _ & ?)|[(e & new & evs & He & _)|(lp2 & He2 & -> & ->)]];
    [done|done|].
  injection He1 as ->. injection He2 as ->.
  cbn [objects trace]. rewrite stop_tunnel_last.
  cbn [fst snd objects tunnel set_tunnel].
  rewrite length_app, Nat.add_1_r, <- app_assoc. by repeat split.
Qed.

Lemma second_start_orphans_first_witness :
  objects
    (stop_tunnel
       (set_tunnel (Some 1%nat) (Manager (Some "bastion") [] [] None true))
       (World [Forwarder true 55123 0; Forwarder true 55123 0]
          [EvForwarderStart 0; EvAtexitRegister;
           EvForwarderStart 1; EvAtexitRegister])).2
  = [Forwarder true 55123 0; Forwarder false 55123 1].
Proof.
  apply (second_start_orphans_first sample_externals sample_externals
           (Manager (Some "bastion") [] [] None true) (World [] [])
           "db" 5432 None "db" 5432 None
           ("127.0.0.1"%string, 55123)
           (set_tunnel (Some 0%nat) (Manager (Some "bastion") [] [] None true))
           (World [Forwarder true 55123 0]
              [EvForwarderStart 0; EvAtexitRegister])
           ("127.0.0.1"%string, 55123)
           (set_tunnel (Some 1%nat) (Manager (Some "bastion") [] [] None true))
           (World [Forwarder true 55123 0; Forwarder true 55123 0]
              [EvForwarderStart 0; EvAtexitRegister;
               EvForwarderStart 1; EvAtexitRegister]));
    [reflexivity|discriminate|reflexivity|discriminate].
Defined.

(** X22.  What a started tunnel is asked to do: when [start_tunnel] has
    started a forwarder, the forwarder was created with parameters that bind
    ["127.0.0.1"] locally and forward to exactly the host and port
    [start_tunnel] was given, with an SSH port that is never 0 (22 when the
    URL gives none), the manager's [allow_agent], no key directories to scan
    and no compression, from a URL that has a scheme. *)
Theorem started_tunnel_forwards_to_given_endpoint
    ext self w dbhost dbport dsn_alias ep self' w' :
  start_tunnel ext self w dbhost dbport dsn_alias = (Ok ep, self', w') →
  w' ≠ w →
  ∃ tunnel_url params,
    find_tunnel_url (re_engine ext) self (Some dbhost) dsn_alias
    = Ok (Some tunnel_url) ∧
    contains "://" (with_scheme tunnel_url) = true ∧
    forwarder_params ext self dbhost dbport tunnel_url = Ok params ∧
    forwarder_new ext params = Ok tt ∧
    forwarder_start ext params = Ok (true, ep.2) ∧
    local_bind_address params = "127.0.0.1" ∧
    remote_bind_address params = (dbhost, dbport) ∧
    (ssh_address_or_host params).1
    = hostname (urlparse ext (with_scheme tunnel_url)) ∧
    (ssh_address_or_host params).2 ≠ 0 ∧
    (url_port (urlparse ext (with_scheme tunnel_url)) = Ok None →
     (ssh_address_or_host params).2 = 22) ∧
    param_allow_agent params = allow_agent self ∧
    host_pkey_directories params = [] ∧
    compression params = false.
Proof.
  intros Hstart Hw. unfold start_tunnel in Hstart.
  destruct (find_tunnel_url _ _ _ _) as [found|] eqn:Hfind; [|done].
  destruct (negb (truthy found)) eqn:Htruthy.
  { injection Hstart as _ _ <-. done. }
  destruct (negb (SSH_TUNNEL_SUPPORT ext)); [done|].
  destruct found as [tunnel_url|]; [|done]. cbn [default from_option id] in Hstart.
  destruct (forwarder_params _ _ _ _ _) as [params|] eqn:Hparams; [|done].
  destruct (forwarder_new ext params) as [[]|] eqn:Hnew; [|done].
  destruct (forwarder_start ext params) as [[active local_port]|] eqn:Hfs;
    [|done].
  destruct active; cbn [negb] in Hstart; [|done].
  injection Hstart as <- _ _.
  exists tunnel_url, params. split; [done|]. split.
  { unfold with_scheme. destruct (contains "://" tunnel_url) eqn:Hc; [done|].
    by apply (contains_app_l "://" "ssh://"). }
  split; [done|]. split; [done|]. split; [done|].
  unfold forwarder_params in Hparams. cbv zeta in Hparams.
  destruct (url_port (urlparse ext (with_scheme tunnel_url))) as [url_p|];
    simpl in Hparams; [|done].
  injection Hparams as <-. cbn. split_and!; try done.
  - unfold or_22. destruct url_p as [n|]; [|done].
    destruct (n =? 0) eqn:Hn; [done|]. by apply Z.eqb_neq.
  - by intros [= ->].
Qed.

Lemma started_tunnel_forwards_to_given_endpoint_witness :
  ∃ tunnel_url params,
    find_tunnel_url sample_re (Manager (Some "me@bastion") [] [] None true)
      (Some "db") None = Ok (Some tunnel_url) ∧
    contains "://" (with_scheme tunnel_url) = true ∧
    forwarder_params sample_externals (Manager (Some "me@bastion") [] [] None true)
      "db" 5432 tunnel_url = Ok params ∧
    remote_bind_address params = ("db", 5432) ∧
    (ssh_address_or_host params).2 = 22.
Proof.
  destruct (started_tunnel_forwards_to_given_endpoint sample_externals
              (Manager (Some "me@bastion") [] [] None true) (World [] [])
              "db" 5432 None ("127.0.0.1"%string, 55123)
              (set_tunnel (Some 0%nat)
                 (Manager (Some "me@bastion") [] [] None true))
              (World [Forwarder true 55123 0]
                 [EvForwarderStart 0; EvAtexitRegister])
              eq_refl ltac:(discriminate))
    as (tunnel_url & params & Hfind & Hscheme & Hparams & _ & _ & _ & Hremote & _).
  exists tunnel_url, params. split_and!; try done.
  injection Hfind as <-. by injection Hparams as <-.
Defined.

(** ** [cli] as a whole *)

(** X10.  However [cli] leaves, and whatever the collaborators do, it has
    touched none of the forwarders that existed before, created at most one,
    and run at most one command; and if the command was run, the forwarder
    it created, if any, is no longer active. *)
Theorem cli_leaves_no_tunnel_behind ext get_config args ssh_tunnel dsn_alias w :
  ∃ new evs,
    objects (cli ext get_config args ssh_tunnel dsn_alias w).2
    = objects w ++ new ∧
    trace (cli ext get_config args ssh_tunnel dsn_alias w).2 = trace w ++ evs ∧
    (length new ≤ 1)%nat ∧
    (length (List.filter is_run evs) ≤ 1)%nat ∧
    (existsb is_run evs = true → Forall (λ f, is_active f = false) new).
Proof.
  assert (∀ e : exn, ∃ new evs,
            objects (e, w).2 = objects w ++ new ∧
            trace (e, w).2 = trace w ++ evs ∧
            (length new ≤ 1)%nat ∧
            (length (List.filter is_run evs) ≤ 1)%nat ∧
            (existsb is_run evs = true → Forall (λ f, is_active f = false) new))
    as Hsame.
  { intros e. exists [], []. rewrite !app_nil_r. repeat split; simpl; lia. }
  unfold cli.
  destruct (load_config get_config) as [cfg|e]; [|apply Hsame].
  destruct (parse_connection_args (os_environ ext) args) as [parsed|e];
    [|apply Hsame].
  destruct (start_tunnel_cases ext
              (get_tunnel_manager_from_config cfg ssh_tunnel) w
              (host parsed) (port parsed) dsn_alias)
    as (res & s & w0 & -> & Hcases).
  destruct Hcases
    as [(-> & -> & ->)
       |[(e & new & evs & -> & Hobj & Hnew & Htr & Hrun)
        |(lp & -> & -> & ->)]].
  - rewrite String.eqb_refl, Z.eqb_refl. cbn [negb orb].
    exists [], [EvRun (find_pg_dumpall ext :: args)].
    unfold stop_tunnel, get_tunnel_manager_from_config, SSHTunnelManager.
    cbn [tunnel snd objects trace]. rewrite app_nil_r.
    repeat split; simpl; try lia. done.
  - exists new, evs. cbn [snd]. repeat split; try done.
    + induction evs as [|ev evs IH]; simpl in *; [lia|].
      destruct (is_run ev); [done|]. simpl in Hrun.
      clear -Hrun. induction evs as [|ev' evs IH]; simpl in *; [lia|].
      destruct (is_run ev'); [done|]. by apply IH.
    + by rewrite Hrun.
  - rewrite build_tunneled_args_rewritten.
    match goal with
    | |- context [match (if ?c then Ok ?a else Ok ?b) with _ => _ end] =>
        replace (if c then Ok a else Ok b) with (Ok (if c then a else b))
          by (by destruct c);
        set (final_args := if c then a else b)
    end.
    cbn [objects trace snd]. rewrite stop_tunnel_last. cbn [snd objects trace].
    exists [Forwarder false lp 1],
      [EvForwarderStart (length (objects w)); EvAtexitRegister;
       EvRun (find_pg_dumpall ext :: final_args);
       EvForwarderStop (length (objects w))].
    rewrite <- !app_assoc.
    repeat split; simpl; try lia. by repeat constructor.
Qed.

Lemma cli_leaves_no_tunnel_behind_witness :
  Forall (λ f, is_active f = false) [Forwarder false 55123 1].
Proof.
  destruct (cli_leaves_no_tunnel_behind sample_externals (Ok (Config None None))
              ["-h"; "db"] (Some "bastion") None (World [] []))
    as (new & evs & Hobj & Htr & _ & _ & Hstopped).
  vm_compute in Hobj, Htr. subst new evs. apply Hstopped. reflexivity.
Defined.

(** X11.  A configuration that cannot be loaded does not stop the dump: when
    [get_config] raises an [Exception] and no [--ssh-tunnel] is given, [cli]
    starts no tunnel, whatever the alias and whatever the regex engine would
    do, and runs the command with the tokens as given; an exception that is
    no [Exception] leaves [cli] at once. *)
Theorem config_failure_runs_unchanged ext e args ssh_tunnel dsn_alias w :
  (is_Exception e = true → truthy ssh_tunnel = false →
   ∀ r, parse_connection_args (os_environ ext) args = Ok r →
        cli ext (Raise e) args ssh_tunnel dsn_alias w
        = (exit_for (subprocess_run ext (find_pg_dumpall ext :: args)),
           World (objects w) (trace w ++ [EvRun (find_pg_dumpall ext :: args)]))) ∧
  (is_Exception e = false →
   cli ext (Raise e) args ssh_tunnel dsn_alias w = (e, w)).
Proof.
  split.
  - intros He Hurl r Hparse. unfold cli, load_config. rewrite He, Hparse.
    unfold get_tunnel_manager_from_config, SSHTunnelManager.
    cbn [ssh_tunnels dsn_ssh_tunnels default from_option id dict_get].
    unfold start_tunnel. rewrite find_tunnel_url_no_rules by done.
    cbn [truthy negb]. rewrite String.eqb_refl, Z.eqb_refl. cbn [negb orb].
    unfold stop_tunnel. by cbn [tunnel snd].
  - intros He. unfold cli, load_config. by rewrite He.
Qed.

Lemma config_failure_runs_unchanged_witness :
  cli sample_externals (Raise (OtherException "no config")) ["-g"; "-h"; "db"]
    None (Some "prod") (World [] [])
  = (SystemExit 0,
     World [] [EvRun ["/usr/bin/pg_dumpall"; "-g"; "-h"; "db"]]).
Proof.
  apply (proj1 (config_failure_runs_unchanged sample_externals
                  (OtherException "no config") ["-g"; "-h"; "db"] None
                  (Some "prod") (World [] []))
           eq_refl eq_refl
           (Conn "db" 5432 ["-g"; "-h"; "db"] true false) eq_refl).
Defined.

(** ** [find_pg_dumpall] *)

Lemma endswith_refl s : endswith s s = true.
Proof. destruct s; simpl; by rewrite ?String.eqb_refl, ?Ascii.eqb_refl. Qed.

Lemma endswith_app a b : endswith (a +:+ b) b = true.
Proof.
  induction a as [|c a IH]; simpl.
  - apply endswith_refl.
  - rewrite IH. apply orb_true_r.
Qed.

Lemma endswith_join path : endswith (os_path_join path "pg_dumpall") "pg_dumpall" = true.
Proof.
  unfold os_path_join. change (startswith "pg_dumpall" "/") with false. cbv iota.
  destruct (_ || _).
  - apply endswith_app.
  - rewrite <- append_assoc. apply endswith_app.
Qed.

Lemma search_path_found fs dirs found :
  search_path fs dirs = Some found →
  ∃ path, In path dirs ∧ found = os_path_join path "pg_dumpall" ∧
          isfile fs found = true ∧ access_x fs found = true.
Proof.
  induction dirs as [|path dirs IH]; simpl; [done|].
  destruct (isfile fs _ && access_x fs _) eqn:Hx.
  - intros [= <-]. apply andb_true_iff in Hx as [? ?]. exists path. auto.
  - intros H. destruct (IH H) as (p & ? & ?). exists p. auto.
Qed.

Lemma search_common_found fs paths found :
  search_common fs paths = Some found →
  In found paths ∧ isfile fs found = true ∧ access_x fs found = true.
Proof.
  induction paths as [|path paths IH]; simpl; [done|].
  destruct (isfile fs path && access_x fs path) eqn:Hx.
  - intros [= <-]. apply andb_true_iff in Hx as [? ?]. auto.
  - intros H. destruct (IH H) as (? & ?). auto.
Qed.

(** X12.  Whatever [PATH] holds and whatever the file system, the path
    [find_pg_dumpall] returns ends with [pg_dumpall], and it is either the
    bare name [pg_dumpall], left to the operating system to look up, or the
    path of a file that exists and may be executed. *)
Theorem find_pg_dumpall_result PATH fs :
  endswith (Dumpall.find_pg_dumpall PATH fs) "pg_dumpall" = true ∧
  (Dumpall.find_pg_dumpall PATH fs = "pg_dumpall" ∨
   isfile fs (Dumpall.find_pg_dumpall PATH fs) = true ∧
   access_x fs (Dumpall.find_pg_dumpall PATH fs) = true).
Proof.
  unfold Dumpall.find_pg_dumpall.
  destruct (search_path fs _) as [found|] eqn:Hpath.
  - destruct (search_path_found _ _ _ Hpath) as (path & _ & -> & Hf & Hx).
    split; [apply endswith_join|by right].
  - destruct (search_common fs paths_to_check) as [found|] eqn:Hcommon.
    + destruct (search_common_found _ _ _ Hcommon) as (Hin & Hf & Hx).
      split; [|by right].
      unfold paths_to_check in Hin. simpl in Hin.
      destruct Hin as [<-|[<-|[<-|[<-|[<-|[<-|[]]]]]]]; reflexivity.
    + split; [reflexivity|by left].
Qed.

Lemma search_path_first fs pre dir post :
  (∀ d, In d pre →
        isfile fs (os_path_join d "pg_dumpall")
        && access_x fs (os_path_join d "pg_dumpall") = false) →
  isfile fs (os_path_join dir "pg_dumpall") = true →
  access_x fs (os_path_join dir "pg_dumpall") = true →
  search_path fs (pre ++ dir :: post) = Some (os_path_join dir "pg_dumpall").
Proof.
  intros Hpre Hf Hx. induction pre as [|d pre IH]; simpl.
  - by rewrite Hf, Hx.
  - rewrite (Hpre d) by (by left). apply IH. intros d' Hin. apply Hpre. by right.
Qed.

(** X13.  The directories of [PATH] are tried in their order and before the
    well-known locations: the first directory of [PATH] that holds an
    executable [pg_dumpall] decides the result, whatever the later
    directories and the well-known locations hold. *)
Theorem find_pg_dumpall_prefers_path PATH fs pre dir post :
  split_on ":" (default "" PATH) = pre ++ dir :: post →
  (∀ d, In d pre →
        isfile fs (os_path_join d "pg_dumpall")
        && access_x fs (os_path_join d "pg_dumpall") = false) →
  isfile fs (os_path_join dir "pg_dumpall") = true →
  access_x fs (os_path_join dir "pg_dumpall") = true →
  Dumpall.find_pg_dumpall PATH fs = os_path_join dir "pg_dumpall".
Proof.
  intros Hsplit Hpre Hf Hx. unfold Dumpall.find_pg_dumpall.
  rewrite Hsplit. by rewrite (search_path_first fs pre dir post Hpre Hf Hx).
Qed.

Lemma find_pg_dumpall_prefers_path_witness :
  Dumpall.find_pg_dumpall (Some "/opt/bin:/usr/lib/postgresql/16/bin/:/usr/bin")
    (Filesystem
       (fun p => String.eqb p "/usr/lib/postgresql/16/bin/pg_dumpall"
                 || String.eqb p "/usr/bin/pg_dumpall")
       (fun _ => true))
  = "/usr/lib/postgresql/16/bin/pg_dumpall".
Proof.
  apply (find_pg_dumpall_prefers_path
           (Some "/opt/bin:/usr/lib/postgresql/16/bin/:/usr/bin")
           (Filesystem
              (fun p => String.eqb p "/usr/lib/postgresql/16/bin/pg_dumpall"
                        || String.eqb p "/usr/bin/pg_dumpall")
              (fun _ => true))
           ["/opt/bin"] "/usr/lib/postgresql/16/bin/" ["/usr/bin"]).
  - reflexivity.
  - intros d [<-|[]]. reflexivity.
  - reflexivity.
  - reflexivity.
Defined.

(** ** The rewriting applied to its own result *)

Lemma rewrite_part_idem th tp part :
  rewrite_part th tp (rewrite_part th tp part) = rewrite_part th tp part.
Proof.
  unfold rewrite_part.
  destruct (startswith part "host=") eqn:Hh.
  - by rewrite startswith_app.
  - destruct (startswith part "port=") eqn:Hp.
    + by rewrite startswith_app.
    + by rewrite Hh, Hp.
Qed.

Lemma rewrite_dbname_idem th tp dbname :
  ws_free th = true →
  rewrite_dbname th tp (rewrite_dbname th tp dbname) = rewrite_dbname th tp dbname.
Proof.
  intros Hws. unfold rewrite_dbname at 1.
  rewrite split_rewrite_dbname by done. rewrite map_map.
  unfold rewrite_dbname. f_equal. apply map_ext. intros part.
  apply rewrite_part_idem.
Qed.

Lemma rewritten_idem th tp :
  ws_free th = true →
  ∀ args, rewritten th tp (rewritten th tp args) = rewritten th tp args.
Proof.
  intros Hws.
  induction args as [|arg rest IH IH'] using list_pair_ind; [done|].
  cbn [rewritten].
  destruct (classify arg) as [|v| |v| |v|] eqn:Hk.
  - cbn [rewritten]. change (classify "-h") with KHostFlag. cbv iota.
    destruct rest as [|v rest']; [done|]. by rewrite (IH' _ _ eq_refl).
  - cbn [rewritten]. rewrite classify_host_eq. by rewrite IH.
  - cbn [rewritten]. change (classify "-p") with KPortFlag. cbv iota.
    destruct rest as [|v rest']; [done|]. by rewrite (IH' _ _ eq_refl).
  - cbn [rewritten]. rewrite classify_port_eq. by rewrite IH.
  - destruct rest as [|dbname rest']; cbn [rewritten].
    + by rewrite Hk.
    + change (classify "-d") with KDbFlag. cbv iota.
      rewrite (IH' _ _ eq_refl). do 2 f_equal.
      destruct (contains "host=" dbname) eqn:Hc.
      * destruct (contains "host=" (rewrite_dbname th tp dbname));
          [by apply rewrite_dbname_idem|done].
      * by rewrite Hc.
  - cbn [rewritten]. rewrite IH.
    destruct (contains "host=" v) eqn:Hc.
    + rewrite classify_dbname_eq.
      destruct (contains "host=" (rewrite_dbname th tp v));
        [by rewrite rewrite_dbname_idem|done].
    + by rewrite Hk, Hc.
  - cbn [rewritten]. by rewrite Hk, IH.
Qed.

(** X14.  Rewriting is idempotent: for a tunnel host without space
    character, giving [build_tunneled_args] its own result, with nothing to
    append, returns that result unchanged. *)
Theorem build_tunneled_args_idempotent th tp oh op oh' op' args :
  ws_free th = true →
  ∃ out,
    build_tunneled_args args th tp oh op true true = Ok out ∧
    build_tunneled_args out th tp oh' op' true true = Ok out.
Proof.
  intros Hws. rewrite build_tunneled_args_rewritten.
  eexists; split; [reflexivity|].
  rewrite build_tunneled_args_rewritten. cbn [appended app].
  by rewrite !app_nil_r, rewritten_idem.
Qed.

Lemma build_tunneled_args_idempotent_witness :
  ∃ out,
    build_tunneled_args ["--host"; "db"; "--dbname=host=db  port=1 x=y"; "-p"]
      "127.0.0.1" 55123 "db" 1 true true = Ok out ∧
    build_tunneled_args out "127.0.0.1" 55123 "127.0.0.1" 55123 true true = Ok out.
Proof.
  apply (build_tunneled_args_idempotent "127.0.0.1" 55123 "db" 1
           "127.0.0.1" 55123
           ["--host"; "db"; "--dbname=host=db  port=1 x=y"; "-p"]).
  reflexivity.
Defined.

(** ** The command [cli] runs *)

(** X15.  From the command line to the command: whenever [start_tunnel]
    returns an endpoint, be it the one it was given or the local end of a
    tunnel, [cli] runs the command with tokens that the parser reads as that
    endpoint, provided the tokens given do not end with a dbname flag without
    value; then it stops the tunnel. *)
Theorem cli_command_points_at_endpoint
    ext get_config args ssh_tunnel dsn_alias w cfg r ep self' w' :
  load_config get_config = Ok cfg →
  parse_connection_args (os_environ ext) args = Ok r →
  dangling_dbname args = false →
  start_tunnel ext (get_tunnel_manager_from_config cfg ssh_tunnel) w
    (host r) (port r) dsn_alias = (Ok ep, self', w') →
  ∃ final_args r',
    cli ext get_config args ssh_tunnel dsn_alias w
    = (exit_for (subprocess_run ext (find_pg_dumpall ext :: final_args)),
       (stop_tunnel self'
          (World (objects w')
             (trace w' ++ [EvRun (find_pg_dumpall ext :: final_args)]))).2) ∧
    parse_connection_args (os_environ ext) final_args = Ok r' ∧
    (host r', port r') = ep.
Proof.
  intros Hload Hparse Hd Hstart.
  unfold cli. rewrite Hload, Hparse, Hstart. destruct ep as [th tp].
  destruct (negb (String.eqb th (host r)) || negb (tp =? port r)) eqn:Hcond.
  - assert (th = "127.0.0.1"%string) as ->.
    { destruct (start_tunnel_cases ext
                  (get_tunnel_manager_from_config cfg ssh_tunnel) w
                  (host r) (port r) dsn_alias)
        as (res & s & w0 & Heq & Hcases).
      rewrite Hstart in Heq. injection Heq as <- <- <-.
      destruct Hcases
        as [(He & _)|[(e & new & evs & He & _)|(lp & He & _)]];
        [|done|by injection He].
      injection He as -> ->.
      by rewrite String.eqb_refl, Z.eqb_refl in Hcond. }
    rewrite (parse_connection_args_remaining _ _ _ Hparse).
    rewrite build_tunneled_args_rewritten.
    destruct (reparse_rewritten (os_environ ext) args r "127.0.0.1" tp
                Hparse eq_refl Hd) as (r' & Hr' & Hh' & Hp' & _).
    eexists _, r'. split; [reflexivity|]. split; [exact Hr'|].
    by rewrite Hh', Hp'.
  - apply orb_false_iff in Hcond as [Hh Hp].
    apply negb_false_iff, String.eqb_eq in Hh as ->.
    apply negb_false_iff, Z.eqb_eq in Hp as ->.
    by exists args, r.
Qed.

Lemma cli_command_points_at_endpoint_witness :
  ∃ final_args r',
    cli sample_externals (Ok (Config None None)) ["-g"; "--host=db"]
      (Some "user@bastion") None (World [] [])
    = (exit_for (subprocess_run sample_externals
                   (find_pg_dumpall sample_externals :: final_args)),
       (stop_tunnel
          (set_tunnel (Some 0%nat)
             (get_tunnel_manager_from_config (Config None None)
                (Some "user@bastion")))
          (World (objects (World [Forwarder true 55123 0]
                             [EvForwarderStart 0; EvAtexitRegister]))
             (trace (World [Forwarder true 55123 0]
                       [EvForwarderStart 0; EvAtexitRegister]) ++
              [EvRun (find_pg_dumpall sample_externals :: final_args)]))).2) ∧
    parse_connection_args (os_environ sample_externals) final_args = Ok r' ∧
    (host r', port r') = ("127.0.0.1"%string, 55123).
Proof.
  apply (cli_command_points_at_endpoint sample_externals
           (Ok (Config None None)) ["-g"; "--host=db"] (Some "user@bastion")
           None (World [] []) (Config None None)
           (Conn "db" 5432 ["-g"; "--host=db"] true false));
    reflexivity.
Defined.

(** ** Named queries: looking up *)

Lemma nonempty_dict_false {value} (d : gmap string value) :
  ExtendedNamedQueries.nonempty_dict d = false ↔ d = ∅.
Proof.
  unfold ExtendedNamedQueries.nonempty_dict. rewrite <- map_to_list_empty_iff.
  by destruct (map_to_list d).
Qed.

Lemma get_all_lookup {value} (self : @ExtendedNamedQueries.instance value) name :
  ExtendedNamedQueries.get_all self !! name
  = if in_tuple name ExtendedNamedQueries.DIRECTIVES
    then ExtendedNamedQueries._included_queries self !! name
    else match ExtendedNamedQueries.main_queries self !! name with
         | Some query => Some query
         | None => ExtendedNamedQueries._included_queries self !! name
         end.
Proof.
  unfold ExtendedNamedQueries.get_all. rewrite lookup_union.
  destruct (in_tuple name ExtendedNamedQueries.DIRECTIVES) eqn:Hd.
  - rewrite map_lookup_filter_None_2; [by rewrite (left_id None _)|].
    right. intros query _ Hnot.
    unfold ExtendedNamedQueries.not_directive in Hnot. cbn [fst] in Hnot.
    congruence.
  - destruct (ExtendedNamedQueries.main_queries self !! name) as [query|] eqn:Hm.
    + rewrite (map_lookup_filter_Some_2 _ _ _ query); [|done|done].
      by destruct (ExtendedNamedQueries._included_queries self !! name).
    + rewrite map_lookup_filter_None_2 by (by left).
      by rewrite (left_id None _).
Qed.

(** X16.  [get] and [get_all] agree on every name that is no directive: the
    main configuration's query if it has one, else the included one.  For the
    directive [includedir] they differ when an include file defines that
    name: [get] returns nothing, [get_all] holds the included value. *)
Theorem get_agrees_with_get_all {value}
    (self : @ExtendedNamedQueries.instance value) name :
  (in_tuple name ExtendedNamedQueries.DIRECTIVES = false →
   ExtendedNamedQueries.get self name
   = ExtendedNamedQueries.get_all self !! name) ∧
  (in_tuple name ExtendedNamedQueries.DIRECTIVES = true →
   ExtendedNamedQueries.get self name = None ∧
   ExtendedNamedQueries.get_all self !! name
   = ExtendedNamedQueries._included_queries self !! name).
Proof.
  rewrite get_all_lookup. unfold ExtendedNamedQueries.get.
  split; intros ->; [done|by split].
Qed.

Lemma get_agrees_with_get_all_witness :
  ExtendedNamedQueries.get
    (ExtendedNamedQueries.Instance None
       (Some (<["q" := "select 1"]> (<["includedir" := "extra.d"]> ∅))) None
       (<["q" := "select 2"]> (<["r" := "select 3"]> ∅))) "q"
  = ExtendedNamedQueries.get_all
      (ExtendedNamedQueries.Instance None
         (Some (<["q" := "select 1"]> (<["includedir" := "extra.d"]> ∅))) None
         (<["q" := "select 2"]> (<["r" := "select 3"]> ∅))) !! "q".
Proof.
  apply (get_agrees_with_get_all
           (ExtendedNamedQueries.Instance None
              (Some (<["q" := "select 1"]> (<["includedir" := "extra.d"]> ∅)))
              None (<["q" := "select 2"]> (<["r" := "select 3"]> ∅))) "q").
  reflexivity.
Defined.

Lemma ascii_compare_trans_lt a b c :
  Ascii.compare a b = Lt → Ascii.compare b c = Lt → Ascii.compare a c = Lt.
Proof. unfold Ascii.compare. rewrite !N.compare_lt_iff. lia. Qed.

Lemma ascii_compare_eq a b : Ascii.compare a b = Eq → a = b.
Proof.
  unfold Ascii.compare. rewrite N.compare_eq_iff. intros H.
  by rewrite <- (ascii_N_embedding a), <- (ascii_N_embedding b), H.
Qed.

Lemma string_compare_trans_lt s1 :
  ∀ s2 s3, String.compare s1 s2 = Lt → String.compare s2 s3 = Lt →
           String.compare s1 s3 = Lt.
Proof.
  induction s1 as [|a s1 IH]; intros [|b s2] [|c s3]; simpl; try done.
  destruct (Ascii.compare a b) eqn:Hab; [|clear IH|done].
  - apply ascii_compare_eq in Hab as ->.
    destruct (Ascii.compare b c); [apply IH|done|done].
  - destruct (Ascii.compare b c) eqn:Hbc; [| |done].
    + apply ascii_compare_eq in Hbc as <-. by rewrite Hab.
    + by rewrite (ascii_compare_trans_lt _ _ _ Hab Hbc).
Qed.

#[local] Instance str_le_trans : Transitive str_le.
Proof.
  intros s1 s2 s3. unfold str_le, String.leb.
  destruct (String.compare s1 s2) eqn:H12;
    destruct (String.compare s2 s3) eqn:H23; try done; intros _ _.
  - apply String.compare_eq_iff in H12 as ->. by rewrite H23.
  - apply String.compare_eq_iff in H12 as ->. by rewrite H23.
  - apply String.compare_eq_iff in H23 as <-. by rewrite H12.
  - by rewrite (string_compare_trans_lt _ _ _ H12 H23).
Qed.

#[local] Instance str_le_total : Total str_le.
Proof. intros s1 s2. apply String.leb_total. Qed.

Lemma sorted_elem_of names name : name ∈ sorted names ↔ name ∈ names.
Proof. unfold sorted. by rewrite merge_sort_Permutation. Qed.

(** X17.  [list] returns the names [get_all] knows, each once, in ascending
    order; so a name that is no directive is listed exactly when [get]
    returns a query for it. *)
Theorem list_is_sorted_names_of_get_all {value}
    (self : @ExtendedNamedQueries.instance value) :
  StronglySorted str_le (ExtendedNamedQueries.list self) ∧
  NoDup (ExtendedNamedQueries.list self) ∧
  (∀ name, name ∈ ExtendedNamedQueries.list self ↔
           is_Some (ExtendedNamedQueries.get_all self !! name)) ∧
  (∀ name, in_tuple name ExtendedNamedQueries.DIRECTIVES = false →
           (name ∈ ExtendedNamedQueries.list self ↔
            is_Some (ExtendedNamedQueries.get self name))).
Proof.
  assert (∀ name, name ∈ ExtendedNamedQueries.list self ↔
                  is_Some (ExtendedNamedQueries.get_all self !! name)) as Hin.
  { intros name. unfold ExtendedNamedQueries.list.
    by rewrite sorted_elem_of, elem_of_elements, elem_of_dom. }
  split; [|split; [|split]].
  - apply StronglySorted_merge_sort; apply _.
  - unfold ExtendedNamedQueries.list, sorted.
    rewrite merge_sort_Permutation. apply NoDup_elements.
  - done.
  - intros name Hd. rewrite Hin, get_all_lookup.
    unfold ExtendedNamedQueries.get. by rewrite Hd.
Qed.

Lemma list_is_sorted_names_of_get_all_witness :
  "r" ∈ ExtendedNamedQueries.list
          (ExtendedNamedQueries.Instance None
             (Some (<["q" := "select 1"]> (<["includedir" := "extra.d"]> ∅)))
             None (<["q" := "select 2"]> (<["r" := "select 3"]> ∅))) ↔
  is_Some
    (ExtendedNamedQueries.get
       (ExtendedNamedQueries.Instance None
          (Some (<["q" := "select 1"]> (<["includedir" := "extra.d"]> ∅)))
          None (<["q" := "select 2"]> (<["r" := "select 3"]> ∅))) "r").
Proof.
  apply (list_is_sorted_names_of_get_all
           (ExtendedNamedQueries.Instance None
              (Some (<["q" := "select 1"]> (<["includedir" := "extra.d"]> ∅)))
              None (<["q" := "select 2"]> (<["r" := "select 3"]> ∅)))).
  reflexivity.
Defined.

(** X18.  [get_source] against [get]: it answers nothing exactly when
    neither the main section nor the included queries hold the name; for a
    name that is no directive, [config] means that [get] returns the main
    section's query, [include] that it returns the included one, and no
    answer that [get] returns nothing.  The directive [includedir] set in the
    main section is reported as [config] although [get] returns nothing for
    it. *)
Theorem get_source_agrees_with_get {value}
    (self : @ExtendedNamedQueries.instance value) name :
  (ExtendedNamedQueries.get_source self name = None ↔
   ExtendedNamedQueries.main_queries self !! name = None ∧
   ExtendedNamedQueries._included_queries self !! name = None) ∧
  (in_tuple name ExtendedNamedQueries.DIRECTIVES = false →
   (ExtendedNamedQueries.get_source self name = Some "config" →
    is_Some (ExtendedNamedQueries.get self name) ∧
    ExtendedNamedQueries.get self name
    = ExtendedNamedQueries.main_queries self !! name) ∧
   (ExtendedNamedQueries.get_source self name = Some "include" →
    is_Some (ExtendedNamedQueries.get self name) ∧
    ExtendedNamedQueries.get self name
    = ExtendedNamedQueries._included_queries self !! name) ∧
   (ExtendedNamedQueries.get_source self name = None →
    ExtendedNamedQueries.get self name = None)) ∧
  (in_tuple name ExtendedNamedQueries.DIRECTIVES = true →
   is_Some (ExtendedNamedQueries.main_queries self !! name) →
   ExtendedNamedQueries.get_source self name = Some "config" ∧
   ExtendedNamedQueries.get self name = None).
Proof.
  unfold ExtendedNamedQueries.get_source, ExtendedNamedQueries.get.
  destruct (ExtendedNamedQueries.main_queries self !! name) as [q|];
    destruct (ExtendedNamedQueries._included_queries self !! name) as [q'|];
    (split; [split; [intros ?|intros [? ?]]; by simplify_eq|]);
    (split; intros ->; [|intros [? ?]; by simplify_eq]);
    split_and!; intros ?; simplify_eq; eauto.
Qed.

Lemma get_source_agrees_with_get_witness :
  ExtendedNamedQueries.get_source
    (ExtendedNamedQueries.Instance None
       (Some (<["includedir" := "extra.d"]> ∅)) None
       (<["r" := "select 3"]> ∅)) "includedir" = Some "config" ∧
  ExtendedNamedQueries.get
    (ExtendedNamedQueries.Instance None
       (Some (<["includedir" := "extra.d"]> ∅)) None
       (<["r" := "select 3"]> ∅)) "includedir" = None.
Proof.
  apply (get_source_agrees_with_get
           (ExtendedNamedQueries.Instance None
              (Some (<["includedir" := "extra.d"]> ∅)) None
              (<["r" := "select 3"]> ∅)) "includedir").
  - reflexivity.
  - by eexists.
Defined.

(** ** Named queries: the include directory *)

Lemma os_path_join_nonempty a b : a ≠ "" → os_path_join a b ≠ "".
Proof.
  intros Ha. unfold os_path_join.
  destruct (startswith b "/") eqn:Hb.
  - intros ->. by rewrite startswith_strip in Hb.
  - destruct (_ || _); by destruct a.
Qed.

Lemma truthy_Some s : truthy (Some s) = true ↔ s ≠ "".
Proof.
  simpl. rewrite negb_true_iff. apply String.eqb_neq.
Qed.

Lemma get_include_dir_nonempty {value} (as_path : value → string)
    (self : ExtendedNamedQueries.instance) d :
  ExtendedNamedQueries._get_include_dir as_path self = Some d → d ≠ "".
Proof.
  unfold ExtendedNamedQueries._get_include_dir.
  destruct (truthy (ExtendedNamedQueries._include_dir self)) eqn:He.
  { intros Hd. rewrite Hd in He. by apply truthy_Some. }
  destruct (truthy (ExtendedNamedQueries.filename self)).
  - set (config_dir := dirname _).
    destruct (truthy (_ <$> _)) eqn:Hi.
    + destruct (truthy (Some config_dir) && _) eqn:Hc.
      * intros [= <-]. apply os_path_join_nonempty.
        apply andb_true_iff in Hc as [Hc _]. by apply truthy_Some.
      * intros Hd. rewrite Hd in Hi. by apply truthy_Some.
    + destruct (truthy (Some config_dir)) eqn:Hc; [|done].
      intros [= <-]. apply os_path_join_nonempty. by apply truthy_Some.
  - destruct (truthy (_ <$> _)) eqn:Hi; [|done].
    cbn [truthy andb]. intros Hd. rewrite Hd in Hi. by apply truthy_Some.
Qed.

Lemma head_of_no_sep base :
  str_forall (fun c => negb (Ascii.eqb c "/")) base = true → head_of base = "".
Proof.
  induction base as [|c base IH]; simpl; [done|].
  intros [Hc Hb]%andb_true_iff. rewrite (IH Hb).
  apply negb_true_iff in Hc. by rewrite Hc.
Qed.

Lemma head_of_app dir base :
  str_forall (fun c => negb (Ascii.eqb c "/")) base = true →
  head_of (dir +:+ String "/" base) = dir +:+ "/".
Proof.
  intros Hb. induction dir as [|c dir IH]; simpl.
  - by rewrite (head_of_no_sep _ Hb).
  - rewrite IH. destruct dir; simpl; by rewrite orb_true_r.
Qed.

Lemma rstrip_sep_app dir :
  endswith dir "/" = false → rstrip_sep (dir +:+ "/") = dir.
Proof.
  induction dir as [|c dir IH]; [done|].
  cbn [endswith]. intros [Hc Hd]%orb_false_iff.
  cbn [String.append rstrip_sep]. rewrite (IH Hd).
  destruct dir as [|c' dir].
  - simpl in Hc. destruct (Ascii.eqb c "/") eqn:Hc'; [|done].
    apply Ascii.eqb_eq in Hc' as ->. done.
  - by rewrite andb_false_r.
Qed.

Lemma not_all_sep dir :
  dir ≠ "" → endswith dir "/" = false →
  str_forall (fun c => Ascii.eqb c "/") (dir +:+ "/") = false.
Proof.
  induction dir as [|c dir IH]; [done|].
  intros _. cbn [endswith]. intros [Hc Hd]%orb_false_iff.
  cbn [String.append str_forall].
  destruct dir as [|c' dir].
  - simpl in Hc. destruct (Ascii.eqb c "/") eqn:Hc'; [|done].
    apply Ascii.eqb_eq in Hc' as ->. done.
  - rewrite IH by done. apply andb_false_r.
Qed.

Lemma dirname_join dir base :
  dir ≠ "" → endswith dir "/" = false →
  str_forall (fun c => negb (Ascii.eqb c "/")) base = true →
  dirname (dir +:+ "/" +:+ base) = dir.
Proof.
  intros Hd He Hb. unfold dirname.
  change ("/" +:+ base) with (String "/" base). rewrite head_of_app by done.
  rewrite not_all_sep by done.
  destruct (String.eqb (dir +:+ "/") "") eqn:Hn.
  - apply String.eqb_eq in Hn. by destruct dir.
  - cbn [negb andb]. by apply rstrip_sep_app.
Qed.

Lemma os_path_join_relative dir rel :
  dir ≠ "" → endswith dir "/" = false → isabs rel = false →
  os_path_join dir rel = dir +:+ "/" +:+ rel.
Proof.
  intros Hd He Hr. unfold os_path_join, isabs in *. rewrite Hr, He.
  apply String.eqb_neq in Hd. by rewrite Hd.
Qed.

(** X21.  Where the include files are looked for when the constructor is
    given no directory and the main configuration is the file [base] of the
    directory [dir]: in the directory the [includedir] directive names, taken
    relative to [dir] unless it is absolute, and without a directive (or with
    an empty one) in [namedqueries.d] under [dir].  A directory given to the
    constructor is used whatever the configuration says. *)
Theorem include_dir_is_next_to_config {value} (as_path : value → string)
    dir base config explicit included :
  dir ≠ "" → endswith dir "/" = false →
  str_forall (fun c => negb (Ascii.eqb c "/")) base = true →
  let self :=
    ExtendedNamedQueries.Instance (Some (dir +:+ "/" +:+ base)) config explicit
      included in
  let includedir :=
    as_path <$> ExtendedNamedQueries.main_queries self !! "includedir" in
  ExtendedNamedQueries._get_include_dir as_path self
  = if truthy explicit then explicit
    else if truthy includedir then
      if isabs (default "" includedir) then includedir
      else Some (dir +:+ "/" +:+ default "" includedir)
    else Some (dir +:+ "/namedqueries.d").
Proof.
  intros Hd He Hb self includedir.
  unfold ExtendedNamedQueries._get_include_dir.
  fold includedir. cbn [ExtendedNamedQueries._include_dir
                        ExtendedNamedQueries.filename self].
  destruct (truthy explicit); [done|].
  assert (truthy (Some (dir +:+ "/" +:+ base)) = true) as ->.
  { apply truthy_Some. by destruct dir. }
  cbn [default from_option id]. rewrite dirname_join by done.
  assert (truthy (Some dir) = true) as -> by (by apply truthy_Some).
  destruct (truthy includedir); cbn [andb].
  - destruct (isabs (default "" includedir)) eqn:Ha; cbn [negb]; [done|].
    by rewrite os_path_join_relative.
  - by rewrite os_path_join_relative.
Qed.

Lemma include_dir_is_next_to_config_witness :
  ExtendedNamedQueries._get_include_dir id
    (ExtendedNamedQueries.Instance (Some "/home/me/.config/pgcli/config")
       (Some (<["includedir" := "queries.d"]> ∅)) None ∅)
  = Some "/home/me/.config/pgcli/queries.d".
Proof.
  change (Some "/home/me/.config/pgcli/config")
    with (Some ("/home/me/.config/pgcli" +:+ "/" +:+ "config")).
  rewrite (include_dir_is_next_to_config id "/home/me/.config/pgcli" "config"
             (Some (<["includedir" := "queries.d"]> ∅)) None ∅);
    [reflexivity|discriminate|reflexivity|reflexivity].
Defined.

(** ** Named queries: loading the include directory *)

Lemma load_files_app {value} (fs : @ExtendedNamedQueries.directory value) d a :
  ∀ b included,
    ExtendedNamedQueries.load_files fs d (a ++ b) included
    = (included' <- ExtendedNamedQueries.load_files fs d a included ;;
       ExtendedNamedQueries.load_files fs d b included').
Proof.
  induction a as [|f a IH]; intros b included; simpl; [done|].
  destruct (ExtendedNamedQueries._load_queries_from_file _ _); simpl; [|done].
  apply IH.
Qed.

Lemma load_queries_from_file_cases {value}
    (parsed : result (@ExtendedNamedQueries.file_config value)) included r :
  ExtendedNamedQueries._load_queries_from_file parsed included = Ok r →
  r = included ∨
  ∃ file, parsed = Ok file ∧
          r = ExtendedNamedQueries.file_queries file ∪ included.
Proof.
  unfold ExtendedNamedQueries._load_queries_from_file.
  destruct parsed as [file|e].
  - destruct (ExtendedNamedQueries.nonempty_dict _) eqn:Hne; intros [= <-].
    + right. by exists file.
    + by left.
  - destruct (is_Exception e); intros [= <-]. by left.
Qed.

Lemma load_files_keeps {value} (fs : @ExtendedNamedQueries.directory value)
    d name v :
  ∀ files included r,
    (∀ g file, g ∈ files →
               ExtendedNamedQueries.ConfigObj fs (os_path_join d g) = Ok file →
               ExtendedNamedQueries.file_queries file !! name = None ∨
               ExtendedNamedQueries.file_queries file !! name = Some v) →
    included !! name = Some v →
    ExtendedNamedQueries.load_files fs d files included = Ok r →
    r !! name = Some v.
Proof.
  induction files as [|f files IH]; intros included r Hfiles Hinc; simpl.
  { by intros [= <-]. }
  destruct (ExtendedNamedQueries._load_queries_from_file _ _)
    as [included'|] eqn:Hone; simpl; [|done].
  apply IH.
  - intros g file Hg. apply Hfiles. by right.
  - apply load_queries_from_file_cases in Hone
      as [->|(file & Hfile & ->)]; [done|].
    destruct (Hfiles f file ltac:(by left) Hfile) as [Hn|Hs].
    + by rewrite lookup_union_r.
    + by apply lookup_union_Some_l.
Qed.

Lemma load_files_origin {value} (fs : @ExtendedNamedQueries.directory value)
    d name v :
  ∀ files included r,
    ExtendedNamedQueries.load_files fs d files included = Ok r →
    r !! name = Some v →
    included !! name = Some v ∨
    ∃ f file, f ∈ files ∧
              ExtendedNamedQueries.ConfigObj fs (os_path_join d f) = Ok file ∧
              ExtendedNamedQueries.file_queries file !! name = Some v.
Proof.
  induction files as [|f files IH]; intros included r; simpl.
  { intros [= <-]. by left. }
  destruct (ExtendedNamedQueries._load_queries_from_file _ _)
    as [included'|] eqn:Hone; simpl; [|done].
  intros Hrest Hr.
  destruct (IH _ _ Hrest Hr) as [Hinc|(g & file & Hg & Hfile & Hv)].
  - apply load_queries_from_file_cases in Hone
      as [->|(file & Hfile & ->)]; [by left|].
    apply lookup_union_Some_raw in Hinc as [Hv|[_ Hv]]; [|by left].
    right. exists f, file. split; [by left|done].
  - right. exists g, file. split; [by right|done].
Qed.

Lemma conf_files_elem_of {value} (fs : @ExtendedNamedQueries.directory value)
    d names f :
  f ∈ ExtendedNamedQueries.conf_files fs d names ↔
  f ∈ names ∧ endswith f ".conf" = true ∧
  ExtendedNamedQueries.isfile fs (os_path_join d f) = true.
Proof.
  unfold ExtendedNamedQueries.conf_files.
  rewrite sorted_elem_of, list_elem_of_In, filter_In, <- list_elem_of_In.
  by rewrite andb_true_iff.
Qed.

(** What [from_config] returns, by what the file system answers. *)
Lemma from_config_inv {value} (as_path : value → string)
    (fs : ExtendedNamedQueries.directory) cfile config explicit self :
  ExtendedNamedQueries.from_config as_path fs cfile config explicit = Ok self →
  ExtendedNamedQueries._included_queries self = ∅ ∨
  ∃ d names,
    ExtendedNamedQueries._get_include_dir as_path
      (ExtendedNamedQueries.Instance cfile config explicit ∅) = Some d ∧
    ExtendedNamedQueries.isdir fs d = true ∧
    ExtendedNamedQueries.listdir fs d = Some names ∧
    ExtendedNamedQueries.load_files fs d
      (ExtendedNamedQueries.conf_files fs d names) ∅
    = Ok (ExtendedNamedQueries._included_queries self).
Proof.
  unfold ExtendedNamedQueries.from_config,
    ExtendedNamedQueries._load_included_queries.
  destruct (ExtendedNamedQueries._get_include_dir _ _) as [d|] eqn:Hdir;
    cbn [truthy default from_option id negb].
  2:{ intros [= <-]. by left. }
  destruct (negb (negb (String.eqb d ""))).
  { intros [= <-]. by left. }
  destruct (ExtendedNamedQueries.isdir fs d) eqn:Hisdir; cbn [negb].
  2:{ intros [= <-]. by left. }
  destruct (ExtendedNamedQueries.listdir fs d) as [names|] eqn:Hlist.
  2:{ intros [= <-]. by left. }
  cbn [ExtendedNamedQueries._included_queries].
  destruct (ExtendedNamedQueries.load_files _ _ _ _) as [r|] eqn:Hload;
    simpl; [|done].
  intros [= <-]. right. by exists d, names.
Qed.

(** X19.  The include files are merged in the order of their names, so of
    the [.conf] files of the include directory that define a name the one
    whose name sorts last decides: if a file defines the name and every
    [.conf] file sorting after it leaves the name undefined, or cannot be
    parsed, the object built holds that file's query for the name. *)
Theorem later_include_file_wins {value} (as_path : value → string)
    (fs : ExtendedNamedQueries.directory)
    cfile config explicit d names self f file name v :
  ExtendedNamedQueries.from_config as_path fs cfile config explicit = Ok self →
  ExtendedNamedQueries._get_include_dir as_path
    (ExtendedNamedQueries.Instance cfile config explicit ∅) = Some d →
  ExtendedNamedQueries.isdir fs d = true →
  ExtendedNamedQueries.listdir fs d = Some names →
  f ∈ names → endswith f ".conf" = true →
  ExtendedNamedQueries.isfile fs (os_path_join d f) = true →
  ExtendedNamedQueries.ConfigObj fs (os_path_join d f) = Ok file →
  ExtendedNamedQueries.file_queries file !! name = Some v →
  (∀ g file',
     g ∈ names → endswith g ".conf" = true →
     ExtendedNamedQueries.isfile fs (os_path_join d g) = true →
     str_le f g → g ≠ f →
     ExtendedNamedQueries.ConfigObj fs (os_path_join d g) = Ok file' →
     ExtendedNamedQueries.file_queries file' !! name = None) →
  ExtendedNamedQueries._included_queries self !! name = Some v.
Proof.
  intros Hnew Hdir Hisdir Hlist Hf Hconf Hisfile Hfile Hv Hlater.
  unfold ExtendedNamedQueries.from_config,
    ExtendedNamedQueries._load_included_queries in Hnew.
  rewrite Hdir in Hnew.
  pose proof (get_include_dir_nonempty _ _ _ Hdir) as Hd.
  apply truthy_Some in Hd. rewrite Hd in Hnew.
  cbn [negb default from_option id] in Hnew. rewrite Hisdir, Hlist in Hnew.
  cbn [negb ExtendedNamedQueries._included_queries] in Hnew.
  destruct (ExtendedNamedQueries.load_files _ _ _ _) as [r|] eqn:Hload;
    simpl in Hnew; [|done].
  injection Hnew as <-. cbn [ExtendedNamedQueries._included_queries
                             ExtendedNamedQueries.set_included].
  assert (f ∈ ExtendedNamedQueries.conf_files fs d names) as Hin
    by (by apply conf_files_elem_of).
  apply list_elem_of_split in Hin as (l1 & l2 & Hsplit).
  assert (StronglySorted str_le (l1 ++ f :: l2)) as Hsorted.
  { rewrite <- Hsplit. apply StronglySorted_merge_sort; apply _. }
  apply StronglySorted_app_1_r, StronglySorted_inv in Hsorted as [_ Hle].
  rewrite Hsplit, load_files_app in Hload.
  destruct (ExtendedNamedQueries.load_files fs d l1 ∅) as [r1|]; [|done].
  simpl in Hload. rewrite Hfile in Hload.
  unfold ExtendedNamedQueries._load_queries_from_file in Hload.
  destruct (ExtendedNamedQueries.nonempty_dict _) eqn:Hne.
  2:{ apply nonempty_dict_false in Hne. by rewrite Hne in Hv. }
  simpl in Hload.
  apply (load_files_keeps fs d name v l2
           (ExtendedNamedQueries.file_queries file ∪ r1) r);
    [|by apply lookup_union_Some_l|done].
  intros g file' Hg Hfile'.
  destruct (decide (g = f)) as [->|Hne'].
  - right. congruence.
  - left.
    assert (g ∈ ExtendedNamedQueries.conf_files fs d names) as Hg'.
    { rewrite Hsplit. apply elem_of_app. right. by right. }
    apply conf_files_elem_of in Hg' as (? & ? & ?).
    apply (Hlater g file'); try done.
    by apply (proj1 (Forall_forall _ _) Hle).
Qed.

Lemma later_include_file_wins_witness :
  ∃ self,
    ExtendedNamedQueries.from_config id sample_directory None None
      (Some "/etc/pgcli/namedqueries.d") = Ok self ∧
    ExtendedNamedQueries._included_queries self !! "q" = Some "select 2".
Proof.
  eexists. split; [reflexivity|].
  apply (later_include_file_wins id sample_directory None None
           (Some "/etc/pgcli/namedqueries.d")
           "/etc/pgcli/namedqueries.d" ["b.conf"; "notes.txt"; "a.conf"] _
           "b.conf"
           (ExtendedNamedQueries.FileConfig None (<["q" := "select 2"]> ∅))
           "q" "select 2"); try reflexivity.
  - by left.
  - intros g file' Hg Hconf _ Hle Hne.
    apply elem_of_cons in Hg as [->|Hg]; [done|].
    apply elem_of_cons in Hg as [->|Hg]; [discriminate Hconf|].
    apply elem_of_cons in Hg as [->|Hg]; [discriminate Hle|].
    by apply elem_of_nil in Hg.
Defined.

(** X20.  What the include directory can contribute: every query the object
    built holds as included was read from a regular file of the include
    directory whose name ends with [.conf] and which ConfigObj parsed, and it
    is a query of that file's [named queries] section or, when that section
    is missing or empty, one of the file's top-level scalars. *)
Theorem included_queries_come_from_conf_files {value} (as_path : value → string)
    (fs : ExtendedNamedQueries.directory) cfile config explicit self name v :
  ExtendedNamedQueries.from_config as_path fs cfile config explicit = Ok self →
  ExtendedNamedQueries._included_queries self !! name = Some v →
  ∃ d names f file,
    ExtendedNamedQueries._get_include_dir as_path
      (ExtendedNamedQueries.Instance cfile config explicit ∅) = Some d ∧
    ExtendedNamedQueries.isdir fs d = true ∧
    ExtendedNamedQueries.listdir fs d = Some names ∧
    f ∈ names ∧ endswith f ".conf" = true ∧
    ExtendedNamedQueries.isfile fs (os_path_join d f) = true ∧
    ExtendedNamedQueries.ConfigObj fs (os_path_join d f) = Ok file ∧
    ExtendedNamedQueries.file_queries file !! name = Some v ∧
    (ExtendedNamedQueries.file_queries file
     = match ExtendedNamedQueries.named_queries file with
       | Some section =>
           if ExtendedNamedQueries.nonempty_dict section then section
           else ExtendedNamedQueries.top_scalars file
       | None => ExtendedNamedQueries.top_scalars file
       end).
Proof.
  intros Hnew Hv.
  destruct (from_config_inv _ _ _ _ _ _ Hnew)
    as [Hempty|(d & names & Hdir & Hisdir & Hlist & Hload)].
  { by rewrite Hempty, lookup_empty in Hv. }
  destruct (load_files_origin fs d name v _ _ _ Hload Hv)
    as [Hempty|(f & file & Hf & Hfile & Hq)].
  { by rewrite lookup_empty in Hempty. }
  apply conf_files_elem_of in Hf as (Hf & Hconf & Hisfile).
  exists d, names, f, file. split_and!; try done.
  unfold ExtendedNamedQueries.file_queries.
  by destruct (ExtendedNamedQueries.named_queries file) as [section|].
Qed.

Lemma included_queries_come_from_conf_files_witness :
  ∃ d names f file,
    ExtendedNamedQueries._get_include_dir id
      (ExtendedNamedQueries.Instance None None
         (Some "/etc/pgcli/namedqueries.d") ∅) = Some d ∧
    ExtendedNamedQueries.isdir sample_directory d = true ∧
    ExtendedNamedQueries.listdir sample_directory d = Some names ∧
    f ∈ names ∧ endswith f ".conf" = true ∧
    ExtendedNamedQueries.isfile sample_directory (os_path_join d f) = true ∧
    ExtendedNamedQueries.ConfigObj sample_directory (os_path_join d f) = Ok file ∧
    ExtendedNamedQueries.file_queries file !! "r" = Some "select 3" ∧
    (ExtendedNamedQueries.file_queries file
     = match ExtendedNamedQueries.named_queries file with
       | Some section =>
           if ExtendedNamedQueries.nonempty_dict section then section
           else ExtendedNamedQueries.top_scalars file
       | None => ExtendedNamedQueries.top_scalars file
       end).
Proof.
  apply (included_queries_come_from_conf_files id sample_directory None None
           (Some "/etc/pgcli/namedqueries.d")
           (ExtendedNamedQueries.Instance None None
              (Some "/etc/pgcli/namedqueries.d")
              (<["q" := "select 2"]> (<["r" := "select 3"]> ∅)))
           "r" "select 3"); reflexivity.
Defined.
